(** * Best-execution quote router of venus-optimizer

    A shallow embedding of [server/src/services/swap.ts]: token directory,
    candidate path enumeration, PancakeSwap v2 / v3 quoting, ranking, the
    two-way split search, the v2/v3 selection and the slippage floor.

    Conventions of the embedding.
    - JavaScript strings are [string]s; the case conversions act on the
      ASCII letters (addresses and token symbols are ASCII).
    - [bigint] values are [Z]; [a / b] on bigints truncates toward zero and
      is [Z.quot].  The decimal strings [amountInRaw] / [amountOutRaw] of a
      quote are kept as the integers they print.
    - JavaScript numbers that only ever hold small integers ([maxHops], fee
      tiers) are [Z]; the slippage percentage is an IEEE-754 binary64
      [float], as in the source.
    - [process.env] is a finite map from names to values.
    - Everything the module reaches over the network (RPC provider, router,
      quoter, ERC-20 decimals) and the ethers formatting helpers are fields
      of a [World]; a call that rejects, times out or returns a value of
      no usable shape answers [None].  The answers are fixed per request for
      the duration of one invocation. *)

From Stdlib Require Import ZArith Ascii String Floats Lia.
From stdpp Require Import base option list strings gmap.

Open Scope string_scope.
Open Scope Z_scope.

(** ** JavaScript string primitives *)

Module Js.

Definition lowerChar (c : ascii) : ascii :=
let n := N_of_ascii c in
if ((65 <=? n) && (n <=? 90))%N then ascii_of_N (n + 32) else c.

Definition upperChar (c : ascii) : ascii :=
let n := N_of_ascii c in
if ((97 <=? n) && (n <=? 122))%N then ascii_of_N (n - 32) else c.

Fixpoint mapChars (f : ascii -> ascii) (s : string) : string :=
match s with
| EmptyString => EmptyString
| String c r => String (f c) (mapChars f r)
end.

(** [s.toLowerCase()] and [s.toUpperCase()] on ASCII text: the letters
  a-z and A-Z are converted and every other character is kept, where
  JavaScript also converts letters outside ASCII.  The symbols and
  addresses of the module are ASCII. *)
Definition toLowerCase : string -> string := mapChars lowerChar.
Definition toUpperCase : string -> string := mapChars upperChar.

(** White space of [\s] and of [trim()], within ASCII. *)
Definition isSpace (c : ascii) : bool :=
let n := N_of_ascii c in
((9 <=? n) && (n <=? 13) || (n =? 32))%N.

Fixpoint trimStart (s : string) : string :=
match s with
| String c r => if isSpace c then trimStart r else s
| EmptyString => EmptyString
end.

Fixpoint trimEnd (s : string) : string :=
match s with
| EmptyString => EmptyString
| String c r =>
    match trimEnd r with
    | EmptyString => if isSpace c then EmptyString else String c EmptyString
    | r' => String c r'
    end
end.

(** [s.trim()]. *)
Definition trim (s : string) : string := trimEnd (trimStart s).

(** Truthiness of a string value that may be [undefined]. *)
Definition truthy (o : option string) : option string :=
match o with
| Some EmptyString | None => None
| Some s => Some s
end.

(** [a || d] on an optional string. *)
Definition orElse (o : option string) (d : string) : string :=
default d (truthy o).

Definition isHexChar (c : ascii) : bool :=
let n := N_of_ascii c in
((48 <=? n) && (n <=? 57) || (97 <=? n) && (n <=? 102)
 || (65 <=? n) && (n <=? 70))%N.

Fixpoint allChars (p : ascii -> bool) (s : string) : bool :=
match s with
| EmptyString => true
| String c r => p c && allChars p r
end.

(** [/^0x[a-fA-F0-9]{40}$/.test(s)]. *)
Definition isAddress (s : string) : bool :=
match s with
| String "0" (String "x" body) =>
    (String.length body =? 40)%nat && allChars isHexChar body
| _ => false
end.

(** [s.replace(/^0x/, '')]. *)
Definition strip0x (s : string) : string :=
match s with
| String "0" (String "x" body) => body
| _ => s
end.

(** [s.split(re).filter(Boolean)] for a regular expression [[...]+] over a
  character class [sep]: the maximal runs of characters outside [sep]. *)
Fixpoint tokens (sep : ascii -> bool) (cur : string) (s : string) : list string :=
match s with
| EmptyString => match cur with EmptyString => [] | _ => [cur] end
| String c r =>
    if sep c
    then match cur with
         | EmptyString => tokens sep EmptyString r
         | _ => cur :: tokens sep EmptyString r
         end
    else tokens sep (cur +:+ String c EmptyString) r
end.

Definition hexDigit (d : N) : ascii :=
if (d <? 10)%N then ascii_of_N (48 + d) else ascii_of_N (87 + d).

(** Hexadecimal digits of [n], least significant first. *)
Fixpoint hexDigitsLE (fuel : nat) (n : N) : list ascii :=
match fuel with
| O => []
| S fuel' =>
    hexDigit (n mod 16) ::
    (if (n / 16 =? 0)%N then [] else hexDigitsLE fuel' (n / 16))
end.

Definition stringOfChars (l : list ascii) : string :=
foldr String EmptyString l.

(** [n.toString(16)] for an integer-valued number. *)
Definition toString16 (n : Z) : string :=
let m := Z.to_N (Z.abs n) in
let digits := stringOfChars (reverse (hexDigitsLE (S (N.to_nat (N.log2 m))) m)) in
if n <? 0 then String "-" digits else digits.

Fixpoint repeatChar (k : nat) (c : ascii) : string :=
match k with
| O => EmptyString
| S k' => String c (repeatChar k' c)
end.

(** [s.padStart(width, c)] for a one-character filler. *)
Definition padStart (width : nat) (c : ascii) (s : string) : string :=
repeatChar (width - String.length s) c +:+ s.

End Js.

(** ** Errors raised by the quoting functions *)

Inductive QuoteError : Type :=
  | ProviderUnavailable      (* 'Provider non disponible' *)
  | UnknownAddress           (* 'Adresse inconnue pour ...' *)
  | AmountRejected           (* ethers.parseUnits threw *)
  | QuoterUnavailable        (* 'Quoter v3 indisponible: ...' *)
  | NoV2Route                (* 'Aucune route de swap valable trouvée' *)
  | NoV3Route                (* 'Aucune route v3 valable trouvée' *)
  | NoPancakeRoute           (* 'Aucune route Pancake (v2/v3) trouvée' *)
  | NoOneInchRoute           (* 'Aucune route 1inch valable trouvée' *)
  | OneInchRequest           (* the 1inch HTTP request failed *)
  | GasPriceUnavailable      (* fetchGasPriceNow threw *)
  | BigIntRange              (* BigInt(x) on a non-finite number *)
  | PathEncoding             (* encodeV3Path threw *)
  | NullDereference.         (* a TypeError on a null address *)

Inductive Result (A : Type) : Type :=
  | Ok (a : A)
  | Err (e : QuoteError).
Arguments Ok {A} a.
Arguments Err {A} e.

Definition bind {A B} (r : Result A) (k : A -> Result B) : Result B :=
  match r with
  | Ok a => k a
  | Err e => Err e
  end.

Notation "x <- r ;; k" := (bind r (fun x => k))
  (at level 100, r at next level, right associativity).

Definition isOk {A} (r : Result A) : bool :=
  match r with Ok _ => true | Err _ => false end.

(** ** The outside world *)

(** The fields of a 1inch reply that the module reads: [toTokenAmount] as
    the integer it spells, [estimatedGas], and of [protocols] the routes
    with the destination symbol of each hop, when it carries one. *)
Record OneInchV5Quote : Type := {
  toTokenAmount : Z;
  estimatedGas : option Z;
  protocols : option (list (list (option string)));
}.

Record World : Type := {
  (** [process.env] *)
  env : gmap string string;
  (** [getProvider()] returned a provider *)
  providerAvailable : bool;
  (** [DEFAULT_V3_FEE_TIERS], the positive finite entries of
      [SERVER_PCS_V3_FEE_TIERS] (or of '100,500,2500,10000') *)
  DEFAULT_V3_FEE_TIERS : list Z;
  (** [fetchTokenDecimals(provider, token)]: cached, 18 on any failure *)
  fetchTokenDecimals : string -> Z;
  (** [ethers.parseUnits(String(x), decimals)]; [None] when it throws *)
  parseUnits : float -> Z -> option Z;
  (** [ethers.formatUnits(raw, decimals)] *)
  formatUnits : Z -> Z -> string;
  (** [Number(s)] on an environment string *)
  numberOfString : string -> float;
  (** [requestOneInchQuote(56, { fromTokenAddress, toTokenAddress, amount })] *)
  requestOneInchQuote : string -> string -> Z -> option OneInchV5Quote;
  (** [fetchGasPriceNow()]: the gas price in gwei; [None] when it throws *)
  fetchGasPriceNow : option float;
  (** last entry of [router.getAmountsOut(amountIn, path)] (a uint256) *)
  getAmountsOut : Z -> list string -> option N;
  (** amount out of [quoter.quoteExactInput.staticCall(path, amountIn)];
      the first argument of the four quoter calls is the quoter's address *)
  quoteExactInputStatic : string -> string -> Z -> option N;
  (** [quoter.quoteExactInput(path, amountIn)] *)
  quoteExactInputCall : string -> string -> Z -> option N;
  (** [quoter.quoteExactInputSingle.staticCall(tokenIn, tokenOut, fee,
      amountIn, 0)], legacy Quoter shape *)
  quoteExactInputSingleLegacy : string -> string -> string -> Z -> Z -> option N;
  (** [quoter.quoteExactInputSingle.staticCall({tokenIn, ...})], QuoterV2 *)
  quoteExactInputSingleStruct : string -> string -> string -> Z -> Z -> option N;
}.

(** ** Token directory *)

Section TokenDirectory.
Context (w : World).

Definition DEFAULT_WBNB : string :=
  Js.trim (Js.orElse (env w !! "SERVER_WBNB_ADDRESS")
                     "0xBB4CdB9CBd36B01bD1cBaEBF2De08d9173bc095c").

Definition DEFAULT_V3_QUOTER : string :=
  Js.trim (Js.orElse (Js.truthy (env w !! "SERVER_PCS_V3_QUOTER")
                        ∪ Js.truthy (env w !! "PCS_V3_QUOTER"))
                     "0xB048Bbc1Ee6b733FFfCFb9e9CeF7375518e25997").

Definition KNOWN_TOKENS : gmap string string :=
  list_to_map
    [ ("WBNB", DEFAULT_WBNB);
      ("BNB", DEFAULT_WBNB);
      ("BUSD", "0xe9e7CEA3DedcA5984780Bafc599bD69ADd087D56");
      ("USDT", "0x55d398326f99059fF775485246999027B3197955");
      ("USDC", "0x8ac76a51cc950d9822d68b83fe1ad97b32cd580d");
      ("BTCB", "0x7130d2a12b9bcbfae4f2634d864a1ee1ce3ead9c");
      ("BTC", "0x7130d2a12b9bcbfae4f2634d864a1ee1ce3ead9c");
      ("ETH", "0x2170Ed0880ac9A755fd29B2688956BD959F933F8");
      ("CAKE", "0x0E09Fabb73Bd3Ade0a17ECC321fD13a19e81cE82") ].

Definition getTokenAddressFromEnv (symbol : string) : option string :=
  let key := "ADDR_" +:+ Js.toUpperCase symbol in
  match Js.truthy (env w !! key) with
  | Some val => if Js.isAddress (Js.trim val) then Some (Js.trim val) else None
  | None => None
  end.

Definition getKnownTokenAddress (symbol : string) : option string :=
  let s := Js.toUpperCase symbol in
  match getTokenAddressFromEnv s with
  | Some envAddr => Some envAddr
  | None => Js.truthy (KNOWN_TOKENS !! s)
  end.

Definition isIntermediateSeparator (c : ascii) : bool :=
  (c =? ";")%char || (c =? ",")%char || (c =? ":")%char || Js.isSpace c.

Definition getPreferredIntermediates : list string :=
  let raw := Js.trim (default "" (env w !! "SERVER_QUOTE_INTERMEDIATES")) in
  match raw with
  | EmptyString => ["WBNB"; "USDT"; "USDC"]
  | _ => Js.toUpperCase <$> Js.tokens isIntermediateSeparator "" raw
  end.

Definition resolveSymbolsToAddresses (symbols : list string) : list string :=
  omap getKnownTokenAddress symbols.

End TokenDirectory.

(** ** Quotes *)

Record TokenInfo : Type := {
  symbol : string;
  address : string;
  decimals : option Z;
}.

Record SplitQuotePart : Type := {
  part_amountIn : string;
  part_amountOut : string;
  part_amountInRaw : Z;
  part_amountOutRaw : Z;
  part_path : list string;
  part_pathSymbols : list string;
}.

Inductive Provider : Type := oneinch | pcs_v2 | pcs_v3.

Inductive DexVersion : Type := dex_pcs_v2 | dex_pcs_v3.

(** [LiveQuote]; an optional field that is absent is [None], an absent
    [isSplit] reads [false]. *)
Record LiveQuote : Type := {
  amountIn : string;
  amountOut : string;
  amountOutMin : option string;
  amountInRaw : Z;
  amountOutRaw : Z;
  from : TokenInfo;
  to : TokenInfo;
  path : option (list string);
  pathSymbols : option (list string);
  v3FeesBpsPerHop : option (list Z);
  isSplit : bool;
  parts : option (list SplitQuotePart);
  provider : option Provider;
  estimatedGasUnits : option Z;
  tradingFeeBpsApprox : option Z;
}.

(** [{ ...q, provider: p }] *)
Definition withProvider (q : LiveQuote) (p : Provider) : LiveQuote :=
  {| amountIn := amountIn q; amountOut := amountOut q;
     amountOutMin := amountOutMin q;
     amountInRaw := amountInRaw q; amountOutRaw := amountOutRaw q;
     from := from q; to := to q;
     path := path q; pathSymbols := pathSymbols q;
     v3FeesBpsPerHop := v3FeesBpsPerHop q;
     isSplit := isSplit q; parts := parts q;
     provider := Some p;
     estimatedGasUnits := estimatedGasUnits q;
     tradingFeeBpsApprox := tradingFeeBpsApprox q |}.

(** The parameter object of [quotePcsV2BestExactIn], [quotePcsV3BestExactIn]
    and [quoteBestExactIn]. *)
Record QuoteParams : Type := {
  dex : option DexVersion;
  fromSymbol : string;
  toSymbol : string;
  amountInUnits : float;
  allowMultiHop : option bool;
  allowSplitRouting : option bool;
  maxHops : option Z;
  feeTiers : option (list Z);
  quoterAddress : option string;
}.

(** [Boolean(b)] on an optional flag. *)
Definition jsBoolean (b : option bool) : bool := default false b.

(** ** Path helpers *)

Fixpoint filterIndexed {A} (keep : nat -> A -> bool) (i : nat) (l : list A) : list A :=
  match l with
  | [] => []
  | x :: r =>
      if keep i x then x :: filterIndexed keep (S i) r
      else filterIndexed keep (S i) r
  end.

(** [a.toLowerCase() === b.toLowerCase()] *)
Definition sameAddress (a b : string) : bool :=
  (Js.toLowerCase a =? Js.toLowerCase b)%string.

Definition uniqueAddresses (pathArr : list string) : list string :=
  filterIndexed
    (fun i addr =>
       (i =? 0)%nat || negb (sameAddress addr (default "" (pathArr !! (i - 1)%nat))))
    0%nat pathArr.

(** [Math.max(2, Math.min(4, Number(maxHops ?? 3)))] *)
Definition clampMaxHops (maxHops : option Z) : Z :=
  Z.max 2 (Z.min 4 (default 3 maxHops)).

(** ** Ranking: [Array.prototype.sort] with the output comparator

    ECMAScript requires [sort] to be stable; with a consistent comparator
    the result is the stable insertion sort below. *)

Fixpoint insertSorted {A} (cmp : A -> A -> Z) (x : A) (l : list A) : list A :=
  match l with
  | [] => [x]
  | y :: r => if cmp x y <=? 0 then x :: l else y :: insertSorted cmp x r
  end.

Definition jsSort {A} (cmp : A -> A -> Z) (l : list A) : list A :=
  foldr (insertSorted cmp) [] l.

(** [(a, b) => (a.out > b.out ? -1 : (a.out < b.out ? 1 : 0))] *)
Definition byOutDesc {A} (out : A -> Z) (a b : A) : Z :=
  if out a >? out b then -1 else if out a <? out b then 1 else 0.

(** ** The two-way split search *)

Record SplitSearch : Type := {
  bestTotalOut : Z;
  bestPercentToR1 : Z;
  bestOut1 : Z;
  bestOut2 : Z;
}.

(** Values of [p] in [for (let p = first; p <= last; p += step)]. *)
Fixpoint forRange (fuel : nat) (p last step : Z) : list Z :=
  match fuel with
  | O => []
  | S fuel' => if p <=? last then p :: forRange fuel' (p + step) last step else []
  end.

Definition splitSteps : Z := 10.

Definition splitPercents : list Z :=
  forRange 100 splitSteps (100 - splitSteps) splitSteps.

(** Input sent to the first route at [p] percent. *)
Definition splitIn1 (amountInRaw p : Z) : Z := Z.quot (amountInRaw * p) 100.
Definition splitIn2 (amountInRaw p : Z) : Z := amountInRaw - splitIn1 amountInRaw p.

(** Combined output of the two routes at [p] percent. *)
Definition splitTotal (eval1 eval2 : Z -> Z) (amountInRaw p : Z) : Z :=
  eval1 (splitIn1 amountInRaw p) + eval2 (splitIn2 amountInRaw p).

(** One iteration of the loop body. *)
Definition splitStep (eval1 eval2 : Z -> Z) (amountInRaw : Z)
    (st : SplitSearch) (p : Z) : SplitSearch :=
  let in1 := splitIn1 amountInRaw p in
  let in2 := splitIn2 amountInRaw p in
  let o1 := eval1 in1 in
  let o2 := eval2 in2 in
  let total := o1 + o2 in
  if total >? bestTotalOut st
  then {| bestTotalOut := total; bestPercentToR1 := p; bestOut1 := o1; bestOut2 := o2 |}
  else st.

Definition splitSearch (eval1 eval2 : Z -> Z) (amountInRaw out0 : Z) : SplitSearch :=
  foldl (splitStep eval1 eval2 amountInRaw)
        {| bestTotalOut := 0; bestPercentToR1 := 100; bestOut1 := out0; bestOut2 := 0 |}
        splitPercents.

(** ** Request resolution shared by the v2 and v3 quoters *)

Record Request : Type := {
  rq_fromSymbol : string;
  rq_toSymbol : string;
  rq_fromAddr : string;
  rq_toAddr : string;
  rq_fromDecimals : Z;
  rq_toDecimals : Z;
  rq_amountInRaw : Z;
}.

Fixpoint mapResult {A B} (f : A -> Result B) (l : list A) : Result (list B) :=
  match l with
  | [] => Ok []
  | x :: r => y <- f x ;; ys <- mapResult f r ;; Ok (y :: ys)
  end.

Section Quoters.
Context (w : World).

(** From [params.fromSymbol.toUpperCase()] to [ethers.parseUnits(...)]. *)
Definition resolveRequest (params : QuoteParams) : Result Request :=
  let fromSymbol := Js.toUpperCase (fromSymbol params) in
  let toSymbol := Js.toUpperCase (toSymbol params) in
  match getKnownTokenAddress w fromSymbol, getKnownTokenAddress w toSymbol with
  | Some fromAddr, Some toAddr =>
      let fromDecimals := fetchTokenDecimals w fromAddr in
      let toDecimals := fetchTokenDecimals w toAddr in
      match parseUnits w (amountInUnits params) fromDecimals with
      | Some amountInRaw =>
          Ok {| rq_fromSymbol := fromSymbol; rq_toSymbol := toSymbol;
                rq_fromAddr := fromAddr; rq_toAddr := toAddr;
                rq_fromDecimals := fromDecimals; rq_toDecimals := toDecimals;
                rq_amountInRaw := amountInRaw |}
      | None => Err AmountRejected
      end
  | _, _ => Err UnknownAddress
  end.

Definition interAddrs : list string :=
  resolveSymbolsToAddresses w (getPreferredIntermediates w).

(** *** PancakeSwap v2 *)

Definition addPath (allowMultiHop : bool) (maxHops : Z)
    (candidatePaths : list (list string)) (p : list string) : list (list string) :=
  let clean := uniqueAddresses p in
  if (2 <=? length clean)%nat
     && (if negb allowMultiHop then (length clean =? 2)%nat
         else Z.of_nat (length clean) <=? maxHops)
  then candidatePaths ++ [clean]
  else candidatePaths.

Definition v2CandidatePaths (fromAddr toAddr : string)
    (allowMultiHop : bool) (maxHops : Z) : list (list string) :=
  let add := addPath allowMultiHop maxHops in
  let direct := add [] [fromAddr; toAddr] in
  if allowMultiHop then
    let idx := seq 0 (length interAddrs) in
    let single := foldl (fun c m => add c [fromAddr; m; toAddr]) direct interAddrs in
    foldl (fun c i =>
             foldl (fun c j =>
                      if (i =? j)%nat then c
                      else add c [fromAddr; default "" (interAddrs !! i);
                                  default "" (interAddrs !! j); toAddr])
                   c idx)
          single idx
  else direct.

Definition evaluatePathOut (path : list string) (inRaw : Z) : Z :=
  match getAmountsOut w inRaw path with
  | Some out => Z.of_N out
  | None => 0
  end.

Record V2Route : Type := { v2_path : list string; v2_out : Z }.

Definition v2Results (candidatePaths : list (list string)) (amountInRaw : Z)
    : list (option V2Route) :=
  (fun path =>
     let out := evaluatePathOut path amountInRaw in
     if out =? 0 then None else Some {| v2_path := path; v2_out := out |})
  <$> candidatePaths.

Definition v2Ranked (candidatePaths : list (list string)) (amountInRaw : Z)
    : list V2Route :=
  jsSort (byOutDesc v2_out) (omap id (v2Results candidatePaths amountInRaw)).

Definition symbolOfV2 (rq : Request) (addr : string) : Result string :=
  if sameAddress addr (rq_fromAddr rq) then Ok (rq_fromSymbol rq)
  else if sameAddress addr (rq_toAddr rq) then Ok (rq_toSymbol rq)
  else
    match getKnownTokenAddress w "WBNB" with
    | None => Err NullDereference
    | Some WBNB =>
        if sameAddress addr WBNB then Ok "WBNB" else
        match getKnownTokenAddress w "BUSD" with
        | None => Err NullDereference
        | Some BUSD =>
            if sameAddress addr BUSD then Ok "BUSD" else
            match getKnownTokenAddress w "USDT" with
            | None => Err NullDereference
            | Some USDT =>
                if sameAddress addr USDT then Ok "USDT" else Ok "UNKNOWN"
            end
        end
    end.

Definition tokenInfo (sym addr : string) (dec : Z) : TokenInfo :=
  {| symbol := sym; address := addr; decimals := Some dec |}.

Definition v2SingleQuote (rq : Request) (best : V2Route) : Result LiveQuote :=
  pathSymbols <- mapResult (symbolOfV2 rq) (v2_path best) ;;
  Ok {| amountIn := formatUnits w (rq_amountInRaw rq) (rq_fromDecimals rq);
        amountOut := formatUnits w (v2_out best) (rq_toDecimals rq);
        amountOutMin := None;
        amountInRaw := rq_amountInRaw rq;
        amountOutRaw := v2_out best;
        from := tokenInfo (rq_fromSymbol rq) (rq_fromAddr rq) (rq_fromDecimals rq);
        to := tokenInfo (rq_toSymbol rq) (rq_toAddr rq) (rq_toDecimals rq);
        path := Some (v2_path best);
        pathSymbols := Some pathSymbols;
        v3FeesBpsPerHop := None;
        isSplit := false; parts := None;
        provider := Some pcs_v2;
        estimatedGasUnits := None;
        tradingFeeBpsApprox :=
          Some (Z.max 25 ((Z.of_nat (length (v2_path best)) - 1) * 25)) |}.

Definition splitQuote (rq : Request) (s : SplitSearch)
    (path1 path2 symbols1 symbols2 : list string) : LiveQuote :=
  let in1 := splitIn1 (rq_amountInRaw rq) (bestPercentToR1 s) in
  let in2 := rq_amountInRaw rq - in1 in
  let part1 :=
    {| part_amountIn := formatUnits w in1 (rq_fromDecimals rq);
       part_amountOut := formatUnits w (bestOut1 s) (rq_toDecimals rq);
       part_amountInRaw := in1;
       part_amountOutRaw := bestOut1 s;
       part_path := path1; part_pathSymbols := symbols1 |} in
  let part2 :=
    {| part_amountIn := formatUnits w in2 (rq_fromDecimals rq);
       part_amountOut := formatUnits w (bestOut2 s) (rq_toDecimals rq);
       part_amountInRaw := in2;
       part_amountOutRaw := bestOut2 s;
       part_path := path2; part_pathSymbols := symbols2 |} in
  let totalOut := bestOut1 s + bestOut2 s in
  {| amountIn := formatUnits w (rq_amountInRaw rq) (rq_fromDecimals rq);
     amountOut := formatUnits w totalOut (rq_toDecimals rq);
     amountOutMin := None;
     amountInRaw := rq_amountInRaw rq;
     amountOutRaw := totalOut;
     from := tokenInfo (rq_fromSymbol rq) (rq_fromAddr rq) (rq_fromDecimals rq);
     to := tokenInfo (rq_toSymbol rq) (rq_toAddr rq) (rq_toDecimals rq);
     path := None; pathSymbols := None; v3FeesBpsPerHop := None;
     isSplit := true; parts := Some [part1; part2];
     provider := None; estimatedGasUnits := None;
     tradingFeeBpsApprox := None |}.

(** The grid search of the v2 quoter over its two best routes. *)
Definition v2SplitSearch (rq : Request) (r1 r2 : V2Route) : SplitSearch :=
  splitSearch (evaluatePathOut (v2_path r1)) (evaluatePathOut (v2_path r2))
              (rq_amountInRaw rq) (v2_out r1).

(** The part of [quotePcsV2BestExactIn] after the ranking. *)
Definition v2Select (rq : Request) (allowSplit : bool) (ranked : list V2Route)
    : Result LiveQuote :=
  match ranked with
  | [] => Err NoV2Route
  | r1 :: rest =>
      match allowSplit, rest with
      | true, r2 :: _ =>
          let s := v2SplitSearch rq r1 r2 in
          if v2_out r1 >=? bestTotalOut s then v2SingleQuote rq r1
          else
            symbols1 <- mapResult (symbolOfV2 rq) (v2_path r1) ;;
            symbols2 <- mapResult (symbolOfV2 rq) (v2_path r2) ;;
            Ok (splitQuote rq s (v2_path r1) (v2_path r2) symbols1 symbols2)
      | _, _ => v2SingleQuote rq r1
      end
  end.

(** Candidate paths of a resolved v2 request. *)
Definition v2Candidates (params : QuoteParams) (rq : Request) : list (list string) :=
  v2CandidatePaths (rq_fromAddr rq) (rq_toAddr rq)
                   (jsBoolean (allowMultiHop params)) (clampMaxHops (maxHops params)).

(** The opening of [quotePcsV2BestExactIn], up to [amountInRaw]. *)
Definition v2Setup (params : QuoteParams) : Result Request :=
  if negb (providerAvailable w) then Err ProviderUnavailable
  else resolveRequest params.

Definition quotePcsV2BestExactIn (params : QuoteParams) : Result LiveQuote :=
  rq <- v2Setup params ;;
  let ranked := v2Ranked (v2Candidates params rq) (rq_amountInRaw rq) in
  v2Select rq (jsBoolean (allowSplitRouting params)) ranked.

(** *** PancakeSwap v3 *)

Definition getV3Quoter (overrideAddr : option string) : option string :=
  let addr := Js.trim (Js.orElse overrideAddr (DEFAULT_V3_QUOTER w)) in
  match addr with
  | EmptyString => None
  | _ => if Js.isAddress addr then Some addr else None
  end.

Definition feeHex (fee : Z) : string :=
  Js.padStart 6 "0" (Js.toString16 fee).

Definition tokenHex (token : string) : string :=
  Js.strip0x (Js.toLowerCase token).

Definition encodeV3Path (tokens : list string) (fees : list Z) : Result string :=
  if (length tokens <? 2)%nat then Err PathEncoding
  else if negb (length fees =? length tokens - 1)%nat then Err PathEncoding
  else
    Ok (foldl (fun hex i =>
                 hex +:+ feeHex (default 0 (fees !! i))
                     +:+ tokenHex (default "" (tokens !! S i)))
              ("0x" +:+ tokenHex (default "" (tokens !! 0%nat)))
              (seq 0 (length fees))).

Definition quoteV3ExactInput (quoter pathBytes : string) (amountInRaw : Z) : Z :=
  match quoteExactInputStatic w quoter pathBytes amountInRaw with
  | Some r => Z.of_N r
  | None =>
      match quoteExactInputCall w quoter pathBytes amountInRaw with
      | Some r2 => Z.of_N r2
      | None => 0
      end
  end.

Definition quoteV3ExactInputSingle (quoter tokenIn tokenOut : string)
    (fee amountInRaw : Z) : Z :=
  match quoteExactInputSingleLegacy w quoter tokenIn tokenOut fee amountInRaw with
  | Some r1 => Z.of_N r1
  | None =>
      match quoteExactInputSingleStruct w quoter tokenIn tokenOut fee amountInRaw with
      | Some r2 => Z.of_N r2
      | None => 0
      end
  end.

Record V3Route : Type := { v3_tokens : list string; v3_fees : list Z }.

Record V3Ranked : Type := { v3_r : V3Route; v3_out : Z }.

(** [choose(depth, currentFees)] with [remaining = hops - depth]. *)
Fixpoint choose (feeTiers : list Z) (remaining : nat) (currentFees : list Z)
    : list (list Z) :=
  match remaining with
  | O => [currentFees]
  | S k => f ← feeTiers; choose feeTiers k (currentFees ++ [f])
  end.

Definition addRoute (allowMultiHop : bool) (maxHops : Z) (feeTiers : list Z)
    (routes : list V3Route) (tokens : list string) : list V3Route :=
  let clean := uniqueAddresses tokens in
  if (length clean <? 2)%nat then routes
  else if negb allowMultiHop && negb (length clean =? 2)%nat then routes
  else if allowMultiHop && (maxHops <? Z.of_nat (length clean)) then routes
  else
    let hops := (length clean - 1)%nat in
    routes ++ ((fun fees => {| v3_tokens := clean; v3_fees := fees |})
                 <$> choose feeTiers hops []).

Definition v3Routes (fromAddr toAddr : string)
    (allowMultiHop : bool) (maxHops : Z) (feeTiers : list Z) : list V3Route :=
  let add := addRoute allowMultiHop maxHops feeTiers in
  let direct := add [] [fromAddr; toAddr] in
  if allowMultiHop then
    let idx := seq 0 (length interAddrs) in
    let single := foldl (fun c m => add c [fromAddr; m; toAddr]) direct interAddrs in
    foldl (fun c i =>
             foldl (fun c j =>
                      if (i =? j)%nat then c
                      else add c [fromAddr; default "" (interAddrs !! i);
                                  default "" (interAddrs !! j); toAddr])
                   c idx)
          single idx
  else direct.

Definition evalRoute (quoter : string) (amountInRaw : Z) (r : V3Route) : Result Z :=
  if (length (v3_tokens r) =? 2)%nat then
    let single :=
      quoteV3ExactInputSingle quoter
        (default "" (v3_tokens r !! 0%nat)) (default "" (v3_tokens r !! 1%nat))
        (default 0 (v3_fees r !! 0%nat)) amountInRaw in
    path <- encodeV3Path (v3_tokens r) (v3_fees r) ;;
    let multi := quoteV3ExactInput quoter path amountInRaw in
    Ok (if multi >? 0 then multi else single)
  else
    path <- encodeV3Path (v3_tokens r) (v3_fees r) ;;
    Ok (quoteV3ExactInput quoter path amountInRaw).

Definition v3Outputs (quoter : string) (amountInRaw : Z) (routes : list V3Route)
    : list (option V3Ranked) :=
  (fun r =>
     match evalRoute quoter amountInRaw r with
     | Ok out => if out >? 0 then Some {| v3_r := r; v3_out := out |} else None
     | Err _ => None
     end)
  <$> routes.

Definition v3Ranked (quoter : string) (amountInRaw : Z) (routes : list V3Route)
    : list V3Ranked :=
  jsSort (byOutDesc v3_out) (omap id (v3Outputs quoter amountInRaw routes)).

Definition symbolOfV3 (rq : Request) (addr : string) : string :=
  if sameAddress addr (rq_fromAddr rq) then rq_fromSymbol rq
  else if sameAddress addr (rq_toAddr rq) then rq_toSymbol rq
  else
    let known (sym : string) : bool :=
      match getKnownTokenAddress w sym with
      | Some a =>
          match Js.toLowerCase a with
          | EmptyString => false
          | la => (Js.toLowerCase addr =? la)%string
          end
      | None => false
      end in
    if known "WBNB" then "WBNB"
    else if known "BUSD" then "BUSD"
    else if known "USDT" then "USDT"
    else if known "USDC" then "USDC"
    else "UNKNOWN".

Definition v3SingleQuote (rq : Request) (best : V3Ranked) : LiveQuote :=
  {| amountIn := formatUnits w (rq_amountInRaw rq) (rq_fromDecimals rq);
     amountOut := formatUnits w (v3_out best) (rq_toDecimals rq);
     amountOutMin := None;
     amountInRaw := rq_amountInRaw rq;
     amountOutRaw := v3_out best;
     from := tokenInfo (rq_fromSymbol rq) (rq_fromAddr rq) (rq_fromDecimals rq);
     to := tokenInfo (rq_toSymbol rq) (rq_toAddr rq) (rq_toDecimals rq);
     path := Some (v3_tokens (v3_r best));
     pathSymbols := Some (symbolOfV3 rq <$> v3_tokens (v3_r best));
     v3FeesBpsPerHop := Some (v3_fees (v3_r best));
     isSplit := false; parts := None;
     provider := None; estimatedGasUnits := None;
     tradingFeeBpsApprox := None |}.

(** One leg of the v3 split search: the quote of route [r] as a function
    of the input sent through it.  The path bytes do not depend on the
    amount, so an encoding failure shows at the first grid step. *)
Definition v3SplitLeg (quoter : string) (r : V3Route) : Result (Z -> Z) :=
  if (length (v3_tokens r) =? 2)%nat then
    Ok (quoteV3ExactInputSingle quoter
          (default "" (v3_tokens r !! 0%nat)) (default "" (v3_tokens r !! 1%nat))
          (default 0 (v3_fees r !! 0%nat)))
  else
    path <- encodeV3Path (v3_tokens r) (v3_fees r) ;;
    Ok (quoteV3ExactInput quoter path).

(** The part of [quotePcsV3BestExactIn] after the ranking. *)
Definition v3Select (quoter : string) (rq : Request) (allowSplit : bool)
    (ranked : list V3Ranked) : Result LiveQuote :=
  match ranked with
  | [] => Err NoV3Route
  | x :: rest =>
      match allowSplit, rest with
      | true, y :: _ =>
          leg1 <- v3SplitLeg quoter (v3_r x) ;;
          leg2 <- v3SplitLeg quoter (v3_r y) ;;
          let s := splitSearch leg1 leg2 (rq_amountInRaw rq) (v3_out x) in
          if v3_out x >=? bestTotalOut s then Ok (v3SingleQuote rq x)
          else
            Ok (splitQuote rq s (v3_tokens (v3_r x)) (v3_tokens (v3_r y))
                  (symbolOfV3 rq <$> v3_tokens (v3_r x))
                  (symbolOfV3 rq <$> v3_tokens (v3_r y)))
      | _, _ => Ok (v3SingleQuote rq x)
      end
  end.

(** [(params.feeTiers && params.feeTiers.length ? params.feeTiers
     : DEFAULT_V3_FEE_TIERS).slice(0, 6)] *)
Definition v3FeeTiers (params : QuoteParams) : list Z :=
  take 6 (match feeTiers params with
          | Some (f :: fs) => f :: fs
          | _ => DEFAULT_V3_FEE_TIERS w
          end).

(** Route and fee-tier combinations of a resolved v3 request. *)
Definition v3Candidates (params : QuoteParams) (rq : Request) : list V3Route :=
  v3Routes (rq_fromAddr rq) (rq_toAddr rq)
           (jsBoolean (allowMultiHop params)) (clampMaxHops (maxHops params))
           (v3FeeTiers params).

(** The opening of [quotePcsV3BestExactIn]: the quoter and the request. *)
Definition v3Setup (params : QuoteParams) : Result (string * Request) :=
  if negb (providerAvailable w) then Err ProviderUnavailable else
  match getV3Quoter (quoterAddress params) with
  | None => Err QuoterUnavailable
  | Some quoter => rq <- resolveRequest params ;; Ok (quoter, rq)
  end.

Definition quotePcsV3BestExactIn (params : QuoteParams) : Result LiveQuote :=
  qr <- v3Setup params ;;
  let quoter := qr.1 in
  let rq := qr.2 in
  let ranked := v3Ranked quoter (rq_amountInRaw rq) (v3Candidates params rq) in
  v3Select quoter rq (jsBoolean (allowSplitRouting params)) ranked.

(** *** Choice of the venue family *)

Definition quoteBestExactIn (params : QuoteParams) : Result LiveQuote :=
  let dex :=
    match dex params with
    | Some d => d
    | None => match DEFAULT_V3_QUOTER w with
              | EmptyString => dex_pcs_v2
              | _ => dex_pcs_v3
              end
    end in
  match dex with
  | dex_pcs_v3 => quotePcsV3BestExactIn params
  | dex_pcs_v2 => quotePcsV2BestExactIn params
  end.

(** [{ ...params, allowMultiHop: params.allowMultiHop ?? true,
       allowSplitRouting: false }] *)
Definition pancakeV2Params (params : QuoteParams) : QuoteParams :=
  {| dex := dex params; fromSymbol := fromSymbol params;
     toSymbol := toSymbol params; amountInUnits := amountInUnits params;
     allowMultiHop := Some (default true (allowMultiHop params));
     allowSplitRouting := Some false;
     maxHops := maxHops params; feeTiers := feeTiers params;
     quoterAddress := quoterAddress params |}.

(** [{ ...params, allowMultiHop: params.allowMultiHop ?? true }] *)
Definition pancakeV3Params (params : QuoteParams) : QuoteParams :=
  {| dex := dex params; fromSymbol := fromSymbol params;
     toSymbol := toSymbol params; amountInUnits := amountInUnits params;
     allowMultiHop := Some (default true (allowMultiHop params));
     allowSplitRouting := allowSplitRouting params;
     maxHops := maxHops params; feeTiers := feeTiers params;
     quoterAddress := quoterAddress params |}.

(** The selection of [quotePancakeBest] on the two settled promises. *)
Definition pancakeSelect (q2 q3 : Result LiveQuote) : Result LiveQuote :=
  match q2, q3 with
  | Err _, Err _ => Err NoPancakeRoute
  | Ok ok2, Err _ => Ok (withProvider ok2 pcs_v2)
  | Err _, Ok ok3 => Ok (withProvider ok3 pcs_v3)
  | Ok ok2, Ok ok3 =>
      let a2 := amountOutRaw ok2 in
      let a3 := amountOutRaw ok3 in
      if a3 >? a2 then Ok (withProvider ok3 pcs_v3)
      else Ok (withProvider ok2 pcs_v2)
  end.

Definition quotePancakeBest (params : QuoteParams) : Result LiveQuote :=
  pancakeSelect (quotePcsV2BestExactIn (pancakeV2Params params))
                (quotePcsV3BestExactIn (pancakeV3Params params)).

(** *** What one invocation computes on the way

    The intermediate values of the two quoters, read off the definitions
    above in a shape common to both venue families. *)

Definition quoteOnDex (d : DexVersion) (params : QuoteParams) : Result LiveQuote :=
  match d with
  | dex_pcs_v2 => quotePcsV2BestExactIn params
  | dex_pcs_v3 => quotePcsV3BestExactIn params
  end.

Definition noRouteError (d : DexVersion) : QuoteError :=
  match d with dex_pcs_v2 => NoV2Route | dex_pcs_v3 => NoV3Route end.

(** A candidate with the output the venue gave it at the full input
    ([0] for a failed evaluation); [c_fees] is empty on v2. *)
Record Candidate : Type := {
  c_tokens : list string;
  c_fees : list Z;
  c_out : Z;
}.

Definition c_hops (c : Candidate) : nat := (length (c_tokens c) - 1)%nat.

Definition candidateOfV2 (r : V2Route) : Candidate :=
  {| c_tokens := v2_path r; c_fees := []; c_out := v2_out r |}.

Definition candidateOfV3 (r : V3Ranked) : Candidate :=
  {| c_tokens := v3_tokens (v3_r r); c_fees := v3_fees (v3_r r); c_out := v3_out r |}.

Definition resultToOption {A} (r : Result A) : option A :=
  match r with Ok a => Some a | Err _ => None end.

(** The candidates in enumeration order, each with its evaluation. *)
Definition evaluations (d : DexVersion) (params : QuoteParams) : option (list Candidate) :=
  match d with
  | dex_pcs_v2 =>
      rq ← resultToOption (v2Setup params);
      Some ((fun path =>
               {| c_tokens := path; c_fees := [];
                  c_out := evaluatePathOut path (rq_amountInRaw rq) |})
              <$> v2Candidates params rq)
  | dex_pcs_v3 =>
      qr ← resultToOption (v3Setup params);
      Some ((fun r =>
               {| c_tokens := v3_tokens r; c_fees := v3_fees r;
                  c_out := default 0 (resultToOption
                                        (evalRoute qr.1 (rq_amountInRaw qr.2) r)) |})
              <$> v3Candidates params qr.2)
  end.

(** The ranked list [ranked] of the invocation. *)
Definition rankedRoutes (d : DexVersion) (params : QuoteParams) : option (list Candidate) :=
  match d with
  | dex_pcs_v2 =>
      rq ← resultToOption (v2Setup params);
      Some (candidateOfV2 <$> v2Ranked (v2Candidates params rq) (rq_amountInRaw rq))
  | dex_pcs_v3 =>
      qr ← resultToOption (v3Setup params);
      Some (candidateOfV3
              <$> v3Ranked qr.1 (rq_amountInRaw qr.2) (v3Candidates params qr.2))
  end.

(** The raw input of the invocation. *)
Definition requestedAmountInRaw (d : DexVersion) (params : QuoteParams) : option Z :=
  match d with
  | dex_pcs_v2 => rq_amountInRaw <$> resultToOption (v2Setup params)
  | dex_pcs_v3 => (fun qr => rq_amountInRaw qr.2) <$> resultToOption (v3Setup params)
  end.

(** The two legs of the split search: the output of each of the two best
    routes as a function of the input sent through it.  Defined when the
    invocation has at least two ranked routes. *)
Definition splitLegs (d : DexVersion) (params : QuoteParams)
    : option ((Z -> Z) * (Z -> Z)) :=
  match d with
  | dex_pcs_v2 =>
      rq ← resultToOption (v2Setup params);
      match v2Ranked (v2Candidates params rq) (rq_amountInRaw rq) with
      | r1 :: r2 :: _ =>
          Some (evaluatePathOut (v2_path r1), evaluatePathOut (v2_path r2))
      | _ => None
      end
  | dex_pcs_v3 =>
      qr ← resultToOption (v3Setup params);
      match v3Ranked qr.1 (rq_amountInRaw qr.2) (v3Candidates params qr.2) with
      | x :: y :: _ =>
          leg1 ← resultToOption (v3SplitLeg qr.1 (v3_r x));
          leg2 ← resultToOption (v3SplitLeg qr.1 (v3_r y));
          Some (leg1, leg2)
      | _ => None
      end
  end.

End Quoters.

(** The largest combined output over the grid of split percentages (and 0,
    the value the search starts from). *)
Definition gridBest (eval1 eval2 : Z -> Z) (amountInRaw : Z) : Z :=
  foldr Z.max 0 (splitTotal eval1 eval2 amountInRaw <$> splitPercents).

(** Two adjacent entries of a path that name the same asset. *)
Fixpoint hasConsecutiveDuplicate (p : list string) : bool :=
  match p with
  | a :: (b :: _) as r => sameAddress a b || hasConsecutiveDuplicate r
  | _ => false
  end.

(** ** The path format of the specification

    Modelled from the spec: the decoder of the concentrated-liquidity path
    format.  The module under [src/] only encodes; the specification asks
    for the inverse of the byte layout
    [asset0 | fee0 | asset1 | fee1 | asset2 | ...] with 20-byte assets and
    3-byte fees, here on the hexadecimal text the encoder produces. *)

Module PathFormat.

Fixpoint splitAt (n : nat) (s : string) : option (string * string) :=
  match n with
  | O => Some (EmptyString, s)
  | S k =>
      match s with
      | EmptyString => None
      | String c r => ab ← splitAt k r; Some (String c ab.1, ab.2)
      end
  end.

Definition hexValue (c : ascii) : option N :=
  let n := N_of_ascii c in
  if ((48 <=? n) && (n <=? 57))%N then Some (n - 48)%N
  else if ((97 <=? n) && (n <=? 102))%N then Some (n - 87)%N
  else if ((65 <=? n) && (n <=? 70))%N then Some (n - 55)%N
  else None.

Fixpoint parseHexFrom (acc : N) (s : string) : option N :=
  match s with
  | EmptyString => Some acc
  | String c r => d ← hexValue c; parseHexFrom (acc * 16 + d) r
  end.

Definition parseHex (s : string) : option N := parseHexFrom 0 s.

(** The hops after the first asset: a 3-byte fee and a 20-byte asset each. *)
Fixpoint decodeHops (fuel : nat) (s : string) : option (list (Z * string)) :=
  match s with
  | EmptyString => Some []
  | _ =>
      match fuel with
      | O => None
      | S fuel' =>
          fr ← splitAt 6 s;
          fee ← parseHex fr.1;
          tr ← splitAt 40 fr.2;
          if Js.allChars Js.isHexChar tr.1 then
            hops ← decodeHops fuel' tr.2;
            Some ((Z.of_N fee, "0x" +:+ tr.1) :: hops)
          else None
      end
  end.

Definition decodeV3Path (hex : string) : option (list string * list Z) :=
  match hex with
  | String "0" (String "x" body) =>
      tr ← splitAt 40 body;
      if Js.allChars Js.isHexChar tr.1 then
        hops ← decodeHops (String.length tr.2) tr.2;
        Some (("0x" +:+ tr.1) :: (snd <$> hops), fst <$> hops)
      else None
  | _ => None
  end.

(** The layout in the words of the specification:
    [asset0 | fee0 | asset1 | fee1 | asset2 | ...]. *)
Fixpoint hopsLayout (fees : list Z) (assets : list string) : string :=
  match fees, assets with
  | fee :: fees', asset :: assets' =>
      feeHex fee +:+ tokenHex asset +:+ hopsLayout fees' assets'
  | _, _ => EmptyString
  end.

Definition pathLayout (tokens : list string) (fees : list Z) : string :=
  match tokens with
  | asset0 :: assets => "0x" +:+ tokenHex asset0 +:+ hopsLayout fees assets
  | [] => "0x"
  end.

(** A 24-bit fee. *)
Definition isUint24 (fee : Z) : Prop := 0 <= fee < 2 ^ 24.

End PathFormat.

(** ** Slippage floor and swap cost *)

(** [Number.isFinite(x)] *)
Definition isFinite (x : float) : bool :=
  match Prim2SF x with
  | S754_zero _ | S754_finite _ _ _ => true
  | _ => false
  end.

(** [BigInt(Math.floor(x))]; [None] is the RangeError on a non-finite [x]. *)
Definition bigIntFloor (x : float) : option Z :=
  match Prim2SF x with
  | S754_zero _ => Some 0
  | S754_finite s m e => Some (Z.shiftl (if s then Z.neg m else Z.pos m) e)
  | _ => None
  end.

Definition slippageDenom : Z := 1000000.

(** [denom - BigInt(Math.floor((slip / 100) * Number(denom)))] *)
Definition slippageFactor (slip : float) : option Z :=
  k ← bigIntFloor ((slip / 100) * 1000000)%float;
  Some (slippageDenom - k).

(** [(outRaw * factor) / denom] *)
Definition slippageMinRaw (slip : float) (outRaw : Z) : option Z :=
  factor ← slippageFactor slip;
  Some (Z.quot (outRaw * factor) slippageDenom).

Definition withAmountOutMin (q : LiveQuote) (m : string) : LiveQuote :=
  {| amountIn := amountIn q; amountOut := amountOut q;
     amountOutMin := Some m;
     amountInRaw := amountInRaw q; amountOutRaw := amountOutRaw q;
     from := from q; to := to q;
     path := path q; pathSymbols := pathSymbols q;
     v3FeesBpsPerHop := v3FeesBpsPerHop q;
     isSplit := isSplit q; parts := parts q;
     provider := provider q;
     estimatedGasUnits := estimatedGasUnits q;
     tradingFeeBpsApprox := tradingFeeBpsApprox q |}.

Definition withPathSymbols (q : LiveQuote) (ps : list string) : LiveQuote :=
  {| amountIn := amountIn q; amountOut := amountOut q;
     amountOutMin := amountOutMin q;
     amountInRaw := amountInRaw q; amountOutRaw := amountOutRaw q;
     from := from q; to := to q;
     path := path q; pathSymbols := Some ps;
     v3FeesBpsPerHop := v3FeesBpsPerHop q;
     isSplit := isSplit q; parts := parts q;
     provider := provider q;
     estimatedGasUnits := estimatedGasUnits q;
     tradingFeeBpsApprox := tradingFeeBpsApprox q |}.

Inductive QuoteEngine : Type := engine_oneinch | engine_pcs.

Record SimulateParams : Type := {
  quoteParams : QuoteParams;
  bnbPriceUSD : option float;
  slippagePercent : option float;
  engine : option QuoteEngine;
}.

Record SwapCostNow : Type := {
  quote : LiveQuote;
  gasPriceGwei : float;
  gasLimit : Z;
  txCostBNB : float;
  txCostUSD : option float;
}.

Definition estimateSwapGasLimitByHops (pathLength : Z) : Z :=
  if pathLength <=? 2 then 140000 else 140000 + (pathLength - 2) * 60000.

Section Simulation.
Context (w : World).

(** [Number(slippagePercent ?? (process.env.SERVER_DEFAULT_SLIPPAGE_PERCENT ?? 0))] *)
Definition slippageOf (slippagePercent : option float) : float :=
  match slippagePercent with
  | Some s => s
  | None =>
      match env w !! "SERVER_DEFAULT_SLIPPAGE_PERCENT" with
      | Some v => numberOfString w v
      | None => 0%float
      end
  end.

Definition extractPathSymbolsFromProtocols
    (protocols : option (list (list (option string)))) (fromSym : string)
    : option (list string) :=
  match protocols with
  | Some (route :: _) =>
      let symbols := fromSym :: omap (fmap Js.toUpperCase) route in
      if (2 <=? length symbols)%nat then Some symbols else None
  | _ => None
  end.

Definition approxTradingFeeBpsFromProtocols
    (protocols : option (list (list (option string)))) : option Z :=
  match protocols with
  | Some (route :: _) => Some (Z.max 1 (Z.of_nat (length route)) * 25)
  | _ => None
  end.

Definition quoteWithOneInchExactIn (params : QuoteParams)
    (slippagePercent : option float) : Result LiveQuote :=
  if negb (providerAvailable w) then Err ProviderUnavailable else
  rq <- resolveRequest w params ;;
  match requestOneInchQuote w (rq_fromAddr rq) (rq_toAddr rq) (rq_amountInRaw rq) with
  | None => Err OneInchRequest
  | Some res =>
      let outRaw := toTokenAmount res in
      if outRaw <=? 0 then Err NoOneInchRoute else
      let quote0 :=
        {| amountIn := formatUnits w (rq_amountInRaw rq) (rq_fromDecimals rq);
           amountOut := formatUnits w outRaw (rq_toDecimals rq);
           amountOutMin := None;
           amountInRaw := rq_amountInRaw rq;
           amountOutRaw := outRaw;
           from := tokenInfo (rq_fromSymbol rq) (rq_fromAddr rq) (rq_fromDecimals rq);
           to := tokenInfo (rq_toSymbol rq) (rq_toAddr rq) (rq_toDecimals rq);
           path := None; pathSymbols := None; v3FeesBpsPerHop := None;
           isSplit := false; parts := None;
           provider := Some oneinch;
           estimatedGasUnits :=
             match estimatedGas res with
             | Some g => if 0 <? g then Some g else None
             | None => None
             end;
           tradingFeeBpsApprox := approxTradingFeeBpsFromProtocols (protocols res) |} in
      let slip := slippageOf slippagePercent in
      quote1 <-
        (if isFinite slip && (0 <? slip)%float then
           match slippageMinRaw slip outRaw with
           | Some minRaw =>
               Ok (withAmountOutMin quote0 (formatUnits w minRaw (rq_toDecimals rq)))
           | None => Err BigIntRange
           end
         else Ok quote0) ;;
      match extractPathSymbolsFromProtocols (protocols res) (rq_fromSymbol rq) with
      | Some ps => Ok (withPathSymbols quote1 ps)
      | None => Ok quote1
      end
  end.

(** The closing block of [simulateSwapCostNow]: the slippage floor of the
    quote it is about to return; a failure inside is swallowed. *)
Definition applySlippage (slippagePercent : option float) (quote : LiveQuote)
    : LiveQuote :=
  let slip := slippageOf slippagePercent in
  if isFinite slip && (0 <? slip)%float then
    match slippageMinRaw slip (amountOutRaw quote) with
    | Some minRaw =>
        withAmountOutMin quote
          (formatUnits w minRaw (default 18 (decimals (to quote))))
    | None => quote
    end
  else quote.

Definition floatOfZ (n : Z) : float := PrimFloat.of_uint63 (Uint63.of_Z n).

Definition simulateSwapCostNow (params : SimulateParams) : Result SwapCostNow :=
  quote <-
    (match default engine_oneinch (engine params) with
     | engine_oneinch =>
         quoteWithOneInchExactIn (quoteParams params) (slippagePercent params)
     | engine_pcs => quoteBestExactIn w (quoteParams params)
     end) ;;
  match fetchGasPriceNow w with
  | None => Err GasPriceUnavailable
  | Some gwei =>
      let gasLimit :=
        match provider quote with
        | Some oneinch => 180000
        | _ =>
            match isSplit quote, parts quote with
            | true, Some (p :: ps) =>
                foldl Z.add 0
                  ((fun p => estimateSwapGasLimitByHops (Z.of_nat (length (part_path p))))
                     <$> (p :: ps))
            | _, _ =>
                estimateSwapGasLimitByHops
                  (match path quote with
                   | Some l => Z.of_nat (length l)
                   | None => 2
                   end)
            end
        end in
      let txCostBNB := (gwei * floatOfZ gasLimit / 1000000000)%float in
      Ok {| quote := applySlippage (slippagePercent params) quote;
            gasPriceGwei := gwei;
            gasLimit := gasLimit;
            txCostBNB := txCostBNB;
            txCostUSD :=
              match bnbPriceUSD params with
              | Some price =>
                  if (0 <? price)%float then Some (txCostBNB * price)%float else None
              | None => None
              end |}
  end.

End Simulation.

(** ** Further functions of the module and of its callers *)

(** The stable-coin set of [estimateSwapFeesBps]; [inStableSet] is
    [stableSet.has]. *)
Definition stableSet : list string := ["BUSD"; "USDT"; "USDC"].

Definition inStableSet (s : string) : bool := existsb (String.eqb s) stableSet.

Definition estimateSwapFeesBps (fromSymbol toSymbol : string) : Z :=
  let a := Js.toUpperCase fromSymbol in
  let b := Js.toUpperCase toSymbol in
  if (a =? b)%string then 0
  else
    let singleHopBps := 25 in
    let doubleHopBps := 50 in
    if inStableSet a && inStableSet b then singleHopBps else doubleHopBps.

(** [fetchTokenDecimals] with its cache made explicit: the cache before the
    call goes in, the result and the cache after the call come out.
    [erc20Decimals token] is the answer of the contract call, [None] when
    it throws, times out or is not a finite number. *)
Definition fetchTokenDecimalsCached (w : World) (erc20Decimals : string -> option Z)
    (decimalsCache : gmap string Z) (token : string) : Z * gmap string Z :=
  let key := Js.toLowerCase token in
  match decimalsCache !! key with
  | Some d => (d, decimalsCache)
  | None =>
      if (key =? Js.toLowerCase (DEFAULT_WBNB w))%string
      then (18, <[key := 18]> decimalsCache)
      else
        match erc20Decimals token with
        | Some d => (d, <[key := d]> decimalsCache)
        | None => (18, <[key := 18]> decimalsCache)
        end
  end.

(** The gas limit [simulateSwapCostNow] derives from the quote it got. *)
Definition swapGasLimit (quote : LiveQuote) : Z :=
  match provider quote with
  | Some oneinch => 180000
  | _ =>
      match isSplit quote, parts quote with
      | true, Some (p :: ps) =>
          foldl Z.add 0
            ((fun p => estimateSwapGasLimitByHops (Z.of_nat (length (part_path p))))
               <$> (p :: ps))
      | _, _ =>
          estimateSwapGasLimitByHops
            (match path quote with
             | Some l => Z.of_nat (length l)
             | None => 2
             end)
      end
  end.

(** The hop count the [quote-swap] command reads off a quote. *)
Definition quoteSwapHops (quote : LiveQuote) : Z :=
  match path quote with
  | Some (x :: l) => Z.max 1 (Z.of_nat (length (x :: l)) - 1)
  | _ =>
      match v3FeesBpsPerHop quote with
      | Some (f :: fs) => Z.of_nat (length (f :: fs))
      | _ => 1
      end
  end.

(** [estimateSwapGasLimitByHops(hops + 1)] of the [quote-swap] command. *)
Definition quoteSwapGasLimit (quote : LiveQuote) : Z :=
  estimateSwapGasLimitByHops (quoteSwapHops quote + 1).

(** The hop count and the trading fee the simulation loop reads off a live
    quote. *)
Definition simulationHops (liveQuote : LiveQuote) : Z :=
  match v3FeesBpsPerHop liveQuote with
  | Some (f :: fs) => Z.of_nat (length (f :: fs))
  | _ =>
      Z.max 1 ((match path liveQuote with
                | Some l => Z.of_nat (length l)
                | None => 2
                end) - 1)
  end.

Definition simulationTradingFeeBps (liveQuote : LiveQuote) : Z :=
  match v3FeesBpsPerHop liveQuote with
  | Some (f :: fs) => foldl Z.add 0 (f :: fs)
  | _ => Z.min 1000 (simulationHops liveQuote * 25)
  end.

(** The shape every candidate path of a request has. *)
Definition pathFromTo (fromAddr toAddr : string) (p : list string) : Prop :=
  head p = Some fromAddr
  /\ (exists l : string, last p = Some l /\ sameAddress l toAddr = true)
  /\ (2 <= length p)%nat.

(** The shape of a v2 candidate: within the hop bound when multi-hop is
    on, the direct pair when it is off. *)
Definition v2Shape (fromAddr toAddr : string) (amh : bool) (mh : Z)
    (p : list string) : Prop :=
  pathFromTo fromAddr toAddr p
  /\ (if amh then Z.of_nat (length p) <= mh else p = [fromAddr; toAddr]).

(** The shape of a v3 route: a candidate path with one fee tier per hop. *)
Definition v3Shape (fromAddr toAddr : string) (amh : bool) (mh : Z)
    (tiers : list Z) (r : V3Route) : Prop :=
  pathFromTo fromAddr toAddr (v3_tokens r)
  /\ length (v3_fees r) = (length (v3_tokens r) - 1)%nat
  /\ Forall (fun fee => fee ∈ tiers) (v3_fees r)
  /\ (if amh then Z.of_nat (length (v3_tokens r)) <= mh
      else v3_tokens r = [fromAddr; toAddr]).

(** What an unsplit quote of the family [d] over the ranked route [r1]
    looks like. *)
Definition singleQuoteShape (d : DexVersion) (a : Z) (r1 : Candidate)
    (q : LiveQuote) : Prop :=
  isSplit q = false /\ parts q = None /\ amountOutMin q = None
  /\ amountInRaw q = a /\ amountOutRaw q = c_out r1
  /\ path q = Some (c_tokens r1)
  /\ match d with
     | dex_pcs_v2 =>
         v3FeesBpsPerHop q = None /\ provider q = Some pcs_v2
         /\ tradingFeeBpsApprox q
            = Some (Z.max 25 ((Z.of_nat (length (c_tokens r1)) - 1) * 25))
     | dex_pcs_v3 =>
         v3FeesBpsPerHop q = Some (c_fees r1) /\ provider q = None
         /\ tradingFeeBpsApprox q = None
     end.

(** What a split quote over the ranked routes [r1], [r2] looks like, [s]
    being the result of the split search. *)
Definition splitQuoteShape (a : Z) (r1 r2 : Candidate) (s : SplitSearch)
    (q : LiveQuote) : Prop :=
  isSplit q = true /\ path q = None /\ v3FeesBpsPerHop q = None
  /\ provider q = None /\ amountOutMin q = None /\ tradingFeeBpsApprox q = None
  /\ amountInRaw q = a /\ amountOutRaw q = bestOut1 s + bestOut2 s
  /\ exists partA partB : SplitQuotePart,
       parts q = Some [partA; partB]
       /\ part_path partA = c_tokens r1 /\ part_path partB = c_tokens r2
       /\ part_amountInRaw partA = splitIn1 a (bestPercentToR1 s)
       /\ part_amountInRaw partB = splitIn2 a (bestPercentToR1 s)
       /\ part_amountOutRaw partA = bestOut1 s
       /\ part_amountOutRaw partB = bestOut2 s.

(** A strictly increasing list. *)
Fixpoint increasing (l : list Z) : Prop :=
  match l with
  | [] => True
  | x :: r => Forall (fun y => x < y) r /\ increasing r
  end.


(** Characters below 128: on text made of them the case conversions of
    [Js] are those of JavaScript. *)
Definition isAsciiChar (c : ascii) : bool := (N_of_ascii c <? 128)%N.

Definition isAsciiText (s : string) : bool := Js.allChars isAsciiChar s.




(** [leg] is the venue's own quote of the ranked route [r] as a function of
    the input sent through it: the router's answer for the path on v2; on
    v3 the quoter's single-hop call for a route of two tokens and its
    path call on the encoded path for a longer one. *)
Definition venueLeg (w : World) (d : DexVersion) (params : QuoteParams)
    (r : Candidate) (leg : Z -> Z) : Prop :=
  match d with
  | dex_pcs_v2 => leg = evaluatePathOut w (c_tokens r)
  | dex_pcs_v3 =>
      exists quoter : string,
        getV3Quoter w (quoterAddress params) = Some quoter
        /\ ((exists (tokenIn tokenOut : string) (fee : Z),
               c_tokens r = [tokenIn; tokenOut] /\ c_fees r = [fee]
               /\ leg = quoteV3ExactInputSingle w quoter tokenIn tokenOut fee)
            \/ (length (c_tokens r) <> 2%nat
                /\ exists pathBytes : string,
                     encodeV3Path (c_tokens r) (c_fees r) = Ok pathBytes
                     /\ leg = quoteV3ExactInput w quoter pathBytes))
  end.

(** ** Auxiliary definitions of the proofs *)

(** [uniqueAddresses] after its first entry: [prev] is the entry of the
    input that precedes [l]. *)
Fixpoint dedupAfter (prev : string) (l : list string) : list string :=
  match l with
  | [] => []
  | x :: r => if sameAddress x prev then dedupAfter x r else x :: dedupAfter x r
  end.

(** The ordering in the words of the specification: by output descending,
    ties broken by preferring fewer hops. *)
Definition rankedByOutputThenHops (ranked : list Candidate) : Prop :=
  forall (i j : nat) (a b : Candidate),
    (i < j)%nat -> ranked !! i = Some a -> ranked !! j = Some b ->
    c_out b < c_out a \/ (c_out a = c_out b /\ (c_hops a <= c_hops b)%nat).

(** The evaluated candidates that enter the ranking. *)
Definition viable (evals : list Candidate) : list Candidate :=
  filter (fun c => c_out c <> 0) evals.

(** Every later entry has an output no larger than an earlier one. *)
Fixpoint descending {A} (out : A -> Z) (l : list A) : Prop :=
  match l with
  | [] => True
  | x :: r => Forall (fun y => out y <= out x) r /\ descending out r
  end.

(** ** Concrete worlds and requests *)

Module Examples.

Definition USDT : string := "0x55d398326f99059fF775485246999027B3197955".
Definition WBNB : string := "0xBB4CdB9CBd36B01bD1cBaEBF2De08d9173bc095c".

(** A world with an empty environment whose venues answer through [v2]
    (router) and [single] (quoter, single-hop call); every amount parses
    to 1000 raw units. *)
Definition world (v2 : Z -> list string -> option N)
    (single : string -> string -> Z -> Z -> option N) : World :=
  {| env := ∅;
     providerAvailable := true;
     DEFAULT_V3_FEE_TIERS := [100; 500; 2500; 10000];
     fetchTokenDecimals := fun _ => 18;
     parseUnits := fun _ _ => Some 1000;
     formatUnits := fun _ _ => "";
     numberOfString := fun _ => 0%float;
     requestOneInchQuote := fun _ _ _ => None;
     fetchGasPriceNow := Some 3%float;
     getAmountsOut := v2;
     quoteExactInputStatic := fun _ _ _ => None;
     quoteExactInputCall := fun _ _ _ => None;
     quoteExactInputSingleLegacy := fun _ => single;
     quoteExactInputSingleStruct := fun _ _ _ _ _ => None |}.

(** Every route returns 5. *)
Definition flatWorld : World :=
  world (fun _ _ => Some 5%N) (fun _ _ _ _ => Some 5%N).

(** The direct v2 path and the lowest v3 fee tier saturate at 600, every
    other route at 500. *)
Definition cappedWorld : World :=
  world (fun a p => Some (Z.to_N (Z.min a (if (length p =? 2)%nat then 600 else 500))))
        (fun _ _ fee a => Some (Z.to_N (Z.min a (if fee =? 100 then 600 else 500)))).

(** The v2 venue answers [out2] and the v3 venue [out3] on every route. *)
Definition twoVenueWorld (out2 out3 : N) : World :=
  world (fun _ _ => Some out2) (fun _ _ _ _ => Some out3).

Definition request (fromSym toSym : string) (multiHop split : bool) : QuoteParams :=
  {| dex := None; fromSymbol := fromSym; toSymbol := toSym;
     amountInUnits := 1000%float;
     allowMultiHop := Some multiHop; allowSplitRouting := Some split;
     maxHops := None; feeTiers := None; quoterAddress := None |}.

(** Fallbacks for reading a value out of an optional result. *)
Definition noToken : TokenInfo := {| symbol := ""; address := ""; decimals := None |}.

Definition noQuote : LiveQuote :=
  {| amountIn := ""; amountOut := ""; amountOutMin := None;
     amountInRaw := 0; amountOutRaw := 0; from := noToken; to := noToken;
     path := None; pathSymbols := None; v3FeesBpsPerHop := None;
     isSplit := false; parts := None; provider := None;
     estimatedGasUnits := None; tradingFeeBpsApprox := None |}.

Definition noCandidate : Candidate := {| c_tokens := []; c_fees := []; c_out := 0 |}.

Definition quoteOf (r : Result LiveQuote) : LiveQuote :=
  default noQuote (resultToOption r).

Definition rankedOf (o : option (list Candidate)) (i : nat) : Candidate :=
  default noCandidate (default [] o !! i).

End Examples.

(** ** Further worlds and requests *)

Module Scenarios.

(** [Examples.flatWorld] with a 1inch reply of 990 raw units over two
    hops. *)
Definition oneInchWorld : World :=
  {| env := ∅;
     providerAvailable := true;
     DEFAULT_V3_FEE_TIERS := [100; 500; 2500; 10000];
     fetchTokenDecimals := fun _ => 18;
     parseUnits := fun _ _ => Some 1000;
     formatUnits := fun _ _ => "";
     numberOfString := fun _ => 0%float;
     requestOneInchQuote :=
       fun _ _ _ => Some {| toTokenAmount := 990;
                            estimatedGas := Some 150000;
                            protocols := Some [[Some "wbnb"; Some "cake"]] |};
     fetchGasPriceNow := Some 3%float;
     getAmountsOut := fun _ _ => Some 5%N;
     quoteExactInputStatic := fun _ _ _ => None;
     quoteExactInputCall := fun _ _ _ => None;
     quoteExactInputSingleLegacy := fun _ _ _ _ _ => Some 5%N;
     quoteExactInputSingleStruct := fun _ _ _ _ _ => None |}.

(** No venue answers. *)
Definition silentWorld : World :=
  Examples.world (fun _ _ => None) (fun _ _ _ _ => None).

(** A simulation request without slippage and without a BNB price. *)
Definition simulation (params : QuoteParams) (e : option QuoteEngine) : SimulateParams :=
  {| quoteParams := params; bnbPriceUSD := None; slippagePercent := None; engine := e |}.

Definition noSwapCost : SwapCostNow :=
  {| quote := Examples.noQuote; gasPriceGwei := 0%float; gasLimit := 0;
     txCostBNB := 0%float; txCostUSD := None |}.

Definition swapCostOf (r : Result SwapCostNow) : SwapCostNow :=
  default noSwapCost (resultToOption r).

Definition evaluationsOf (o : option (list Candidate)) : list Candidate := default [] o.

End Scenarios.

(** * Properties *)

(** ** Lists and strings *)

Lemma foldl_invariant_in {A B} (P : A -> Prop) (f : A -> B -> A) (l : list B) (a : A) :
  P a -> (forall a b, b ∈ l -> P a -> P (f a b)) -> P (foldl f a l).
Proof.
  revert a.
  induction l as [|b l IH]; intros a Ha Hstep; simpl; [exact Ha|].
  apply IH.
  - apply Hstep; [left|exact Ha].
  - intros a' b' Hb'. apply Hstep. right. exact Hb'.
Qed.

Lemma foldl_invariant {A B} (P : A -> Prop) (f : A -> B -> A) (l : list B) (a : A) :
  P a -> (forall a b, P a -> P (f a b)) -> P (foldl f a l).
Proof.
  intros Ha Hstep. apply foldl_invariant_in; [exact Ha|].
  intros a' b _. apply Hstep.
Qed.

Lemma sameAddress_true a b :
  sameAddress a b = true <-> Js.toLowerCase a = Js.toLowerCase b.
Proof. unfold sameAddress. apply String.eqb_eq. Qed.

Lemma sameAddress_false a b :
  sameAddress a b = false <-> Js.toLowerCase a <> Js.toLowerCase b.
Proof. unfold sameAddress. apply String.eqb_neq. Qed.

Lemma sameAddress_refl a : sameAddress a a = true.
Proof. apply sameAddress_true. reflexivity. Qed.

(** ** [uniqueAddresses] *)

Lemma filterIndexed_dedupAfter (l pre : list string) (prev : string) :
  filterIndexed
    (fun i addr =>
       (i =? 0)%nat
       || negb (sameAddress addr (default "" ((pre ++ prev :: l)%list !! (i - 1)%nat))))
    (S (length pre)) l
  = dedupAfter prev l.
Proof.
  revert pre prev.
  induction l as [|x r IH]; intros pre prev; simpl; [reflexivity|].
  rewrite Nat.sub_0_r.
  replace ((pre ++ prev :: x :: r)%list !! length pre) with (Some prev)
    by (symmetry; apply list_lookup_middle; reflexivity).
  simpl.
  specialize (IH (pre ++ [prev])%list x).
  rewrite length_app in IH. simpl in IH.
  rewrite Nat.add_1_r in IH.
  rewrite <- app_assoc in IH. simpl in IH.
  rewrite IH.
  destruct (sameAddress x prev); reflexivity.
Qed.

Lemma uniqueAddresses_cons (x : string) (r : list string) :
  uniqueAddresses (x :: r) = x :: dedupAfter x r.
Proof.
  unfold uniqueAddresses. simpl. f_equal.
  apply (filterIndexed_dedupAfter r [] x).
Qed.

Lemma dedupAfter_no_duplicate (r : list string) (prev x : string) :
  Js.toLowerCase x = Js.toLowerCase prev ->
  hasConsecutiveDuplicate (x :: dedupAfter prev r) = false.
Proof.
  revert prev x.
  induction r as [|y r IH]; intros prev x Hx; [reflexivity|].
  cbn [dedupAfter].
  destruct (sameAddress y prev) eqn:Hy.
  - apply IH. apply sameAddress_true in Hy. congruence.
  - change (sameAddress x y || hasConsecutiveDuplicate (y :: dedupAfter y r) = false).
    rewrite (IH y y eq_refl), orb_false_r.
    apply sameAddress_false. apply sameAddress_false in Hy. congruence.
Qed.

Lemma uniqueAddresses_no_duplicate (p : list string) :
  hasConsecutiveDuplicate (uniqueAddresses p) = false.
Proof.
  destruct p as [|x r]; [reflexivity|].
  rewrite uniqueAddresses_cons. apply dedupAfter_no_duplicate. reflexivity.
Qed.

Lemma hasConsecutiveDuplicate_lookup (p : list string) :
  hasConsecutiveDuplicate p = false ->
  forall (i : nat) (a b : string),
    p !! i = Some a -> p !! S i = Some b -> sameAddress a b = false.
Proof.
  induction p as [|x [|y r] IH]; intros H i a b Ha Hb; try discriminate.
  cbn [hasConsecutiveDuplicate] in H. apply orb_false_elim in H as [Hxy Hr].
  destruct i as [|i]; simpl in Ha, Hb.
  - congruence.
  - exact (IH Hr i a b Ha Hb).
Qed.

(** ** Enumeration of the candidates *)

Section Enumeration.
Context (w : World).

Lemma addPath_clean (amh : bool) (mh : Z) (c : list (list string)) (p : list string) :
  Forall (fun q => hasConsecutiveDuplicate q = false) c ->
  Forall (fun q => hasConsecutiveDuplicate q = false) (addPath amh mh c p).
Proof.
  intros Hc. unfold addPath.
  destruct (_ && _); [|exact Hc].
  apply Forall_app. split; [exact Hc|].
  constructor; [apply uniqueAddresses_no_duplicate|constructor].
Qed.

Lemma addPath_keeps (amh : bool) (mh : Z) (c : list (list string)) (p q : list string) :
  q ∈ c -> q ∈ addPath amh mh c p.
Proof.
  intros Hq. unfold addPath.
  destruct (_ && _); [|exact Hq].
  apply elem_of_app. left. exact Hq.
Qed.

Lemma v2CandidatePaths_clean (fromAddr toAddr : string) (amh : bool) (mh : Z) :
  Forall (fun q => hasConsecutiveDuplicate q = false)
         (v2CandidatePaths w fromAddr toAddr amh mh).
Proof.
  unfold v2CandidatePaths.
  assert (Hd : Forall (fun q => hasConsecutiveDuplicate q = false)
                      (addPath amh mh [] [fromAddr; toAddr]))
    by (apply addPath_clean; constructor).
  destruct amh; [|exact Hd].
  apply foldl_invariant.
  - apply foldl_invariant; [exact Hd|].
    intros c m Hc. apply addPath_clean, Hc.
  - intros c i Hc. apply foldl_invariant; [exact Hc|].
    intros c' j Hc'. destruct (i =? j)%nat; [exact Hc'|].
    apply addPath_clean, Hc'.
Qed.

Lemma v2CandidatePaths_direct (fromAddr toAddr : string) (amh : bool) (mh : Z) :
  [fromAddr; toAddr] ∈ addPath amh mh [] [fromAddr; toAddr] ->
  [fromAddr; toAddr] ∈ v2CandidatePaths w fromAddr toAddr amh mh.
Proof.
  intros Hd. unfold v2CandidatePaths.
  destruct amh; [|exact Hd].
  apply foldl_invariant.
  - apply foldl_invariant; [exact Hd|].
    intros c m Hc. apply addPath_keeps, Hc.
  - intros c i Hc. apply foldl_invariant; [exact Hc|].
    intros c' j Hc'. destruct (i =? j)%nat; [exact Hc'|].
    apply addPath_keeps, Hc'.
Qed.

Lemma addRoute_clean (amh : bool) (mh : Z) (tiers : list Z)
    (c : list V3Route) (p : list string) :
  Forall (fun r => hasConsecutiveDuplicate (v3_tokens r) = false) c ->
  Forall (fun r => hasConsecutiveDuplicate (v3_tokens r) = false)
         (addRoute amh mh tiers c p).
Proof.
  intros Hc. unfold addRoute.
  destruct (_ <? _)%nat; [exact Hc|].
  destruct (_ && _); [exact Hc|].
  destruct (_ && _); [exact Hc|].
  apply Forall_app. split; [exact Hc|].
  apply Forall_fmap, Forall_forall. intros fees _. simpl.
  apply uniqueAddresses_no_duplicate.
Qed.

Lemma v3Routes_clean (fromAddr toAddr : string) (amh : bool) (mh : Z) (tiers : list Z) :
  Forall (fun r => hasConsecutiveDuplicate (v3_tokens r) = false)
         (v3Routes w fromAddr toAddr amh mh tiers).
Proof.
  unfold v3Routes.
  assert (Hd : Forall (fun r => hasConsecutiveDuplicate (v3_tokens r) = false)
                      (addRoute amh mh tiers [] [fromAddr; toAddr]))
    by (apply addRoute_clean; constructor).
  destruct amh; [|exact Hd].
  apply foldl_invariant.
  - apply foldl_invariant; [exact Hd|].
    intros c m Hc. apply addRoute_clean, Hc.
  - intros c i Hc. apply foldl_invariant; [exact Hc|].
    intros c' j Hc'. destruct (i =? j)%nat; [exact Hc'|].
    apply addRoute_clean, Hc'.
Qed.

End Enumeration.

(** C9. Every enumerated v2 candidate path and every enumerated v3 route
    token sequence is free of two consecutive entries that are the same
    address after lower-casing: any two neighbours [a], [b] of such a path
    have [a.toLowerCase() !== b.toLowerCase()].  Degenerate inputs collapse,
    since each candidate is an output of [uniqueAddresses]. *)
Theorem enumerated_paths_have_no_consecutive_duplicates
    (w : World) (fromAddr toAddr : string) (allowMultiHop : bool) (maxHops : Z)
    (tiers : list Z) :
  Forall (fun p : list string =>
            forall (i : nat) (a b : string),
              p !! i = Some a -> p !! S i = Some b -> sameAddress a b = false)
         (v2CandidatePaths w fromAddr toAddr allowMultiHop maxHops)
  /\ Forall (fun r : V3Route =>
               forall (i : nat) (a b : string),
                 v3_tokens r !! i = Some a -> v3_tokens r !! S i = Some b ->
                 sameAddress a b = false)
            (v3Routes w fromAddr toAddr allowMultiHop maxHops tiers).
Proof.
  split.
  - eapply Forall_impl; [apply v2CandidatePaths_clean|].
    intros p Hp. exact (hasConsecutiveDuplicate_lookup p Hp).
  - eapply Forall_impl; [apply v3Routes_clean|].
    intros r Hr. exact (hasConsecutiveDuplicate_lookup _ Hr).
Qed.

(** ** The direct path *)

Lemma clampMaxHops_ge_2 (maxHops : option Z) : 2 <= clampMaxHops maxHops.
Proof. unfold clampMaxHops. lia. Qed.

Lemma uniqueAddresses_pair (a b : string) :
  sameAddress a b = false -> uniqueAddresses [a; b] = [a; b].
Proof.
  intros Hab. rewrite uniqueAddresses_cons. cbn [dedupAfter].
  replace (sameAddress b a) with false; [reflexivity|].
  symmetry. apply sameAddress_false. apply sameAddress_false in Hab. congruence.
Qed.

Lemma uniqueAddresses_pair_same (a b : string) :
  sameAddress a b = true -> uniqueAddresses [a; b] = [a].
Proof.
  intros Hab. rewrite uniqueAddresses_cons. cbn [dedupAfter].
  replace (sameAddress b a) with true; [reflexivity|].
  symmetry. apply sameAddress_true. apply sameAddress_true in Hab. congruence.
Qed.

Lemma v3Routes_direct (w : World) (fromAddr toAddr : string) (amh : bool) (mh : Z)
    (tiers : list Z) (r : V3Route) :
  r ∈ addRoute amh mh tiers [] [fromAddr; toAddr] ->
  r ∈ v3Routes w fromAddr toAddr amh mh tiers.
Proof.
  assert (Hkeep : forall c p, r ∈ c -> r ∈ addRoute amh mh tiers c p).
  { intros c p Hr. unfold addRoute.
    destruct (_ <? _)%nat; [exact Hr|].
    destruct (_ && _); [exact Hr|].
    destruct (_ && _); [exact Hr|].
    apply elem_of_app. left. exact Hr. }
  intros Hd. unfold v3Routes.
  destruct amh; [|exact Hd].
  apply foldl_invariant.
  - apply foldl_invariant; [exact Hd|].
    intros c m Hc. apply Hkeep, Hc.
  - intros c i Hc. apply foldl_invariant; [exact Hc|].
    intros c' j Hc'. destruct (i =? j)%nat; [exact Hc'|].
    apply Hkeep, Hc'.
Qed.

(** C4, as stated, fails: BNB and WBNB are different symbols of one
    address, the pair collapses to a single asset and no direct path is
    enumerated. *)
Lemma direct_path_absent_for_aliased_symbols :
  let w := Examples.flatWorld in
  let params := Examples.request "BNB" "WBNB" false false in
  fromSymbol params <> toSymbol params
  /\ exists rq : Request,
       v2Setup w params = Ok rq
       /\ rq_fromAddr rq = Examples.WBNB /\ rq_toAddr rq = Examples.WBNB
       /\ ~ [rq_fromAddr rq; rq_toAddr rq] ∈ v2Candidates w params rq.
Proof.
  split; [discriminate|].
  eexists. split; [vm_compute; reflexivity|].
  split; [reflexivity|]. split; [reflexivity|].
  vm_compute. intros H. inversion H.
Qed.

(** C4, amended. Whenever both symbols resolve and their addresses differ
    after lower-casing, the direct path [[fromAddr, toAddr]] is among the
    candidate paths of the v2 quoter, and the direct route is among the v3
    routes once for every fee tier in use -- for every value of
    [allowMultiHop] and [maxHops]. *)
Theorem direct_path_is_enumerated (w : World) (params : QuoteParams) (rq : Request) :
  resolveRequest w params = Ok rq ->
  sameAddress (rq_fromAddr rq) (rq_toAddr rq) = false ->
  [rq_fromAddr rq; rq_toAddr rq] ∈ v2Candidates w params rq
  /\ forall fee : Z,
       fee ∈ v3FeeTiers w params ->
       {| v3_tokens := [rq_fromAddr rq; rq_toAddr rq]; v3_fees := [fee] |}
         ∈ v3Candidates w params rq.
Proof.
  intros _ Hdiff.
  pose proof (clampMaxHops_ge_2 (maxHops params)) as Hmax.
  split.
  - apply v2CandidatePaths_direct.
    unfold addPath. rewrite (uniqueAddresses_pair _ _ Hdiff).
    cbn [length]. change (Z.of_nat 2) with 2.
    replace (2 <=? clampMaxHops (maxHops params)) with true
      by (symmetry; apply Z.leb_le; lia).
    destruct (negb _); apply list_elem_of_singleton; reflexivity.
  - intros fee Hfee. apply v3Routes_direct.
    unfold addRoute. rewrite (uniqueAddresses_pair _ _ Hdiff).
    cbn [length]. change (Z.of_nat 2) with 2.
    replace (clampMaxHops (maxHops params) <? 2) with false
      by (symmetry; apply Z.ltb_ge; lia).
    rewrite !andb_false_r. simpl.
    apply list_elem_of_fmap. exists [fee]. split; [reflexivity|].
    apply list_elem_of_bind. exists fee. split; [|exact Hfee].
    apply list_elem_of_singleton. reflexivity.
Qed.

Lemma direct_path_is_enumerated_witness :
  let w := Examples.flatWorld in
  let params := Examples.request "USDT" "BNB" true false in
  let rq := {| rq_fromSymbol := "USDT"; rq_toSymbol := "BNB";
               rq_fromAddr := Examples.USDT; rq_toAddr := Examples.WBNB;
               rq_fromDecimals := 18; rq_toDecimals := 18;
               rq_amountInRaw := 1000 |} in
  resolveRequest w params = Ok rq
  /\ sameAddress (rq_fromAddr rq) (rq_toAddr rq) = false
  /\ [rq_fromAddr rq; rq_toAddr rq] ∈ v2Candidates w params rq
  /\ forall fee : Z,
       fee ∈ v3FeeTiers w params ->
       {| v3_tokens := [rq_fromAddr rq; rq_toAddr rq]; v3_fees := [fee] |}
         ∈ v3Candidates w params rq.
Proof.
  intros w params rq.
  assert (H1 : resolveRequest w params = Ok rq) by (vm_compute; reflexivity).
  assert (H2 : sameAddress (rq_fromAddr rq) (rq_toAddr rq) = false)
    by (vm_compute; reflexivity).
  split; [exact H1|]. split; [exact H2|].
  exact (direct_path_is_enumerated w params rq H1 H2).
Defined.


(** ** The ranking *)

Section Ranking.
Context {A : Type} (out : A -> Z).

Lemma byOutDesc_le (a b : A) : byOutDesc out a b <= 0 <-> out b <= out a.
Proof.
  unfold byOutDesc.
  destruct (out a >? out b) eqn:Hgt; [lia|].
  destruct (out a <? out b) eqn:Hlt; lia.
Qed.

Lemma insertSorted_perm (cmp : A -> A -> Z) (x : A) (l : list A) :
  insertSorted cmp x l ≡ₚ x :: l.
Proof.
  induction l as [|y r IH]; simpl; [reflexivity|].
  destruct (cmp x y <=? 0); [reflexivity|].
  rewrite IH. apply Permutation_swap.
Qed.

Lemma jsSort_perm (cmp : A -> A -> Z) (l : list A) : jsSort cmp l ≡ₚ l.
Proof.
  induction l as [|x r IH]; simpl; [reflexivity|].
  rewrite insertSorted_perm. f_equiv. exact IH.
Qed.

Lemma insertSorted_descending (x : A) (l : list A) :
  descending out l -> descending out (insertSorted (byOutDesc out) x l).
Proof.
  induction l as [|y r IH]; intros Hl; simpl.
  - split; [constructor|exact I].
  - destruct Hl as [Hy Hr].
    destruct (byOutDesc out x y <=? 0) eqn:Hc.
    + apply Z.leb_le, byOutDesc_le in Hc.
      split; [|split; assumption].
      constructor; [exact Hc|].
      eapply Forall_impl; [exact Hy|]. intros z Hz. simpl in Hz. lia.
    + apply Z.leb_gt in Hc.
      assert (Hxy : out x <= out y).
      { destruct (Z.le_gt_cases (out y) (out x)) as [Hle|Hgt]; [|lia].
        apply byOutDesc_le in Hle. lia. }
      split; [|apply IH, Hr].
      rewrite insertSorted_perm. constructor; assumption.
Qed.

Lemma jsSort_descending (l : list A) : descending out (jsSort (byOutDesc out) l).
Proof.
  induction l as [|x r IH]; simpl; [exact I|].
  apply insertSorted_descending, IH.
Qed.

Lemma descending_lookup (l : list A) :
  descending out l ->
  forall (i j : nat) (a b : A),
    (i < j)%nat -> l !! i = Some a -> l !! j = Some b -> out b <= out a.
Proof.
  induction l as [|x r IH]; intros Hl i j a b Hij Ha Hb; [discriminate|].
  destruct Hl as [Hx Hr].
  destruct j as [|j]; [lia|]. simpl in Hb.
  destruct i as [|i]; simpl in Ha.
  - inversion Ha; subst a.
    rewrite Forall_forall in Hx. apply Hx.
    eapply list_elem_of_lookup_2. exact Hb.
  - apply (IH Hr i j a b); [lia|assumption..].
Qed.

(** Stability: among the entries of one output value the sort keeps the
    order of its input. *)
Lemma insertSorted_filter (v : Z) (x : A) (l : list A) :
  filter (fun c => out c = v) (insertSorted (byOutDesc out) x l)
  = filter (fun c => out c = v) (x :: l).
Proof.
  induction l as [|y r IH]; simpl; [reflexivity|].
  destruct (byOutDesc out x y <=? 0) eqn:Hc; [reflexivity|].
  apply Z.leb_gt in Hc.
  assert (Hxy : out x < out y).
  { destruct (Z.lt_ge_cases (out x) (out y)) as [Hlt|Hge]; [exact Hlt|].
    assert (out y <= out x) as Hle by lia. apply byOutDesc_le in Hle. lia. }
  rewrite (filter_cons _ y), IH, !filter_cons.
  destruct (decide (out y = v)), (decide (out x = v)); try reflexivity; lia.
Qed.

Lemma jsSort_filter (v : Z) (l : list A) :
  filter (fun c => out c = v) (jsSort (byOutDesc out) l)
  = filter (fun c => out c = v) l.
Proof.
  induction l as [|x r IH]; simpl; [reflexivity|].
  rewrite insertSorted_filter, !filter_cons, IH. reflexivity.
Qed.

End Ranking.

Lemma jsSort_fmap {A B} (f : A -> B) (outA : A -> Z) (outB : B -> Z) (l : list A) :
  (forall x, outB (f x) = outA x) ->
  jsSort (byOutDesc outB) (f <$> l) = f <$> jsSort (byOutDesc outA) l.
Proof.
  intros Hout.
  assert (Hins : forall x l',
             insertSorted (byOutDesc outB) (f x) (f <$> l')
             = f <$> insertSorted (byOutDesc outA) x l').
  { intros x l'. induction l' as [|y r IH]; simpl; [reflexivity|].
    unfold byOutDesc at 1 3. rewrite !Hout.
    fold (byOutDesc outA x y).
    destruct (byOutDesc outA x y <=? 0); simpl; [reflexivity|].
    f_equal. exact IH. }
  unfold jsSort.
  induction l as [|x r IH]; [reflexivity|].
  cbn [fmap list_fmap foldr].
  change (list_fmap A B f r) with (f <$> r).
  rewrite IH. apply Hins.
Qed.

Section RankedRoutes.
Context (w : World).

Lemma evaluatePathOut_nonneg (p : list string) (a : Z) : 0 <= evaluatePathOut w p a.
Proof. unfold evaluatePathOut. destruct (getAmountsOut w a p); lia. Qed.

Lemma quoteV3ExactInput_nonneg (quoter pathBytes : string) (a : Z) :
  0 <= quoteV3ExactInput w quoter pathBytes a.
Proof.
  unfold quoteV3ExactInput.
  destruct (quoteExactInputStatic w quoter pathBytes a); [lia|].
  destruct (quoteExactInputCall w quoter pathBytes a); lia.
Qed.

Lemma quoteV3ExactInputSingle_nonneg (quoter tin tout : string) (fee a : Z) :
  0 <= quoteV3ExactInputSingle w quoter tin tout fee a.
Proof.
  unfold quoteV3ExactInputSingle.
  destruct (quoteExactInputSingleLegacy w quoter tin tout fee a); [lia|].
  destruct (quoteExactInputSingleStruct w quoter tin tout fee a); lia.
Qed.

Lemma evalRoute_nonneg (quoter : string) (a : Z) (r : V3Route) (o : Z) :
  evalRoute w quoter a r = Ok o -> 0 <= o.
Proof.
  unfold evalRoute.
  destruct (length (v3_tokens r) =? 2)%nat;
    destruct (encodeV3Path (v3_tokens r) (v3_fees r)) as [pathBytes|e];
    simpl; intros H; inversion H; subst; clear H.
  - destruct (_ >? 0) eqn:Hm; [lia|]. apply quoteV3ExactInputSingle_nonneg.
  - apply quoteV3ExactInput_nonneg.
Qed.

Lemma v2Results_viable (cands : list (list string)) (a : Z) :
  candidateOfV2 <$> omap id (v2Results w cands a)
  = viable ((fun p => {| c_tokens := p; c_fees := [];
                         c_out := evaluatePathOut w p a |}) <$> cands).
Proof.
  unfold viable, v2Results.
  induction cands as [|p r IH]; [reflexivity|].
  cbn [fmap list_fmap omap list_omap]. rewrite filter_cons. cbn [c_out].
  destruct (Z.eqb_spec (evaluatePathOut w p a) 0) as [Hz|Hz].
  - rewrite decide_False by lia. exact IH.
  - rewrite decide_True by exact Hz.
    cbn [id fmap list_fmap]. f_equal. exact IH.
Qed.

Lemma v3Outputs_viable (quoter : string) (a : Z) (routes : list V3Route) :
  candidateOfV3 <$> omap id (v3Outputs w quoter a routes)
  = viable ((fun r => {| c_tokens := v3_tokens r; c_fees := v3_fees r;
                         c_out := default 0 (resultToOption (evalRoute w quoter a r)) |})
              <$> routes).
Proof.
  unfold viable, v3Outputs.
  induction routes as [|r rs IH]; [reflexivity|].
  cbn [fmap list_fmap omap list_omap]. rewrite filter_cons. cbn [c_out].
  destruct (evalRoute w quoter a r) as [o|e] eqn:He; cbn [resultToOption from_option id].
  - pose proof (evalRoute_nonneg _ _ _ _ He) as Hnn.
    destruct (Z.gtb_spec o 0) as [Hp|Hp].
    + rewrite decide_True by lia. cbn [id fmap list_fmap]. f_equal. exact IH.
    + rewrite decide_False by lia. exact IH.
  - rewrite decide_False by lia. exact IH.
Qed.

(** The ranked list is the stable sort of the viable evaluations. *)
Lemma rankedRoutes_sorted_viable (d : DexVersion) (params : QuoteParams) :
  rankedRoutes w d params
  = (fun evals => jsSort (byOutDesc c_out) (viable evals)) <$> evaluations w d params.
Proof.
  destruct d; unfold rankedRoutes, evaluations.
  - destruct (v2Setup w params) as [rq|e]; [|reflexivity].
    cbn [resultToOption mbind option_bind fmap option_fmap option_map]. f_equal.
    unfold v2Ranked. rewrite <- v2Results_viable.
    symmetry. apply jsSort_fmap. reflexivity.
  - destruct (v3Setup w params) as [qr|e]; [|reflexivity].
    cbn [resultToOption mbind option_bind fmap option_fmap option_map]. f_equal.
    unfold v3Ranked. rewrite <- v3Outputs_viable.
    symmetry. apply jsSort_fmap. reflexivity.
Qed.

Lemma evaluations_nonneg (d : DexVersion) (params : QuoteParams) (evals : list Candidate) :
  evaluations w d params = Some evals ->
  Forall (fun c => 0 <= c_out c) evals.
Proof.
  destruct d; unfold evaluations.
  - destruct (v2Setup w params) as [rq|e]; [|discriminate].
    cbn [resultToOption mbind option_bind]. intros H. inversion H; subst; clear H.
    apply Forall_fmap, Forall_forall. intros p _. apply evaluatePathOut_nonneg.
  - destruct (v3Setup w params) as [qr|e]; [|discriminate].
    cbn [resultToOption mbind option_bind]. intros H. inversion H; subst; clear H.
    apply Forall_fmap, Forall_forall. intros r _. simpl.
    destruct (evalRoute w qr.1 (rq_amountInRaw qr.2) r) as [o|e] eqn:He; simpl; [|lia].
    eapply evalRoute_nonneg, He.
Qed.

End RankedRoutes.

(** C3, as stated, fails: on WBNB -> USDT with the default intermediates
    and every route returning 5, the ranked list holds a two-hop route
    (position 3) ahead of a one-hop route (position 4) of the same output,
    so ties are not broken by preferring fewer hops. *)
Lemma ranking_does_not_prefer_fewer_hops :
  exists ranked : list Candidate,
    rankedRoutes Examples.flatWorld dex_pcs_v2
                 (Examples.request "WBNB" "USDT" true false) = Some ranked
    /\ ~ rankedByOutputThenHops ranked.
Proof.
  eexists. split; [vm_compute; reflexivity|].
  intros H.
  specialize (H 3%nat 4%nat _ _ ltac:(lia) eq_refl eq_refl).
  vm_compute in H. destruct H as [H|[_ H]]; [discriminate|lia].
Qed.

(** C3, amended. The ranked list is ordered by [amountOutRaw] descending
    and ties keep the order in which the candidates were enumerated (the
    sort is stable and compares outputs only; hop counts play no part).
    Two invocations that see the same venue outputs for the candidates
    produce the identical ranked list. *)
Theorem ranking_is_stable_sort_by_output
    (w w' : World) (d : DexVersion) (params : QuoteParams) (evals : list Candidate) :
  evaluations w d params = Some evals ->
  evaluations w' d params = Some evals ->
  exists ranked : list Candidate,
    rankedRoutes w d params = Some ranked
    /\ rankedRoutes w' d params = Some ranked
    /\ ranked ≡ₚ viable evals
    /\ (forall (i j : nat) (a b : Candidate),
          (i < j)%nat -> ranked !! i = Some a -> ranked !! j = Some b ->
          c_out b <= c_out a)
    /\ (forall v : Z,
          filter (fun c => c_out c = v) ranked
          = filter (fun c => c_out c = v) (viable evals)).
Proof.
  intros He He'.
  exists (jsSort (byOutDesc c_out) (viable evals)).
  rewrite !rankedRoutes_sorted_viable, He, He'.
  split; [reflexivity|]. split; [reflexivity|].
  split; [apply jsSort_perm|].
  split.
  - apply descending_lookup, jsSort_descending.
  - intros v. apply jsSort_filter.
Qed.

Lemma ranking_is_stable_sort_by_output_witness :
  let params := Examples.request "WBNB" "USDT" true false in
  let evals :=
    default [] (evaluations Examples.flatWorld dex_pcs_v2 params) in
  evaluations Examples.flatWorld dex_pcs_v2 params = Some evals
  /\ evaluations (Examples.twoVenueWorld 5 7) dex_pcs_v2 params = Some evals
  /\ exists ranked : list Candidate,
       rankedRoutes Examples.flatWorld dex_pcs_v2 params = Some ranked
       /\ rankedRoutes (Examples.twoVenueWorld 5 7) dex_pcs_v2 params = Some ranked
       /\ ranked ≡ₚ viable evals
       /\ (forall (i j : nat) (a b : Candidate),
             (i < j)%nat -> ranked !! i = Some a -> ranked !! j = Some b ->
             c_out b <= c_out a)
       /\ (forall v : Z,
             filter (fun c => c_out c = v) ranked
             = filter (fun c => c_out c = v) (viable evals)).
Proof.
  intros params evals.
  assert (H1 : evaluations Examples.flatWorld dex_pcs_v2 params = Some evals)
    by (vm_compute; reflexivity).
  assert (H2 : evaluations (Examples.twoVenueWorld 5 7) dex_pcs_v2 params = Some evals)
    by (vm_compute; reflexivity).
  split; [exact H1|]. split; [exact H2|].
  exact (ranking_is_stable_sort_by_output _ _ dex_pcs_v2 params evals H1 H2).
Defined.

(** ** The split search *)

(** The grid of the search: 10, 20, ..., 90 percent to the first route. *)
Example splitPercents_grid : splitPercents = [10; 20; 30; 40; 50; 60; 70; 80; 90].
Proof. reflexivity. Qed.

Section SplitSearch.
Context (eval1 eval2 : Z -> Z) (amountIn out0 : Z).

Lemma splitStep_bestTotalOut (st : SplitSearch) (p : Z) :
  bestTotalOut (splitStep eval1 eval2 amountIn st p)
  = Z.max (bestTotalOut st) (splitTotal eval1 eval2 amountIn p).
Proof.
  unfold splitStep, splitTotal.
  destruct (Z.gtb_spec (eval1 (splitIn1 amountIn p) + eval2 (splitIn2 amountIn p))
                       (bestTotalOut st)); simpl; lia.
Qed.

Lemma foldl_splitStep_bestTotalOut (ps : list Z) (st : SplitSearch) :
  0 <= bestTotalOut st ->
  bestTotalOut (foldl (splitStep eval1 eval2 amountIn) st ps)
  = Z.max (bestTotalOut st) (foldr Z.max 0 (splitTotal eval1 eval2 amountIn <$> ps)).
Proof.
  unfold fmap. revert st.
  induction ps as [|p ps IH]; intros st Hst; cbn [foldl foldr list_fmap]; [lia|].
  rewrite IH by (rewrite splitStep_bestTotalOut; lia).
  rewrite splitStep_bestTotalOut. lia.
Qed.

(** The search returns the best combined output of the grid. *)
Lemma splitSearch_bestTotalOut :
  bestTotalOut (splitSearch eval1 eval2 amountIn out0) = gridBest eval1 eval2 amountIn.
Proof.
  unfold splitSearch, gridBest.
  rewrite foldl_splitStep_bestTotalOut by (simpl; lia).
  simpl bestTotalOut.
  assert (H : forall l, 0 <= foldr Z.max 0 l)
    by (induction l; simpl; lia).
  specialize (H (splitTotal eval1 eval2 amountIn <$> splitPercents)). lia.
Qed.

(** Either nothing on the grid had a positive total and the search still
    holds its initial values, or it holds a grid point with its outputs. *)
Lemma splitSearch_state :
  let s := splitSearch eval1 eval2 amountIn out0 in
  (bestTotalOut s = 0 /\ bestPercentToR1 s = 100
   /\ bestOut1 s = out0 /\ bestOut2 s = 0)
  \/ (0 < bestTotalOut s
      /\ bestPercentToR1 s ∈ splitPercents
      /\ bestOut1 s + bestOut2 s = bestTotalOut s).
Proof.
  unfold splitSearch.
  apply foldl_invariant_in.
  - left. repeat split.
  - intros st p Hp Hst. unfold splitStep.
    destruct (Z.gtb_spec (eval1 (splitIn1 amountIn p) + eval2 (splitIn2 amountIn p))
                         (bestTotalOut st)) as [Hgt|Hle]; [|exact Hst].
    right. simpl. repeat split; [|exact Hp].
    destruct Hst as [(H0 & _)|(Hpos & _)]; lia.
Qed.

End SplitSearch.

(** ** Outcome of one invocation *)

Section Outcome.
Context (w : World).

Lemma v2SingleQuote_fields (rq : Request) (best : V2Route) (q : LiveQuote) :
  v2SingleQuote w rq best = Ok q ->
  isSplit q = false /\ amountOutRaw q = v2_out best
  /\ path q = Some (v2_path best) /\ amountInRaw q = rq_amountInRaw rq.
Proof.
  unfold v2SingleQuote.
  destruct (mapResult (symbolOfV2 w rq) (v2_path best)); simpl; intros H;
    inversion H; subst; clear H. repeat split.
Qed.

Lemma rankedRoutes_positive (d : DexVersion) (params : QuoteParams)
    (ranked : list Candidate) :
  rankedRoutes w d params = Some ranked ->
  Forall (fun c => 0 < c_out c) ranked.
Proof.
  rewrite rankedRoutes_sorted_viable.
  destruct (evaluations w d params) as [evals|] eqn:He; [|discriminate].
  simpl. intros H. inversion H; subst; clear H.
  rewrite jsSort_perm.
  pose proof (evaluations_nonneg w d params evals He) as Hnn.
  unfold viable. rewrite Forall_forall in Hnn. apply Forall_forall.
  intros c Hc. apply list_elem_of_filter in Hc as [Hnz Hin].
  specialize (Hnn c Hin). simpl in Hnn. lia.
Qed.

(** What a successful invocation returns, in terms of its ranked list and
    of the split search over the two best routes. *)
Lemma quoteOnDex_cases (d : DexVersion) (params : QuoteParams) (q : LiveQuote) :
  quoteOnDex w d params = Ok q ->
  exists (a : Z) (r1 : Candidate) (rest : list Candidate),
    requestedAmountInRaw w d params = Some a
    /\ rankedRoutes w d params = Some (r1 :: rest)
    /\ amountInRaw q = a
    /\ ((isSplit q = false /\ amountOutRaw q = c_out r1
         /\ path q = Some (c_tokens r1)
         /\ (jsBoolean (allowSplitRouting params) = true -> rest <> [] ->
             exists leg1 leg2 : Z -> Z,
               splitLegs w d params = Some (leg1, leg2)
               /\ bestTotalOut (splitSearch leg1 leg2 a (c_out r1)) <= c_out r1))
        \/ (jsBoolean (allowSplitRouting params) = true
            /\ exists leg1 leg2 : Z -> Z,
                 splitLegs w d params = Some (leg1, leg2)
                 /\ c_out r1 < bestTotalOut (splitSearch leg1 leg2 a (c_out r1))
                 /\ isSplit q = true
                 /\ amountOutRaw q
                    = bestOut1 (splitSearch leg1 leg2 a (c_out r1))
                      + bestOut2 (splitSearch leg1 leg2 a (c_out r1))
                 /\ exists p1 p2 : SplitQuotePart,
                      parts q = Some [p1; p2]
                      /\ part_amountInRaw p1
                         = splitIn1 a (bestPercentToR1 (splitSearch leg1 leg2 a (c_out r1)))
                      /\ part_amountInRaw p2 = a - part_amountInRaw p1)).
Proof.
  destruct d; unfold quoteOnDex, requestedAmountInRaw, rankedRoutes, splitLegs.
  - (* v2 *)
    unfold quotePcsV2BestExactIn.
    destruct (v2Setup w params) as [rq|e]; [|discriminate].
    cbn [bind resultToOption mbind option_bind fmap option_fmap option_map].
    destruct (v2Ranked w (v2Candidates w params rq) (rq_amountInRaw rq))
      as [|a1 rk]; [discriminate|].
    intros Hq. exists (rq_amountInRaw rq), (candidateOfV2 a1), (candidateOfV2 <$> rk).
    split; [reflexivity|]. split; [reflexivity|].
    cbn [v2Select] in Hq.
    destruct (jsBoolean (allowSplitRouting params)); [destruct rk as [|a2 rk']|].
    + apply v2SingleQuote_fields in Hq as (Hs & Ho & Hp & Ha).
      split; [exact Ha|]. left. repeat split; try assumption.
      intros _ Hne. contradiction Hne. reflexivity.
    + unfold v2SplitSearch in Hq.
      destruct (Z.geb_spec (v2_out a1)
                  (bestTotalOut (splitSearch (evaluatePathOut w (v2_path a1))
                                             (evaluatePathOut w (v2_path a2))
                                             (rq_amountInRaw rq) (v2_out a1))))
        as [Hge|Hlt].
      * apply v2SingleQuote_fields in Hq as (Hs & Ho & Hp & Ha).
        split; [exact Ha|]. left. repeat split; try assumption.
        intros _ _. eexists _, _. split; [reflexivity|]. simpl. lia.
      * destruct (mapResult (symbolOfV2 w rq) (v2_path a1)); [|discriminate].
        destruct (mapResult (symbolOfV2 w rq) (v2_path a2)); [|discriminate].
        simpl in Hq. inversion Hq; subst q; clear Hq.
        split; [reflexivity|]. right. split; [reflexivity|].
        eexists _, _. split; [reflexivity|].
        split; [simpl; lia|]. split; [reflexivity|]. split; [reflexivity|].
        eexists _, _. repeat split.
    + apply v2SingleQuote_fields in Hq as (Hs & Ho & Hp & Ha).
      split; [exact Ha|]. left. repeat split; try assumption.
      intros Hf. discriminate.
  - (* v3 *)
    unfold quotePcsV3BestExactIn.
    destruct (v3Setup w params) as [[quoter rq]|e]; [|discriminate].
    cbn [bind resultToOption mbind option_bind fmap option_fmap option_map fst snd].
    destruct (v3Ranked w quoter (rq_amountInRaw rq) (v3Candidates w params rq))
      as [|x rk]; [discriminate|].
    intros Hq. exists (rq_amountInRaw rq), (candidateOfV3 x), (candidateOfV3 <$> rk).
    split; [reflexivity|]. split; [reflexivity|].
    cbn [v3Select] in Hq.
    destruct (jsBoolean (allowSplitRouting params)); [destruct rk as [|y rk']|].
    + inversion Hq; subst q; clear Hq.
      split; [reflexivity|]. left. repeat split.
      intros _ Hne. contradiction Hne. reflexivity.
    + destruct (v3SplitLeg w quoter (v3_r x)) as [leg1|e1]; [|discriminate].
      destruct (v3SplitLeg w quoter (v3_r y)) as [leg2|e2]; [|discriminate].
      cbn [bind resultToOption mbind option_bind] in Hq |- *.
      destruct (Z.geb_spec (v3_out x)
                  (bestTotalOut (splitSearch leg1 leg2 (rq_amountInRaw rq) (v3_out x))))
        as [Hge|Hlt].
      * inversion Hq; subst q; clear Hq.
        split; [reflexivity|]. left. repeat split.
        intros _ _. eexists _, _. split; [reflexivity|]. simpl. lia.
      * inversion Hq; subst q; clear Hq.
        split; [reflexivity|]. right. split; [reflexivity|].
        eexists _, _. split; [reflexivity|].
        split; [simpl; lia|]. split; [reflexivity|]. split; [reflexivity|].
        eexists _, _. repeat split.
    + inversion Hq; subst q; clear Hq.
      split; [reflexivity|]. left. repeat split.
      intros Hf. discriminate.
Qed.

End Outcome.

Section Claims.
Context (w : World).

Lemma split_total_is_grid_best (leg1 leg2 : Z -> Z) (a o : Z) :
  0 < o ->
  o < bestTotalOut (splitSearch leg1 leg2 a o) ->
  bestOut1 (splitSearch leg1 leg2 a o) + bestOut2 (splitSearch leg1 leg2 a o)
  = gridBest leg1 leg2 a
  /\ bestPercentToR1 (splitSearch leg1 leg2 a o) ∈ splitPercents.
Proof.
  intros Ho Hlt.
  destruct (splitSearch_state leg1 leg2 a o) as [(H0 & _)|(_ & Hp & Hsum)]; [lia|].
  rewrite <- splitSearch_bestTotalOut with (out0 := o). split; assumption.
Qed.

(** C1. With [allowSplitRouting] set and at least two ranked routes, the
    quoter (v2 or v3) returns a split quote exactly when the best combined
    output of the grid search over 10, 20, ..., 90 percent strictly exceeds
    the output of the best single route; on a tie or worse it returns that
    route unsplit.  The output of the returned quote is the grid best when
    split, the best single-route output otherwise, and in both cases at
    least the best single-route output. *)
Theorem split_only_when_strictly_better
    (d : DexVersion) (params : QuoteParams) (q : LiveQuote)
    (r1 r2 : Candidate) (rest : list Candidate) :
  jsBoolean (allowSplitRouting params) = true ->
  rankedRoutes w d params = Some (r1 :: r2 :: rest) ->
  quoteOnDex w d params = Ok q ->
  exists leg1 leg2 : Z -> Z,
    splitLegs w d params = Some (leg1, leg2)
    /\ (isSplit q = true <-> c_out r1 < gridBest leg1 leg2 (amountInRaw q))
    /\ (isSplit q = true -> amountOutRaw q = gridBest leg1 leg2 (amountInRaw q))
    /\ (isSplit q = false ->
        amountOutRaw q = c_out r1 /\ path q = Some (c_tokens r1))
    /\ c_out r1 <= amountOutRaw q.
Proof.
  intros Hsplit Hranked Hq.
  pose proof (rankedRoutes_positive w d params _ Hranked) as Hpos.
  apply Forall_cons in Hpos as [Hpos1 _].
  destruct (quoteOnDex_cases w d params q Hq)
    as (a & r1' & rest' & Ha & Hr & Hain & Hcase).
  rewrite Hranked in Hr. inversion Hr; subst r1' rest'; clear Hr.
  rewrite Hain.
  destruct Hcase as [(Hs & Ho & Hp & Hlegs)|(_ & leg1 & leg2 & Hlegs & Hlt & Hs & Ho & _)].
  - destruct (Hlegs Hsplit ltac:(discriminate)) as (leg1 & leg2 & Hl & Hle).
    exists leg1, leg2. split; [exact Hl|].
    rewrite splitSearch_bestTotalOut in Hle.
    rewrite Hs, Ho.
    repeat split; intros; try discriminate; try lia; try assumption.
  - exists leg1, leg2. split; [exact Hlegs|].
    destruct (split_total_is_grid_best leg1 leg2 a (c_out r1) Hpos1 Hlt) as [Hsum _].
    rewrite splitSearch_bestTotalOut in Hlt.
    rewrite Hs, Ho, Hsum.
    repeat split; intros; try discriminate; try lia; try assumption.
Qed.

(** C6. The two parts of a split quote (v2 or v3) carry inputs that add up
    to the requested raw input exactly: the first is [amountInRaw * p / 100]
    rounded toward zero for the chosen grid percentage [p], the second is
    the remainder. *)
Theorem split_parts_sum_to_requested_input
    (d : DexVersion) (params : QuoteParams) (q : LiveQuote) :
  quoteOnDex w d params = Ok q ->
  isSplit q = true ->
  exists (p : Z) (partA partB : SplitQuotePart),
    p ∈ splitPercents
    /\ parts q = Some [partA; partB]
    /\ requestedAmountInRaw w d params = Some (amountInRaw q)
    /\ part_amountInRaw partA = Z.quot (amountInRaw q * p) 100
    /\ part_amountInRaw partA + part_amountInRaw partB = amountInRaw q.
Proof.
  intros Hq Hsplit.
  destruct (quoteOnDex_cases w d params q Hq)
    as (a & r1 & rest & Ha & Hr & Hain & Hcase).
  pose proof (rankedRoutes_positive w d params _ Hr) as Hpos.
  apply Forall_cons in Hpos as [Hpos1 _].
  destruct Hcase as [(Hs & _)|(_ & leg1 & leg2 & _ & Hlt & _ & _ & p1 & p2 & Hparts & H1 & H2)];
    [congruence|].
  destruct (split_total_is_grid_best leg1 leg2 a (c_out r1) Hpos1 Hlt) as [_ Hp].
  exists (bestPercentToR1 (splitSearch leg1 leg2 a (c_out r1))), p1, p2.
  rewrite Hain. repeat split; try assumption. lia.
Qed.

Lemma mapResult_symbolOfV2_error (rq : Request) (l : list string) (e : QuoteError) :
  mapResult (symbolOfV2 w rq) l = Err e -> e = NullDereference.
Proof.
  induction l as [|x r IH]; [discriminate|].
  cbn [mapResult].
  destruct (symbolOfV2 w rq x) as [y|e'] eqn:Hx.
  - cbn [bind]. destruct (mapResult (symbolOfV2 w rq) r); [discriminate|].
    cbn [bind]. intros H. inversion H; subst. apply IH. reflexivity.
  - cbn [bind]. intros H. inversion H; subst. clear H IH.
    unfold symbolOfV2 in Hx.
    repeat match type of Hx with
           | (if ?b then _ else _) = _ => destruct b; [discriminate|]
           | match ?o with Some _ => _ | None => _ end = _ => destruct o
           end; congruence.
Qed.

Lemma v2Select_noRoute (rq : Request) (b : bool) (ranked : list V2Route) :
  v2Select w rq b ranked = Err NoV2Route <-> ranked = [].
Proof.
  split; [|intros ->; reflexivity].
  destruct ranked as [|r1 rest]; [reflexivity|].
  assert (Hsingle : v2SingleQuote w rq r1 <> Err NoV2Route).
  { unfold v2SingleQuote.
    destruct (mapResult (symbolOfV2 w rq) (v2_path r1)) eqn:Hm; [discriminate|].
    apply mapResult_symbolOfV2_error in Hm. subst. discriminate. }
  cbn [v2Select]. destruct b; [destruct rest as [|r2 rest]|]; try (intros H; contradiction).
  destruct (_ >=? _); [intros H; contradiction|].
  destruct (mapResult (symbolOfV2 w rq) (v2_path r1)) eqn:Hm1.
  - destruct (mapResult (symbolOfV2 w rq) (v2_path r2)) eqn:Hm2; [discriminate|].
    apply mapResult_symbolOfV2_error in Hm2. subst. discriminate.
  - apply mapResult_symbolOfV2_error in Hm1. subst. discriminate.
Qed.

Lemma v3SplitLeg_error (quoter : string) (r : V3Route) (e : QuoteError) :
  v3SplitLeg w quoter r = Err e -> e = PathEncoding.
Proof.
  unfold v3SplitLeg, encodeV3Path.
  destruct (_ =? 2)%nat; [discriminate|].
  destruct (_ <? 2)%nat; [simpl; congruence|].
  destruct (negb _); simpl; congruence.
Qed.

Lemma v3Select_noRoute (quoter : string) (rq : Request) (b : bool)
    (ranked : list V3Ranked) :
  v3Select w quoter rq b ranked = Err NoV3Route <-> ranked = [].
Proof.
  split; [|intros ->; reflexivity].
  destruct ranked as [|x rest]; [reflexivity|].
  cbn [v3Select]. destruct b; [destruct rest as [|y rest]|]; try discriminate.
  destruct (v3SplitLeg w quoter (v3_r x)) as [leg1|e1] eqn:H1.
  - destruct (v3SplitLeg w quoter (v3_r y)) as [leg2|e2] eqn:H2.
    + cbn [bind]. destruct (_ >=? _); discriminate.
    + apply v3SplitLeg_error in H2. subst. discriminate.
  - apply v3SplitLeg_error in H1. subst. discriminate.
Qed.

Lemma quoteOnDex_noRoute (d : DexVersion) (params : QuoteParams)
    (evals : list Candidate) :
  evaluations w d params = Some evals ->
  quoteOnDex w d params = Err (noRouteError d) <-> rankedRoutes w d params = Some [].
Proof.
  destruct d; unfold evaluations, quoteOnDex, rankedRoutes, noRouteError.
  - unfold quotePcsV2BestExactIn.
    destruct (v2Setup w params) as [rq|e]; [|discriminate].
    cbn [bind resultToOption mbind option_bind]. intros _.
    rewrite v2Select_noRoute. split.
    + intros ->. reflexivity.
    + intros H. inversion H as [H']. apply fmap_nil_inv in H'. exact H'.
  - unfold quotePcsV3BestExactIn.
    destruct (v3Setup w params) as [qr|e]; [|discriminate].
    cbn [bind resultToOption mbind option_bind]. intros _.
    rewrite v3Select_noRoute. split.
    + intros ->. reflexivity.
    + intros H. inversion H as [H']. apply fmap_nil_inv in H'. exact H'.
Qed.

Lemma viable_nil (evals : list Candidate) :
  viable evals = [] <-> Forall (fun c => c_out c = 0) evals.
Proof.
  unfold viable. induction evals as [|c r IH]; [split; constructor|].
  rewrite filter_cons. destruct (decide (c_out c <> 0)) as [Hnz|Hz].
  - split; [discriminate|]. intros H. apply Forall_cons in H as [H _]. contradiction.
  - rewrite IH. split.
    + intros H. constructor; [lia|exact H].
    + intros H. apply Forall_cons in H as [_ H]. exact H.
Qed.

(** C2. For the v2 and the v3 quoter: the ranked list holds exactly the
    candidates whose evaluation gave a non-zero output (a failed or zero
    evaluation is left out, not ranked last); the no-route error is raised
    exactly when every candidate evaluated to zero; and a quote that is
    returned never has [amountOutRaw = 0]. *)
Theorem zero_output_candidates_are_excluded
    (d : DexVersion) (params : QuoteParams) (evals : list Candidate) :
  evaluations w d params = Some evals ->
  (exists ranked : list Candidate,
     rankedRoutes w d params = Some ranked
     /\ ranked ≡ₚ viable evals
     /\ Forall (fun c => 0 < c_out c) ranked)
  /\ (quoteOnDex w d params = Err (noRouteError d)
      <-> Forall (fun c => c_out c = 0) evals)
  /\ (forall q : LiveQuote, quoteOnDex w d params = Ok q -> 0 < amountOutRaw q).
Proof.
  intros He.
  assert (Hr : rankedRoutes w d params
               = Some (jsSort (byOutDesc c_out) (viable evals)))
    by (rewrite rankedRoutes_sorted_viable, He; reflexivity).
  split; [|split].
  - eexists. split; [exact Hr|]. split; [apply jsSort_perm|].
    exact (rankedRoutes_positive w d params _ Hr).
  - rewrite (quoteOnDex_noRoute d params evals He), Hr, <- viable_nil.
    split.
    + intros H. injection H as H'.
      apply Permutation_nil_r.
      rewrite <- (jsSort_perm (byOutDesc c_out) (viable evals)), H'. reflexivity.
    + intros ->. reflexivity.
  - intros q Hq.
    destruct (quoteOnDex_cases w d params q Hq)
      as (a & r1 & rest & _ & Hr1 & _ & Hcase).
    pose proof (rankedRoutes_positive w d params _ Hr1) as Hpos.
    apply Forall_cons in Hpos as [Hpos1 _].
    destruct Hcase as [(_ & Ho & _)|(_ & leg1 & leg2 & _ & Hlt & _ & Ho & _)].
    + lia.
    + destruct (splitSearch_state leg1 leg2 a (c_out r1)) as [(H0 & _)|(_ & _ & Hsum)]; lia.
Qed.

(** C8. [quotePancakeBest] asks both venue families for the caller's own
    swap -- the same symbols, amount, hop bound, fee tiers, quoter and
    family choice; v2 without split routing, both with multi-hop on unless
    the caller turned it off -- and keeps the quote with the larger
    [amountOutRaw]; when one family fails the quote of the other is
    returned; the only error it raises is the one for both families
    failing. *)
Theorem pancake_best_takes_larger_output (params : QuoteParams) :
  let p2 := pancakeV2Params params in
  let p3 := pancakeV3Params params in
  let q2 := quotePcsV2BestExactIn w p2 in
  let q3 := quotePcsV3BestExactIn w p3 in
  (fromSymbol p2 = fromSymbol params /\ toSymbol p2 = toSymbol params
   /\ amountInUnits p2 = amountInUnits params
   /\ maxHops p2 = maxHops params /\ feeTiers p2 = feeTiers params
   /\ quoterAddress p2 = quoterAddress params /\ dex p2 = dex params
   /\ allowMultiHop p2 = Some (default true (allowMultiHop params))
   /\ allowSplitRouting p2 = Some false)
  /\ (fromSymbol p3 = fromSymbol params /\ toSymbol p3 = toSymbol params
      /\ amountInUnits p3 = amountInUnits params
      /\ maxHops p3 = maxHops params /\ feeTiers p3 = feeTiers params
      /\ quoterAddress p3 = quoterAddress params /\ dex p3 = dex params
      /\ allowMultiHop p3 = Some (default true (allowMultiHop params))
      /\ allowSplitRouting p3 = allowSplitRouting params)
  /\ match q2, q3 with
     | Err _, Err _ => quotePancakeBest w params = Err NoPancakeRoute
     | Ok ok2, Err _ => quotePancakeBest w params = Ok (withProvider ok2 pcs_v2)
     | Err _, Ok ok3 => quotePancakeBest w params = Ok (withProvider ok3 pcs_v3)
     | Ok ok2, Ok ok3 =>
         exists q : LiveQuote,
           quotePancakeBest w params = Ok q
           /\ amountOutRaw q = Z.max (amountOutRaw ok2) (amountOutRaw ok3)
           /\ (q = withProvider ok2 pcs_v2 \/ q = withProvider ok3 pcs_v3)
     end.
Proof.
  intros p2 p3 q2 q3.
  split; [repeat split|]. split; [repeat split|].
  unfold quotePancakeBest. fold p2 p3. fold q2 q3.
  destruct q2 as [ok2|e2], q3 as [ok3|e3]; try reflexivity.
  cbn [pancakeSelect].
  destruct (Z.gtb_spec (amountOutRaw ok3) (amountOutRaw ok2)) as [Hgt|Hle].
  - exists (withProvider ok3 pcs_v3). split; [reflexivity|].
    split; [simpl; lia|]. right. reflexivity.
  - exists (withProvider ok2 pcs_v2). split; [reflexivity|].
    split; [simpl; lia|]. left. reflexivity.
Qed.

(** C10. When both families return a quote, [quotePancakeBest] returns the
    v3 quote only if its [amountOutRaw] is strictly larger than that of the
    v2 quote; on equal outputs the v2 quote is returned. *)
Theorem pancake_best_tie_goes_to_v2 (params : QuoteParams) (ok2 ok3 : LiveQuote) :
  quotePcsV2BestExactIn w (pancakeV2Params params) = Ok ok2 ->
  quotePcsV3BestExactIn w (pancakeV3Params params) = Ok ok3 ->
  (amountOutRaw ok3 = amountOutRaw ok2 ->
   quotePancakeBest w params = Ok (withProvider ok2 pcs_v2))
  /\ (amountOutRaw ok2 < amountOutRaw ok3 <->
      quotePancakeBest w params = Ok (withProvider ok3 pcs_v3))
  /\ (amountOutRaw ok3 <= amountOutRaw ok2 <->
      quotePancakeBest w params = Ok (withProvider ok2 pcs_v2)).
Proof.
  intros H2 H3. unfold quotePancakeBest. rewrite H2, H3. cbn [pancakeSelect].
  assert (Hprov : withProvider ok2 pcs_v2 <> withProvider ok3 pcs_v3).
  { intros H. apply (f_equal provider) in H. discriminate. }
  destruct (Z.gtb_spec (amountOutRaw ok3) (amountOutRaw ok2)) as [Hgt|Hle].
  - split; [lia|]. split.
    + split; [reflexivity|intros _; exact Hgt].
    + split; [lia|]. intros H. exfalso. apply Hprov. congruence.
  - split; [reflexivity|]. split.
    + split; [lia|]. intros H. exfalso. apply Hprov. congruence.
    + split; [reflexivity|intros _; exact Hle].
Qed.

End Claims.


(** ** The claims on concrete invocations *)

Lemma split_only_when_strictly_better_witness :
  let w := Examples.cappedWorld in
  let params := Examples.request "BUSD" "CAKE" true true in
  let ranked2 := rankedRoutes w dex_pcs_v2 params in
  let ranked3 := rankedRoutes w dex_pcs_v3 params in
  let q2 := Examples.quoteOf (quoteOnDex w dex_pcs_v2 params) in
  let q3 := Examples.quoteOf (quoteOnDex w dex_pcs_v3 params) in
  (jsBoolean (allowSplitRouting params) = true
   /\ ranked2 = Some (Examples.rankedOf ranked2 0 :: Examples.rankedOf ranked2 1
                        :: drop 2 (default [] ranked2))
   /\ quoteOnDex w dex_pcs_v2 params = Ok q2
   /\ exists leg1 leg2 : Z -> Z,
        splitLegs w dex_pcs_v2 params = Some (leg1, leg2)
        /\ (isSplit q2 = true
            <-> c_out (Examples.rankedOf ranked2 0) < gridBest leg1 leg2 (amountInRaw q2))
        /\ (isSplit q2 = true -> amountOutRaw q2 = gridBest leg1 leg2 (amountInRaw q2))
        /\ (isSplit q2 = false ->
            amountOutRaw q2 = c_out (Examples.rankedOf ranked2 0)
            /\ path q2 = Some (c_tokens (Examples.rankedOf ranked2 0)))
        /\ c_out (Examples.rankedOf ranked2 0) <= amountOutRaw q2)
  /\ (ranked3 = Some (Examples.rankedOf ranked3 0 :: Examples.rankedOf ranked3 1
                        :: drop 2 (default [] ranked3))
      /\ quoteOnDex w dex_pcs_v3 params = Ok q3
      /\ exists leg1 leg2 : Z -> Z,
           splitLegs w dex_pcs_v3 params = Some (leg1, leg2)
           /\ (isSplit q3 = true
               <-> c_out (Examples.rankedOf ranked3 0) < gridBest leg1 leg2 (amountInRaw q3))
           /\ (isSplit q3 = true -> amountOutRaw q3 = gridBest leg1 leg2 (amountInRaw q3))
           /\ (isSplit q3 = false ->
               amountOutRaw q3 = c_out (Examples.rankedOf ranked3 0)
               /\ path q3 = Some (c_tokens (Examples.rankedOf ranked3 0)))
           /\ c_out (Examples.rankedOf ranked3 0) <= amountOutRaw q3).
Proof.
  intros w params ranked2 ranked3 q2 q3.
  assert (H1 : jsBoolean (allowSplitRouting params) = true) by reflexivity.
  assert (H2 : ranked2 = Some (Examples.rankedOf ranked2 0 :: Examples.rankedOf ranked2 1
                                 :: drop 2 (default [] ranked2)))
    by (vm_compute; reflexivity).
  assert (H3 : quoteOnDex w dex_pcs_v2 params = Ok q2) by (vm_compute; reflexivity).
  assert (H4 : ranked3 = Some (Examples.rankedOf ranked3 0 :: Examples.rankedOf ranked3 1
                                 :: drop 2 (default [] ranked3)))
    by (vm_compute; reflexivity).
  assert (H5 : quoteOnDex w dex_pcs_v3 params = Ok q3) by (vm_compute; reflexivity).
  split.
  - split; [exact H1|]. split; [exact H2|]. split; [exact H3|].
    exact (split_only_when_strictly_better w dex_pcs_v2 params q2 _ _ _ H1 H2 H3).
  - split; [exact H4|]. split; [exact H5|].
    exact (split_only_when_strictly_better w dex_pcs_v3 params q3 _ _ _ H1 H4 H5).
Defined.

(** The split of the capped venues: 50/50 for a total of 1000 against 600
    through the best single route. *)
Example capped_world_split :
  let q := Examples.quoteOf
             (quotePcsV2BestExactIn Examples.cappedWorld
                (Examples.request "BUSD" "CAKE" true true)) in
  isSplit q = true /\ amountOutRaw q = 1000
  /\ (part_amountInRaw <$> default [] (parts q)) = [500; 500]
  /\ (part_amountOutRaw <$> default [] (parts q)) = [500; 500].
Proof. vm_compute. repeat split. Qed.

Lemma split_parts_sum_to_requested_input_witness :
  let w := Examples.cappedWorld in
  let params := Examples.request "BUSD" "CAKE" true true in
  let q2 := Examples.quoteOf (quoteOnDex w dex_pcs_v2 params) in
  let q3 := Examples.quoteOf (quoteOnDex w dex_pcs_v3 params) in
  (quoteOnDex w dex_pcs_v2 params = Ok q2
   /\ isSplit q2 = true
   /\ exists (p : Z) (partA partB : SplitQuotePart),
        p ∈ splitPercents
        /\ parts q2 = Some [partA; partB]
        /\ requestedAmountInRaw w dex_pcs_v2 params = Some (amountInRaw q2)
        /\ part_amountInRaw partA = Z.quot (amountInRaw q2 * p) 100
        /\ part_amountInRaw partA + part_amountInRaw partB = amountInRaw q2)
  /\ (quoteOnDex w dex_pcs_v3 params = Ok q3
      /\ isSplit q3 = true
      /\ exists (p : Z) (partA partB : SplitQuotePart),
           p ∈ splitPercents
           /\ parts q3 = Some [partA; partB]
           /\ requestedAmountInRaw w dex_pcs_v3 params = Some (amountInRaw q3)
           /\ part_amountInRaw partA = Z.quot (amountInRaw q3 * p) 100
           /\ part_amountInRaw partA + part_amountInRaw partB = amountInRaw q3).
Proof.
  intros w params q2 q3.
  assert (H2 : quoteOnDex w dex_pcs_v2 params = Ok q2) by (vm_compute; reflexivity).
  assert (S2 : isSplit q2 = true) by (vm_compute; reflexivity).
  assert (H3 : quoteOnDex w dex_pcs_v3 params = Ok q3) by (vm_compute; reflexivity).
  assert (S3 : isSplit q3 = true) by (vm_compute; reflexivity).
  split.
  - split; [exact H2|]. split; [exact S2|].
    exact (split_parts_sum_to_requested_input w dex_pcs_v2 params q2 H2 S2).
  - split; [exact H3|]. split; [exact S3|].
    exact (split_parts_sum_to_requested_input w dex_pcs_v3 params q3 H3 S3).
Defined.

Lemma zero_output_candidates_are_excluded_witness :
  let w := Examples.cappedWorld in
  let params := Examples.request "BUSD" "CAKE" true true in
  let evals := default [] (evaluations w dex_pcs_v3 params) in
  evaluations w dex_pcs_v3 params = Some evals
  /\ (exists ranked : list Candidate,
        rankedRoutes w dex_pcs_v3 params = Some ranked
        /\ ranked ≡ₚ viable evals
        /\ Forall (fun c => 0 < c_out c) ranked)
  /\ (quoteOnDex w dex_pcs_v3 params = Err (noRouteError dex_pcs_v3)
      <-> Forall (fun c => c_out c = 0) evals)
  /\ (forall q : LiveQuote, quoteOnDex w dex_pcs_v3 params = Ok q -> 0 < amountOutRaw q).
Proof.
  intros w params evals.
  assert (H : evaluations w dex_pcs_v3 params = Some evals) by (vm_compute; reflexivity).
  split; [exact H|].
  exact (zero_output_candidates_are_excluded w dex_pcs_v3 params evals H).
Defined.

(** When every venue answers zero the quoters raise their no-route error
    and so does [quotePancakeBest]. *)
Example all_zero_venues_report_no_route :
  let w := Examples.twoVenueWorld 0 0 in
  let params := Examples.request "BUSD" "CAKE" true false in
  quotePcsV2BestExactIn w params = Err NoV2Route
  /\ quotePcsV3BestExactIn w params = Err NoV3Route
  /\ quotePancakeBest w params = Err NoPancakeRoute.
Proof. vm_compute. repeat split. Qed.

(** V2 returns 990 and V3 returns 995: the router returns the V3 quote. *)
Example pancake_best_prefers_v3_on_995 :
  let q := Examples.quoteOf
             (quotePancakeBest (Examples.twoVenueWorld 990 995)
                (Examples.request "BUSD" "CAKE" false false)) in
  amountOutRaw q = 995 /\ provider q = Some pcs_v3.
Proof. vm_compute. split; reflexivity. Qed.

Lemma pancake_best_tie_goes_to_v2_witness :
  let w := Examples.twoVenueWorld 990 990 in
  let params := Examples.request "BUSD" "CAKE" false false in
  let ok2 := Examples.quoteOf (quotePcsV2BestExactIn w (pancakeV2Params params)) in
  let ok3 := Examples.quoteOf (quotePcsV3BestExactIn w (pancakeV3Params params)) in
  quotePcsV2BestExactIn w (pancakeV2Params params) = Ok ok2
  /\ quotePcsV3BestExactIn w (pancakeV3Params params) = Ok ok3
  /\ (amountOutRaw ok3 = amountOutRaw ok2 ->
      quotePancakeBest w params = Ok (withProvider ok2 pcs_v2))
  /\ (amountOutRaw ok2 < amountOutRaw ok3 <->
      quotePancakeBest w params = Ok (withProvider ok3 pcs_v3))
  /\ (amountOutRaw ok3 <= amountOutRaw ok2 <->
      quotePancakeBest w params = Ok (withProvider ok2 pcs_v2)).
Proof.
  intros w params ok2 ok3.
  assert (H2 : quotePcsV2BestExactIn w (pancakeV2Params params) = Ok ok2)
    by (vm_compute; reflexivity).
  assert (H3 : quotePcsV3BestExactIn w (pancakeV3Params params) = Ok ok3)
    by (vm_compute; reflexivity).
  split; [exact H2|]. split; [exact H3|].
  exact (pancake_best_tie_goes_to_v2 w params ok2 ok3 H2 H3).
Defined.

(** The v2 family pays 7 and the v3 family 5 for the caller's swap: the
    router returns the v2 quote. *)
Lemma pancake_best_takes_larger_output_witness :
  let w := Examples.twoVenueWorld 7 5 in
  let params := Examples.request "BUSD" "CAKE" false false in
  let ok2 := Examples.quoteOf (quotePcsV2BestExactIn w params) in
  let ok3 := Examples.quoteOf (quotePcsV3BestExactIn w params) in
  (quotePcsV2BestExactIn w params = Ok ok2 /\ amountOutRaw ok2 = 7
   /\ quotePcsV3BestExactIn w params = Ok ok3 /\ amountOutRaw ok3 = 5
   /\ quotePancakeBest w params = Ok (withProvider ok2 pcs_v2))
  /\ let p2 := pancakeV2Params params in
     let p3 := pancakeV3Params params in
     let q2 := quotePcsV2BestExactIn w p2 in
     let q3 := quotePcsV3BestExactIn w p3 in
     (fromSymbol p2 = fromSymbol params /\ toSymbol p2 = toSymbol params
      /\ amountInUnits p2 = amountInUnits params
      /\ maxHops p2 = maxHops params /\ feeTiers p2 = feeTiers params
      /\ quoterAddress p2 = quoterAddress params /\ dex p2 = dex params
      /\ allowMultiHop p2 = Some (default true (allowMultiHop params))
      /\ allowSplitRouting p2 = Some false)
     /\ (fromSymbol p3 = fromSymbol params /\ toSymbol p3 = toSymbol params
         /\ amountInUnits p3 = amountInUnits params
         /\ maxHops p3 = maxHops params /\ feeTiers p3 = feeTiers params
         /\ quoterAddress p3 = quoterAddress params /\ dex p3 = dex params
         /\ allowMultiHop p3 = Some (default true (allowMultiHop params))
         /\ allowSplitRouting p3 = allowSplitRouting params)
     /\ match q2, q3 with
        | Err _, Err _ => quotePancakeBest w params = Err NoPancakeRoute
        | Ok ok2, Err _ => quotePancakeBest w params = Ok (withProvider ok2 pcs_v2)
        | Err _, Ok ok3 => quotePancakeBest w params = Ok (withProvider ok3 pcs_v3)
        | Ok ok2, Ok ok3 =>
            exists q : LiveQuote,
              quotePancakeBest w params = Ok q
              /\ amountOutRaw q = Z.max (amountOutRaw ok2) (amountOutRaw ok3)
              /\ (q = withProvider ok2 pcs_v2 \/ q = withProvider ok3 pcs_v3)
        end.
Proof.
  intros w params ok2 ok3.
  pose proof (pancake_best_takes_larger_output w params) as Hbest.
  split; [|exact Hbest].
  assert (H2 : quotePcsV2BestExactIn w (pancakeV2Params params) = Ok ok2)
    by (vm_compute; reflexivity).
  assert (H3 : quotePcsV3BestExactIn w (pancakeV3Params params) = Ok ok3)
    by (vm_compute; reflexivity).
  cbv zeta in Hbest. destruct Hbest as (_ & _ & Hsel).
  rewrite H2, H3 in Hsel. destruct Hsel as (q & Hq & Hmax & Hcase).
  split; [vm_compute; reflexivity|]. split; [reflexivity|].
  split; [vm_compute; reflexivity|]. split; [reflexivity|].
  rewrite Hq. f_equal.
  destruct Hcase as [Hc|Hc]; [exact Hc|].
  rewrite Hc in Hmax. vm_compute in Hmax. discriminate Hmax.
Defined.

(** ** The slippage floor *)

Section Slippage.
Context (w : World).

Lemma withAmountOutMin_fields (q : LiveQuote) (m : string) :
  amountOutMin (withAmountOutMin q m) = Some m
  /\ amountOutRaw (withAmountOutMin q m) = amountOutRaw q
  /\ to (withAmountOutMin q m) = to q.
Proof. repeat split. Qed.



End Slippage.

(** The scenario through [simulateSwapCostNow]: a quote of 1000000 raw
    units with one percent of slippage has its minimum set from 990000. *)
Example simulate_one_percent_slippage :
  let w := Examples.world (fun _ _ => Some 1000000%N) (fun _ _ _ _ => None) in
  let params :=
    {| quoteParams :=
         {| dex := Some dex_pcs_v2; fromSymbol := "BUSD"; toSymbol := "USDT";
            amountInUnits := 1000%float; allowMultiHop := None;
            allowSplitRouting := None; maxHops := None; feeTiers := None;
            quoterAddress := None |};
       bnbPriceUSD := None; slippagePercent := Some 1%float;
       engine := Some engine_pcs |} in
  exists r : SwapCostNow,
    simulateSwapCostNow w params = Ok r
    /\ amountOutRaw (quote r) = 1000000
    /\ amountOutMin (quote r) = Some (formatUnits w 990000 18).
Proof. eexists. split; [vm_compute; reflexivity|]. split; reflexivity. Qed.

(** The no-route error is raised only by an invocation that reached the
    evaluation of its candidates. *)
Lemma no_route_error_only_after_evaluation
    (w : World) (d : DexVersion) (params : QuoteParams) :
  quoteOnDex w d params = Err (noRouteError d) ->
  exists evals : list Candidate, evaluations w d params = Some evals.
Proof.
  assert (Hreq : forall e, resolveRequest w params = Err e ->
                           e = UnknownAddress \/ e = AmountRejected).
  { intros e. unfold resolveRequest.
    destruct (getKnownTokenAddress w _); [|intros H; inversion H; auto].
    destruct (getKnownTokenAddress w _); [|intros H; inversion H; auto].
    destruct (parseUnits w _ _); [discriminate|]. intros H; inversion H; auto. }
  destruct d; unfold quoteOnDex, evaluations, noRouteError.
  - unfold quotePcsV2BestExactIn.
    destruct (v2Setup w params) as [rq|e] eqn:Hs; [intros _; eexists; reflexivity|].
    cbn [bind]. intros H. exfalso. unfold v2Setup in Hs.
    destruct (negb (providerAvailable w)); [congruence|].
    destruct (Hreq e Hs); congruence.
  - unfold quotePcsV3BestExactIn.
    destruct (v3Setup w params) as [qr|e] eqn:Hs; [intros _; eexists; reflexivity|].
    cbn [bind]. intros H. exfalso. unfold v3Setup in Hs.
    destruct (negb (providerAvailable w)); [congruence|].
    destruct (getV3Quoter w (quoterAddress params)); [|congruence].
    destruct (resolveRequest w params) as [rq|e'] eqn:Hr; [discriminate|].
    cbn [bind] in Hs. destruct (Hreq e' eq_refl); congruence.
Qed.

(** ** The path encoding *)

Section Strings.

Lemma append_cons (x : ascii) (a b : string) :
  String x a +:+ b = String x (a +:+ b).
Proof. reflexivity. Qed.

Lemma append_assoc (a b c : string) : (a +:+ b) +:+ c = a +:+ (b +:+ c).
Proof.
  induction a as [|x a IH]; [reflexivity|].
  rewrite !append_cons, IH. reflexivity.
Qed.

Lemma length_append (a b : string) :
  String.length (a +:+ b) = (String.length a + String.length b)%nat.
Proof.
  induction a as [|x a IH]; [reflexivity|].
  rewrite append_cons. simpl. rewrite IH. reflexivity.
Qed.

Lemma length_mapChars (f : ascii -> ascii) (s : string) :
  String.length (Js.mapChars f s) = String.length s.
Proof. induction s as [|x s IH]; simpl; [reflexivity|]. rewrite IH. reflexivity. Qed.

Lemma length_stringOfChars (l : list ascii) :
  String.length (Js.stringOfChars l) = length l.
Proof. induction l as [|x l IH]; simpl; [reflexivity|]. rewrite IH. reflexivity. Qed.

Lemma length_repeatChar (k : nat) (c : ascii) : String.length (Js.repeatChar k c) = k.
Proof. induction k as [|k IH]; simpl; [reflexivity|]. rewrite IH. reflexivity. Qed.

Lemma stringOfChars_app (l1 l2 : list ascii) :
  Js.stringOfChars (l1 ++ l2)%list = Js.stringOfChars l1 +:+ Js.stringOfChars l2.
Proof.
  induction l1 as [|x l1 IH]; [reflexivity|].
  cbn [app Js.stringOfChars foldr]. fold (Js.stringOfChars (l1 ++ l2)%list).
  fold (Js.stringOfChars l1). rewrite IH, append_cons. reflexivity.
Qed.

Lemma splitAt_append (a b : string) :
  PathFormat.splitAt (String.length a) (a +:+ b) = Some (a, b).
Proof.
  induction a as [|x a IH]; [reflexivity|].
  rewrite append_cons. cbn [String.length PathFormat.splitAt].
  rewrite IH. reflexivity.
Qed.

Lemma nonempty_of_length (s : string) :
  (0 < String.length s)%nat -> exists c r, s = String c r.
Proof. destruct s as [|c r]; simpl; [lia|]. intros _. eauto. Qed.

End Strings.

(** *** Hexadecimal digits *)

Lemma hexValue_hexDigit (d : N) :
  (d < 16)%N -> PathFormat.hexValue (Js.hexDigit d) = Some d.
Proof.
  intros Hd.
  assert (H : exists k : nat, (k < 16)%nat /\ d = N.of_nat k)
    by (exists (N.to_nat d); split; lia).
  destruct H as (k & Hk & ->).
  do 16 (destruct k as [|k]; [reflexivity|]). lia.
Qed.

Lemma isHexChar_lowerChar (c : ascii) :
  Js.isHexChar c = true -> Js.isHexChar (Js.lowerChar c) = true.
Proof.
  destruct c as [[] [] [] [] [] [] [] []]; vm_compute; intros H; exact H.
Qed.

Lemma parseHexFrom_app (l1 l2 : list ascii) (acc : N) :
  PathFormat.parseHexFrom acc (Js.stringOfChars (l1 ++ l2)%list)
  = PathFormat.parseHexFrom acc (Js.stringOfChars l1)
      ≫= (fun a => PathFormat.parseHexFrom a (Js.stringOfChars l2)).
Proof.
  revert acc.
  induction l1 as [|x l1 IH]; intros acc; [reflexivity|].
  cbn [app Js.stringOfChars foldr PathFormat.parseHexFrom].
  fold (Js.stringOfChars (l1 ++ l2)%list). fold (Js.stringOfChars l1).
  destruct (PathFormat.hexValue x) as [d|]; [|reflexivity].
  cbn [mbind option_bind]. apply IH.
Qed.

Lemma parseHex_digits (fuel : nat) (n : N) :
  (n < 2 ^ N.of_nat fuel)%N ->
  PathFormat.parseHexFrom 0 (Js.stringOfChars (reverse (Js.hexDigitsLE fuel n)))
  = Some n.
Proof.
  revert n.
  induction fuel as [|fuel IH]; intros n Hn.
  - change (2 ^ N.of_nat 0)%N with 1%N in Hn.
    replace n with 0%N by lia. reflexivity.
  - cbn [Js.hexDigitsLE]. rewrite reverse_cons, parseHexFrom_app.
    assert (Hd : (n mod 16 < 16)%N) by (apply N.mod_lt; lia).
    pose proof (N.div_mod n 16 ltac:(lia)) as Hdm.
    destruct (N.eqb_spec (n / 16) 0) as [Hz|Hnz].
    + rewrite reverse_nil.
      cbn [Js.stringOfChars foldr PathFormat.parseHexFrom mbind option_bind].
      rewrite (hexValue_hexDigit _ Hd). cbn [mbind option_bind]. f_equal. lia.
    + rewrite IH.
      * cbn [mbind option_bind Js.stringOfChars foldr PathFormat.parseHexFrom].
        rewrite (hexValue_hexDigit _ Hd). cbn [mbind option_bind]. f_equal. lia.
      * rewrite Nat2N.inj_succ, N.pow_succ_r' in Hn.
        apply N.Div0.div_lt_upper_bound. lia.
Qed.

Lemma parseHexFrom_zeros (k : nat) (s : string) :
  PathFormat.parseHexFrom 0 (Js.repeatChar k "0" +:+ s) = PathFormat.parseHexFrom 0 s.
Proof.
  induction k as [|k IH]; [reflexivity|].
  cbn [Js.repeatChar]. rewrite append_cons. exact IH.
Qed.

Lemma length_hexDigitsLE (fuel k : nat) (n : N) :
  (1 <= k)%nat -> (n < 16 ^ N.of_nat k)%N ->
  (length (Js.hexDigitsLE fuel n) <= k)%nat.
Proof.
  revert k n.
  induction fuel as [|fuel IH]; intros k n Hk Hn; simpl; [lia|].
  destruct (N.eqb_spec (n / 16) 0) as [Hz|Hnz]; simpl; [lia|].
  destruct k as [|[|k]]; [lia| |].
  - exfalso. apply Hnz. apply N.div_small. simpl in Hn. lia.
  - specialize (IH (S k) (n / 16)%N ltac:(lia)).
    rewrite Nat2N.inj_succ, N.pow_succ_r' in Hn.
    assert (n / 16 < 16 ^ N.of_nat (S k))%N
      by (apply N.Div0.div_lt_upper_bound; lia).
    specialize (IH H). lia.
Qed.

(** *** Fee and asset fields *)

Lemma toString16_uint24 (fee : Z) :
  PathFormat.isUint24 fee ->
  (String.length (Js.toString16 fee) <= 6)%nat
  /\ PathFormat.parseHex (Js.toString16 fee) = Some (Z.to_N fee).
Proof.
  intros [Hlo Hhi]. unfold Js.toString16.
  replace (fee <? 0) with false by (symmetry; apply Z.ltb_ge; exact Hlo).
  rewrite Z.abs_eq by exact Hlo.
  set (m := Z.to_N fee).
  assert (Hm : (m < 16 ^ N.of_nat 6)%N).
  { change (16 ^ N.of_nat 6)%N with (Z.to_N (2 ^ 24)). unfold m. lia. }
  split.
  - rewrite length_stringOfChars, length_reverse.
    apply length_hexDigitsLE; [lia|exact Hm].
  - apply parseHex_digits.
    destruct (N.eq_dec m 0%N) as [->|Hnz]; [reflexivity|].
    rewrite Nat2N.inj_succ, N2Nat.id.
    apply N.log2_spec. lia.
Qed.

Lemma feeHex_uint24 (fee : Z) :
  PathFormat.isUint24 fee ->
  String.length (feeHex fee) = 6%nat
  /\ PathFormat.parseHex (feeHex fee) = Some (Z.to_N fee).
Proof.
  intros Hfee. destruct (toString16_uint24 fee Hfee) as [Hlen Hparse].
  unfold feeHex, Js.padStart. split.
  - rewrite length_append, length_repeatChar. lia.
  - unfold PathFormat.parseHex. rewrite parseHexFrom_zeros. exact Hparse.
Qed.

Lemma allChars_lower_hex (s : string) :
  Js.allChars Js.isHexChar s = true ->
  Js.allChars Js.isHexChar (Js.mapChars Js.lowerChar s) = true.
Proof.
  induction s as [|c s IH]; simpl; [reflexivity|].
  intros H. apply andb_true_iff in H as [Hc Hs].
  rewrite (isHexChar_lowerChar c Hc), (IH Hs). reflexivity.
Qed.

Lemma tokenHex_address (token : string) :
  Js.isAddress token = true ->
  String.length (tokenHex token) = 40%nat
  /\ Js.allChars Js.isHexChar (tokenHex token) = true
  /\ "0x" +:+ tokenHex token = Js.toLowerCase token.
Proof.
  intros H. unfold Js.isAddress in H.
  destruct token as [|c0 token]; [discriminate|].
  destruct c0 as [[] [] [] [] [] [] [] []]; try discriminate H.
  destruct token as [|c1 body]; [discriminate|].
  destruct c1 as [[] [] [] [] [] [] [] []]; try discriminate H.
  apply andb_true_iff in H as [Hlen Hhex].
  apply Nat.eqb_eq in Hlen.
  change (tokenHex (String "0" (String "x" body))) with (Js.mapChars Js.lowerChar body).
  split; [rewrite length_mapChars; exact Hlen|].
  split; [apply allChars_lower_hex; exact Hhex|reflexivity].
Qed.

(** *** The encoder writes the layout *)

Lemma foldl_hops_layout (fs : list Z) (ts : list string)
    (preF : list Z) (preT : list string) (acc : string) :
  length preT = S (length preF) ->
  length ts = length fs ->
  foldl (fun hex i =>
           hex +:+ feeHex (default 0 ((preF ++ fs)%list !! i))
               +:+ tokenHex (default "" ((preT ++ ts)%list !! S i)))
        acc (seq (length preF) (length fs))
  = acc +:+ PathFormat.hopsLayout fs ts.
Proof.
  revert ts preF preT acc.
  induction fs as [|f fs IH]; intros ts preF preT acc Hpre Hlen.
  - destruct ts; [|discriminate]. simpl.
    induction acc as [|c acc IHacc]; [reflexivity|].
    rewrite append_cons. f_equal. exact IHacc.
  - destruct ts as [|t ts]; [discriminate|].
    cbn [length seq foldl PathFormat.hopsLayout].
    rewrite (list_lookup_middle preF fs f (length preF) eq_refl).
    replace (S (length preF)) with (length preT) at 1 by exact Hpre.
    rewrite (list_lookup_middle preT ts t (length preT) eq_refl).
    cbn [from_option id].
    specialize (IH ts (preF ++ [f])%list (preT ++ [t])%list
                  (acc +:+ feeHex f +:+ tokenHex t)).
    rewrite !length_app in IH. cbn [length] in IH.
    rewrite !Nat.add_1_r, <- !app_assoc in IH. cbn [app] in IH.
    rewrite IH by (simpl in Hlen; lia).
    rewrite !append_assoc. reflexivity.
Qed.

Lemma encodeV3Path_layout (tokens : list string) (fees : list Z) :
  (2 <= length tokens)%nat ->
  length fees = (length tokens - 1)%nat ->
  encodeV3Path tokens fees = Ok (PathFormat.pathLayout tokens fees).
Proof.
  intros H2 Hlen. unfold encodeV3Path.
  replace (length tokens <? 2)%nat with false by (symmetry; apply Nat.ltb_ge; exact H2).
  replace (length fees =? length tokens - 1)%nat with true
    by (symmetry; apply Nat.eqb_eq; exact Hlen).
  cbn [negb]. f_equal.
  destruct tokens as [|t0 ts]; [simpl in H2; lia|].
  cbn [PathFormat.pathLayout lookup list_lookup from_option id].
  rewrite (foldl_hops_layout fees ts [] [t0]); [|reflexivity|simpl in Hlen; lia].
  rewrite append_assoc. reflexivity.
Qed.

(** *** Decoding the layout *)

Lemma decodeHops_nonempty (fuel : nat) (s : string) :
  (0 < String.length s)%nat ->
  PathFormat.decodeHops (S fuel) s
  = fr ← PathFormat.splitAt 6 s;
    fee ← PathFormat.parseHex fr.1;
    tr ← PathFormat.splitAt 40 fr.2;
    if Js.allChars Js.isHexChar tr.1 then
      hops ← PathFormat.decodeHops fuel tr.2;
      Some ((Z.of_N fee, "0x" +:+ tr.1) :: hops)
    else None.
Proof.
  intros H. destruct (nonempty_of_length s H) as (c & r & ->). reflexivity.
Qed.

Lemma length_hopsLayout (fs : list Z) (ts : list string) :
  length ts = length fs ->
  Forall PathFormat.isUint24 fs ->
  Forall (fun t => Js.isAddress t = true) ts ->
  String.length (PathFormat.hopsLayout fs ts) = (46 * length fs)%nat.
Proof.
  revert ts.
  induction fs as [|f fs IH]; intros ts Hlen Hf Ht.
  - destruct ts; [reflexivity|discriminate].
  - destruct ts as [|t ts]; [discriminate|].
    apply Forall_cons in Hf as [Hf Hfs]. apply Forall_cons in Ht as [Ht Hts].
    cbn [PathFormat.hopsLayout length].
    rewrite !length_append, (IH ts) by (simpl in Hlen; lia || assumption).
    destruct (feeHex_uint24 f Hf) as [-> _].
    destruct (tokenHex_address t Ht) as (-> & _). lia.
Qed.

Lemma decodeHops_layout (fs : list Z) (ts : list string) (fuel : nat) :
  length ts = length fs ->
  Forall PathFormat.isUint24 fs ->
  Forall (fun t => Js.isAddress t = true) ts ->
  (length fs <= fuel)%nat ->
  PathFormat.decodeHops fuel (PathFormat.hopsLayout fs ts)
  = Some (zip fs (Js.toLowerCase <$> ts)).
Proof.
  revert ts fuel.
  induction fs as [|f fs IH]; intros ts fuel Hlen Hf Ht Hfuel.
  - destruct ts; [|discriminate]. destruct fuel; reflexivity.
  - destruct ts as [|t ts]; [discriminate|].
    destruct fuel as [|fuel]; [simpl in Hfuel; lia|].
    apply Forall_cons in Hf as [Hf Hfs]. apply Forall_cons in Ht as [Ht Hts].
    destruct (feeHex_uint24 f Hf) as [Hflen Hfparse].
    destruct (tokenHex_address t Ht) as (Htlen & Hthex & Htlow).
    cbn [PathFormat.hopsLayout].
    rewrite decodeHops_nonempty by (rewrite length_append; lia).
    rewrite <- Hflen at 1. rewrite splitAt_append.
    cbn [mbind option_bind fst snd]. rewrite Hfparse.
    cbn [mbind option_bind]. rewrite <- Htlen at 1. rewrite splitAt_append.
    cbn [mbind option_bind fst snd]. rewrite Hthex.
    rewrite (IH ts fuel) by (simpl in Hlen, Hfuel; lia || assumption).
    cbn [mbind option_bind fmap list_fmap zip zip_with].
    rewrite Htlow, Z2N.id by (destruct Hf; assumption). reflexivity.
Qed.

(** C5, as stated, fails, in two ways.  The encoder lower-cases its tokens,
    so the checksum-cased addresses of the token table and their lower-case
    spellings encode to the same bytes, and no decoder returns the exact
    token sequence for every input.  And a fee of 2^24 does not fit three
    bytes: the encoder writes seven digits, the text is one digit longer
    than two 20-byte assets and a 3-byte fee, and it does not decode. *)
Lemma v3_path_round_trip_fails :
  (~ exists decode : string -> list string * list Z,
       forall (tokens : list string) (fees : list Z) (hex : string),
         (2 <= length tokens)%nat ->
         length fees = (length tokens - 1)%nat ->
         encodeV3Path tokens fees = Ok hex ->
         decode hex = (tokens, fees))
  /\ exists hex : string,
       encodeV3Path [Examples.USDT; Examples.WBNB] [16777216] = Ok hex
       /\ String.length hex = (2 + 40 + 7 + 40)%nat
       /\ PathFormat.decodeV3Path hex = None.
Proof.
  split.
  - intros (decode & H).
    pose (hex := "0x55d398326f99059ff775485246999027b31979550001f4bb4cdb9cbd36b01bd1cbaebf2de08d9173bc095c").
    assert (E1 : decode hex = ([Examples.USDT; Examples.WBNB], [500])).
    { apply H; [simpl; lia|reflexivity|vm_compute; reflexivity]. }
    assert (E2 : decode hex
                 = ([Js.toLowerCase Examples.USDT; Js.toLowerCase Examples.WBNB], [500])).
    { apply H; [simpl; lia|reflexivity|vm_compute; reflexivity]. }
    rewrite E1 in E2. vm_compute in E2. discriminate E2.
  - eexists. split; [vm_compute; reflexivity|]. split; reflexivity.
Qed.

(** C5, amended. For tokens that are addresses ([0x] and 40 hexadecimal
    digits) and fees that fit 24 bits, the encoder writes the layout
    [asset0 | fee0 | asset1 | fee1 | asset2 | ...] with every asset as its
    40 lower-case hexadecimal digits (20 bytes) and every fee as 6
    hexadecimal digits (3 bytes), and decoding that text gives back the
    fees exactly and the tokens in lower case. *)
Theorem v3_path_layout_and_round_trip (tokens : list string) (fees : list Z) :
  (2 <= length tokens)%nat ->
  length fees = (length tokens - 1)%nat ->
  Forall (fun t => Js.isAddress t = true) tokens ->
  Forall PathFormat.isUint24 fees ->
  encodeV3Path tokens fees = Ok (PathFormat.pathLayout tokens fees)
  /\ Forall (fun t => String.length (tokenHex t) = 40%nat) tokens
  /\ Forall (fun f => String.length (feeHex f) = 6%nat) fees
  /\ PathFormat.decodeV3Path (PathFormat.pathLayout tokens fees)
     = Some (Js.toLowerCase <$> tokens, fees).
Proof.
  intros H2 Hlen Ht Hf.
  split; [apply encodeV3Path_layout; assumption|].
  split; [eapply Forall_impl; [exact Ht|]; intros t Hadd;
          apply (tokenHex_address t Hadd)|].
  split; [eapply Forall_impl; [exact Hf|]; intros f Hfee;
          apply (feeHex_uint24 f Hfee)|].
  destruct tokens as [|t0 ts]; [simpl in H2; lia|].
  apply Forall_cons in Ht as [Ht0 Hts].
  destruct (tokenHex_address t0 Ht0) as (Hlen0 & Hhex0 & Hlow0).
  assert (Hlen' : length ts = length fees) by (simpl in Hlen; lia).
  cbn [PathFormat.pathLayout]. rewrite !append_cons.
  change (EmptyString +:+ ?s) with s.
  cbn [PathFormat.decodeV3Path].
  rewrite <- Hlen0 at 1. rewrite splitAt_append.
  cbn [mbind option_bind fst snd]. rewrite Hhex0.
  rewrite (decodeHops_layout fees ts _ Hlen' Hf Hts)
    by (rewrite (length_hopsLayout fees ts Hlen' Hf Hts); lia).
  cbn [mbind option_bind fmap list_fmap].
  change (list_fmap ?A ?B ?f ?l) with (f <$> l).
  rewrite snd_zip, fst_zip, Hlow0 by (rewrite ?length_fmap; lia).
  reflexivity.
Qed.

Lemma v3_path_layout_and_round_trip_witness :
  let tokens := [Examples.USDT; Examples.WBNB;
                 "0x8ac76a51cc950d9822d68b83fe1ad97b32cd580d"] in
  let fees := [500; 10000] in
  (2 <= length tokens)%nat
  /\ length fees = (length tokens - 1)%nat
  /\ Forall (fun t => Js.isAddress t = true) tokens
  /\ Forall PathFormat.isUint24 fees
  /\ encodeV3Path tokens fees = Ok (PathFormat.pathLayout tokens fees)
  /\ Forall (fun t => String.length (tokenHex t) = 40%nat) tokens
  /\ Forall (fun f => String.length (feeHex f) = 6%nat) fees
  /\ PathFormat.decodeV3Path (PathFormat.pathLayout tokens fees)
     = Some (Js.toLowerCase <$> tokens, fees).
Proof.
  intros tokens fees.
  assert (H1 : (2 <= length tokens)%nat) by (simpl; lia).
  assert (H2 : length fees = (length tokens - 1)%nat) by reflexivity.
  assert (H3 : Forall (fun t => Js.isAddress t = true) tokens)
    by (repeat constructor).
  assert (H4 : Forall PathFormat.isUint24 fees)
    by (repeat constructor; unfold PathFormat.isUint24; simpl; lia).
  split; [exact H1|]. split; [exact H2|]. split; [exact H3|]. split; [exact H4|].
  exact (v3_path_layout_and_round_trip tokens fees H1 H2 H3 H4).
Defined.

(** The bytes of the three-asset path above. *)
Example encoded_path_bytes :
  encodeV3Path [Examples.USDT; Examples.WBNB;
                "0x8ac76a51cc950d9822d68b83fe1ad97b32cd580d"] [500; 10000]
  = Ok ("0x" +:+ "55d398326f99059ff775485246999027b3197955" +:+ "0001f4"
             +:+ "bb4cdb9cbd36b01bd1cbaebf2de08d9173bc095c" +:+ "002710"
             +:+ "8ac76a51cc950d9822d68b83fe1ad97b32cd580d").
Proof. vm_compute. reflexivity. Qed.

(** * Further properties of the module *)

(** ** Case conversions *)

Lemma upperChar_idem (c : ascii) : Js.upperChar (Js.upperChar c) = Js.upperChar c.
Proof. destruct c as [[] [] [] [] [] [] [] []]; reflexivity. Qed.

Lemma lowerChar_idem (c : ascii) : Js.lowerChar (Js.lowerChar c) = Js.lowerChar c.
Proof. destruct c as [[] [] [] [] [] [] [] []]; reflexivity. Qed.

Lemma upperChar_lowerChar (c : ascii) :
  isAsciiChar c = true -> Js.upperChar (Js.lowerChar c) = Js.upperChar c.
Proof. destruct c as [[] [] [] [] [] [] [] []]; intros _; reflexivity. Qed.

Lemma mapChars_compose (f g h : ascii -> ascii) (s : string) :
  (forall c, f (g c) = h c) ->
  Js.mapChars f (Js.mapChars g s) = Js.mapChars h s.
Proof.
  intros Hc. induction s as [|c s IH]; simpl; [reflexivity|].
  rewrite Hc, IH. reflexivity.
Qed.

Lemma toUpperCase_idem (s : string) :
  Js.toUpperCase (Js.toUpperCase s) = Js.toUpperCase s.
Proof. apply mapChars_compose, upperChar_idem. Qed.

Lemma toLowerCase_idem (s : string) :
  Js.toLowerCase (Js.toLowerCase s) = Js.toLowerCase s.
Proof. apply mapChars_compose, lowerChar_idem. Qed.

(** On ASCII text lower-casing does not change the upper-case spelling. *)
Lemma toUpperCase_toLowerCase (s : string) :
  isAsciiText s = true ->
  Js.toUpperCase (Js.toLowerCase s) = Js.toUpperCase s.
Proof.
  unfold isAsciiText, Js.toUpperCase, Js.toLowerCase.
  induction s as [|c s IH]; [reflexivity|].
  cbn [Js.allChars Js.mapChars]. intros H. apply andb_true_iff in H as [Hc Hs].
  rewrite (upperChar_lowerChar c Hc), (IH Hs). reflexivity.
Qed.

(** ** [estimateSwapFeesBps] *)

(** X1. The fallback fee estimate is symmetric in its two symbols and
    depends on them only through their upper-case spelling, so that on
    ASCII symbols it ignores letter case; it is 0 exactly for a symbol
    against itself, 25 between two different stable coins and 50
    otherwise. *)
Theorem estimateSwapFeesBps_symmetric (a b : string) :
  estimateSwapFeesBps a b = estimateSwapFeesBps b a
  /\ estimateSwapFeesBps (Js.toUpperCase a) b = estimateSwapFeesBps a b
  /\ (isAsciiText a = true ->
      estimateSwapFeesBps (Js.toLowerCase a) b = estimateSwapFeesBps a b)
  /\ (estimateSwapFeesBps a b = 0 <-> Js.toUpperCase a = Js.toUpperCase b)
  /\ (estimateSwapFeesBps a b = 25 <->
      Js.toUpperCase a <> Js.toUpperCase b
      /\ Js.toUpperCase a ∈ stableSet /\ Js.toUpperCase b ∈ stableSet)
  /\ (estimateSwapFeesBps a b = 0 \/ estimateSwapFeesBps a b = 25
      \/ estimateSwapFeesBps a b = 50).
Proof.
  assert (Hin : forall s, inStableSet s = true <-> s ∈ stableSet).
  { intros s. unfold inStableSet, stableSet. rewrite existsb_exists. split.
    - intros (x & Hx & He). apply String.eqb_eq in He. subst x.
      apply list_elem_of_In. exact Hx.
    - intros Hs. exists s. split; [apply list_elem_of_In; exact Hs|apply String.eqb_refl]. }
  unfold estimateSwapFeesBps. rewrite toUpperCase_idem.
  split; [|split; [reflexivity|split]].
  - set (ua := Js.toUpperCase a). set (ub := Js.toUpperCase b).
    rewrite (String.eqb_sym ub ua), (andb_comm (inStableSet ub)). reflexivity.
  - intros Ha. rewrite (toUpperCase_toLowerCase a Ha). reflexivity.
  - set (ua := Js.toUpperCase a). set (ub := Js.toUpperCase b).
    destruct (String.eqb_spec ua ub) as [He|Hne].
    + split; [tauto|]. split; [|auto]. split; [discriminate|]. intros [H _]. contradiction.
    + destruct (inStableSet ua && inStableSet ub) eqn:Hs.
      * apply andb_true_iff in Hs as [Ha Hb]. apply Hin in Ha, Hb.
        split; [split; [discriminate|contradiction]|]. split; [tauto|auto].
      * split; [split; [discriminate|contradiction]|]. split; [|auto].
        split; [discriminate|]. intros (_ & Ha & Hb). apply Hin in Ha, Hb.
        rewrite Ha, Hb in Hs. discriminate.
Qed.

(** ** The token directory *)

(** X2. Symbol lookup goes through the upper-case spelling: a symbol and
    its upper-case spelling resolve to the same address (or both fail), and
    so does the lower-case spelling of an ASCII symbol. *)
Theorem getKnownTokenAddress_ignores_case (w : World) (symbol : string) :
  getKnownTokenAddress w (Js.toUpperCase symbol) = getKnownTokenAddress w symbol
  /\ (isAsciiText symbol = true ->
      getKnownTokenAddress w (Js.toLowerCase symbol) = getKnownTokenAddress w symbol).
Proof.
  unfold getKnownTokenAddress, getTokenAddressFromEnv.
  rewrite !toUpperCase_idem. split; [reflexivity|].
  intros Hascii. rewrite (toUpperCase_toLowerCase symbol Hascii). reflexivity.
Qed.

Lemma getKnownTokenAddress_ignores_case_witness :
  let w := Examples.flatWorld in
  let symbol := "Cake" in
  isAsciiText symbol = true
  /\ getKnownTokenAddress w "CAKE" = Some "0x0E09Fabb73Bd3Ade0a17ECC321fD13a19e81cE82"
  /\ getKnownTokenAddress w (Js.toUpperCase symbol) = getKnownTokenAddress w symbol
  /\ getKnownTokenAddress w (Js.toLowerCase symbol) = getKnownTokenAddress w symbol.
Proof.
  intros w symbol.
  assert (H1 : isAsciiText symbol = true) by reflexivity.
  split; [exact H1|]. split; [vm_compute; reflexivity|].
  destruct (getKnownTokenAddress_ignores_case w symbol) as [Hup Hlow].
  split; [exact Hup|exact (Hlow H1)].
Defined.

Lemma isAddress_nonempty (s : string) : Js.isAddress s = true -> s <> "".
Proof. intros H ->. discriminate H. Qed.

Lemma trim_empty_of_empty (v : string) : v = "" -> Js.trim v = "".
Proof. intros ->. reflexivity. Qed.

(** X3. An [ADDR_<SYMBOL>] environment entry that holds an address (after
    trimming) overrides the built-in table and is returned trimmed; an
    entry that does not hold an address is ignored and the table answers. *)
Theorem env_address_overrides_table (w : World) (symbol v : string) :
  env w !! ("ADDR_" +:+ Js.toUpperCase symbol) = Some v ->
  (Js.isAddress (Js.trim v) = true ->
   getKnownTokenAddress w symbol = Some (Js.trim v))
  /\ (Js.isAddress (Js.trim v) = false ->
      getKnownTokenAddress w symbol
      = Js.truthy (KNOWN_TOKENS w !! Js.toUpperCase symbol)).
Proof.
  intros Hv. unfold getKnownTokenAddress, getTokenAddressFromEnv.
  rewrite toUpperCase_idem, Hv.
  split; intros Ha.
  - destruct v as [|c v]; [discriminate Ha|]. simpl Js.truthy. cbv iota.
    rewrite Ha. reflexivity.
  - destruct v as [|c v]; [reflexivity|]. simpl Js.truthy. cbv iota.
    rewrite Ha. reflexivity.
Qed.

Lemma env_address_overrides_table_witness :
  let w := {| env := <["ADDR_USDT" := "  0x00000000000000000000000000000000000000aA "]> ∅;
              providerAvailable := true;
              DEFAULT_V3_FEE_TIERS := [];
              fetchTokenDecimals := fun _ => 18;
              parseUnits := fun _ _ => None;
              formatUnits := fun _ _ => "";
              numberOfString := fun _ => 0%float;
              requestOneInchQuote := fun _ _ _ => None;
              fetchGasPriceNow := None;
              getAmountsOut := fun _ _ => None;
              quoteExactInputStatic := fun _ _ _ => None;
              quoteExactInputCall := fun _ _ _ => None;
              quoteExactInputSingleLegacy := fun _ _ _ _ _ => None;
              quoteExactInputSingleStruct := fun _ _ _ _ _ => None |} in
  let v := "  0x00000000000000000000000000000000000000aA " in
  env w !! ("ADDR_" +:+ Js.toUpperCase "usdt") = Some v
  /\ (Js.isAddress (Js.trim v) = true ->
      getKnownTokenAddress w "usdt" = Some (Js.trim v))
  /\ (Js.isAddress (Js.trim v) = false ->
      getKnownTokenAddress w "usdt"
      = Js.truthy (KNOWN_TOKENS w !! Js.toUpperCase "usdt")).
Proof.
  intros w v.
  assert (H : env w !! ("ADDR_" +:+ Js.toUpperCase "usdt") = Some v)
    by (vm_compute; reflexivity).
  split; [exact H|].
  exact (env_address_overrides_table w "usdt" v H).
Defined.

Lemma truthy_Some (o : option string) (a : string) :
  Js.truthy o = Some a -> o = Some a /\ a <> "".
Proof.
  destruct o as [[|c s]|]; try discriminate.
  simpl. intros H. inversion H. split; [reflexivity|discriminate].
Qed.

Lemma known_tokens_well_formed (w : World) (key a : string) :
  Js.isAddress (DEFAULT_WBNB w) = true ->
  Js.truthy (KNOWN_TOKENS w !! key) = Some a ->
  Js.isAddress a = true.
Proof.
  intros Hw H. apply truthy_Some in H as [Hk _].
  unfold KNOWN_TOKENS in Hk. apply elem_of_list_to_map_2 in Hk.
  repeat (apply elem_of_cons in Hk as [Hk|Hk];
          [injection Hk as -> ->; first [exact Hw|reflexivity]|]).
  inversion Hk.
Qed.

(** X4. Every address the token directory returns is well formed ([0x] and
    40 hexadecimal digits), provided the wrapped-native address in use is:
    an environment override is checked before it is returned and the
    entries of the table are addresses. *)
Theorem resolved_addresses_are_well_formed (w : World) (symbol a : string) :
  Js.isAddress (DEFAULT_WBNB w) = true ->
  getKnownTokenAddress w symbol = Some a ->
  Js.isAddress a = true.
Proof.
  intros Hw. unfold getKnownTokenAddress, getTokenAddressFromEnv.
  destruct (Js.truthy (env w !! _)) as [val|].
  - destruct (Js.isAddress (Js.trim val)) eqn:Hval.
    + intros H. inversion H; subst. exact Hval.
    + apply known_tokens_well_formed, Hw.
  - apply known_tokens_well_formed, Hw.
Qed.

Lemma resolved_addresses_are_well_formed_witness :
  Js.isAddress (DEFAULT_WBNB Examples.flatWorld) = true
  /\ getKnownTokenAddress Examples.flatWorld "bnb" = Some Examples.WBNB
  /\ Js.isAddress Examples.WBNB = true.
Proof.
  assert (H1 : Js.isAddress (DEFAULT_WBNB Examples.flatWorld) = true)
    by (vm_compute; reflexivity).
  assert (H2 : getKnownTokenAddress Examples.flatWorld "bnb" = Some Examples.WBNB)
    by (vm_compute; reflexivity).
  split; [exact H1|]. split; [exact H2|].
  exact (resolved_addresses_are_well_formed Examples.flatWorld "bnb" Examples.WBNB H1 H2).
Defined.

(** ** More on [uniqueAddresses] *)

Lemma sameAddress_sym (a b : string) : sameAddress a b = sameAddress b a.
Proof. unfold sameAddress. apply String.eqb_sym. Qed.

Lemma dedupAfter_clean (r : list string) (x : string) :
  hasConsecutiveDuplicate (x :: r) = false -> dedupAfter x r = r.
Proof.
  revert x. induction r as [|y r IH]; intros x H; [reflexivity|].
  cbn [hasConsecutiveDuplicate] in H. apply orb_false_elim in H as [Hxy Hr].
  cbn [dedupAfter]. rewrite sameAddress_sym, Hxy. f_equal. apply IH, Hr.
Qed.

(** X5. [uniqueAddresses] leaves a path unchanged exactly when the path
    has no two consecutive entries of the same address; in particular it
    is idempotent. *)
Theorem uniqueAddresses_fixes_exactly_clean_paths (p : list string) :
  (uniqueAddresses p = p <-> hasConsecutiveDuplicate p = false)
  /\ uniqueAddresses (uniqueAddresses p) = uniqueAddresses p.
Proof.
  assert (Hfix : forall q, hasConsecutiveDuplicate q = false -> uniqueAddresses q = q).
  { intros [|x r] Hq; [reflexivity|].
    rewrite uniqueAddresses_cons, (dedupAfter_clean r x Hq). reflexivity. }
  split.
  - split; [|apply Hfix].
    intros H. rewrite <- H. apply uniqueAddresses_no_duplicate.
  - apply Hfix, uniqueAddresses_no_duplicate.
Qed.

Lemma dedupAfter_sublist (r : list string) (prev : string) :
  dedupAfter prev r `sublist_of` r.
Proof.
  revert prev. induction r as [|y r IH]; intros prev; [constructor|].
  cbn [dedupAfter]. destruct (sameAddress y prev).
  - apply sublist_cons, IH.
  - apply sublist_skip, IH.
Qed.

Lemma dedupAfter_last (r : list string) (prev x : string) :
  Js.toLowerCase x = Js.toLowerCase prev ->
  exists l l0 : string,
    last (x :: dedupAfter prev r) = Some l
    /\ last (prev :: r) = Some l0
    /\ Js.toLowerCase l = Js.toLowerCase l0.
Proof.
  revert prev x. induction r as [|y r IH]; intros prev x Hx.
  - exists x, prev. repeat split. exact Hx.
  - cbn [dedupAfter]. destruct (sameAddress y prev) eqn:Hy.
    + apply sameAddress_true in Hy.
      destruct (IH y x ltac:(congruence)) as (l & l0 & Hl & Hl0 & Heq).
      exists l, l0. repeat split; assumption.
    + destruct (IH y y eq_refl) as (l & l0 & Hl & Hl0 & Heq).
      exists l, l0. repeat split; assumption.
Qed.

Lemma uniqueAddresses_head (p : list string) : head (uniqueAddresses p) = head p.
Proof. destruct p; [reflexivity|]. rewrite uniqueAddresses_cons. reflexivity. Qed.

Lemma uniqueAddresses_last (p : list string) (l0 : string) :
  last p = Some l0 ->
  exists l : string, last (uniqueAddresses p) = Some l /\ sameAddress l l0 = true.
Proof.
  destruct p as [|x r]; [discriminate|]. intros Hl0.
  rewrite uniqueAddresses_cons.
  destruct (dedupAfter_last r x x eq_refl) as (l & l0' & Hl & Hl0' & Heq).
  exists l. split; [exact Hl|]. apply sameAddress_true. congruence.
Qed.

(** X6. The output of [uniqueAddresses] is a subsequence of its input (the
    order is kept and nothing is added), it starts with the same entry,
    and it ends with the address the input ends with, up to letter case. *)
Theorem uniqueAddresses_is_subsequence (p : list string) :
  uniqueAddresses p `sublist_of` p
  /\ head (uniqueAddresses p) = head p
  /\ (length (uniqueAddresses p) <= length p)%nat
  /\ forall l0 : string,
       last p = Some l0 ->
       exists l : string,
         last (uniqueAddresses p) = Some l /\ sameAddress l l0 = true.
Proof.
  destruct p as [|x r].
  - split; [constructor|]. split; [reflexivity|]. split; [reflexivity|].
    intros l0 H. discriminate H.
  - rewrite uniqueAddresses_cons.
    assert (Hsub : x :: dedupAfter x r `sublist_of` x :: r)
      by (apply sublist_skip, dedupAfter_sublist).
    split; [exact Hsub|]. split; [reflexivity|].
    split; [apply sublist_length, Hsub|].
    intros l0 Hl0. rewrite <- uniqueAddresses_cons.
    apply uniqueAddresses_last, Hl0.
Qed.

(** ** Shape of the candidates *)

Section CandidateShape.
Context (w : World) (fromAddr toAddr : string).

Lemma uniqueAddresses_pathFromTo (raw : list string) :
  head raw = Some fromAddr ->
  last raw = Some toAddr ->
  (2 <= length (uniqueAddresses raw))%nat ->
  pathFromTo fromAddr toAddr (uniqueAddresses raw).
Proof.
  intros Hh Hl Hlen.
  split; [rewrite uniqueAddresses_head; exact Hh|].
  split; [apply uniqueAddresses_last, Hl|exact Hlen].
Qed.

Lemma addPath_shape (amh : bool) (mh : Z) (c : list (list string)) (raw : list string) :
  head raw = Some fromAddr ->
  last raw = Some toAddr ->
  (amh = false -> raw = [fromAddr; toAddr]) ->
  Forall (v2Shape fromAddr toAddr amh mh) c ->
  Forall (v2Shape fromAddr toAddr amh mh) (addPath amh mh c raw).
Proof.
  intros Hh Hl Hraw Hc. unfold addPath.
  destruct (2 <=? length (uniqueAddresses raw))%nat eqn:H2; [|exact Hc].
  apply Nat.leb_le in H2.
  destruct amh; cbn [negb andb].
  - destruct (Z.leb_spec (Z.of_nat (length (uniqueAddresses raw))) mh) as [Hle|Hgt];
      [|exact Hc].
    apply Forall_app. split; [exact Hc|].
    constructor; [|constructor].
    split; [apply uniqueAddresses_pathFromTo; assumption|exact Hle].
  - destruct (length (uniqueAddresses raw) =? 2)%nat eqn:He; [|exact Hc].
    apply Forall_app. split; [exact Hc|].
    constructor; [|constructor].
    split; [apply uniqueAddresses_pathFromTo; assumption|].
    rewrite (Hraw eq_refl) in *.
    destruct (sameAddress fromAddr toAddr) eqn:Hs.
    + rewrite (uniqueAddresses_pair_same _ _ Hs) in H2. simpl in H2. lia.
    + apply uniqueAddresses_pair, Hs.
Qed.

Lemma v2CandidatePaths_shape (amh : bool) (mh : Z) :
  Forall (v2Shape fromAddr toAddr amh mh) (v2CandidatePaths w fromAddr toAddr amh mh).
Proof.
  unfold v2CandidatePaths.
  assert (Hd : Forall (v2Shape fromAddr toAddr amh mh) (addPath amh mh [] [fromAddr; toAddr]))
    by (apply addPath_shape; [reflexivity..|constructor]).
  destruct amh; [|exact Hd].
  apply foldl_invariant.
  - apply foldl_invariant; [exact Hd|].
    intros c m Hc. apply addPath_shape; [reflexivity|reflexivity|discriminate|exact Hc].
  - intros c i Hc. apply foldl_invariant; [exact Hc|].
    intros c' j Hc'. destruct (i =? j)%nat; [exact Hc'|].
    apply addPath_shape; [reflexivity|reflexivity|discriminate|exact Hc'].
Qed.

End CandidateShape.

(** X7. Every candidate path of the v2 quoter starts at the source
    address, ends at the destination address (up to letter case) and has
    at least two entries; with multi-hop on it has at most the clamped
    [maxHops] entries, which is at most 4, and with multi-hop off it is the
    direct pair. *)
Theorem v2_candidates_run_from_source_to_destination
    (w : World) (params : QuoteParams) (rq : Request) :
  Forall (fun p : list string =>
            head p = Some (rq_fromAddr rq)
            /\ (exists l : string,
                  last p = Some l /\ sameAddress l (rq_toAddr rq) = true)
            /\ (2 <= length p <= 4)%nat
            /\ Z.of_nat (length p) <= clampMaxHops (maxHops params)
            /\ (jsBoolean (allowMultiHop params) = false ->
                p = [rq_fromAddr rq; rq_toAddr rq]))
         (v2Candidates w params rq).
Proof.
  unfold v2Candidates.
  eapply Forall_impl; [apply v2CandidatePaths_shape|].
  intros p ((Hh & Hl & H2) & Hb). cbv beta.
  assert (Hclamp : 2 <= clampMaxHops (maxHops params) <= 4)
    by (unfold clampMaxHops; lia).
  destruct (jsBoolean (allowMultiHop params)).
  - repeat split; intros; try assumption; try discriminate; lia.
  - subst p. repeat split; intros; try assumption; simpl; lia.
Qed.

(** ** Number of candidates *)

Lemma filter_ne_seq (i s n : nat) :
  (length (filter (fun j => j <> i) (seq s n))
   = if decide (s <= i < s + n)%nat then n - 1 else n)%nat.
Proof.
  revert s. induction n as [|n IH]; intros s.
  - simpl. destruct (decide _); reflexivity.
  - cbn [seq]. destruct (decide (s <> i)) as [Hne|He].
    + rewrite filter_cons_True by exact Hne. cbn [length]. rewrite (IH (S s)).
      repeat destruct (decide _); lia.
    + rewrite filter_cons_False by exact He. rewrite (IH (S s)).
      repeat destruct (decide _); lia.
Qed.

Lemma foldl_length_bound {A B} (f : list A -> B -> list A) (k : nat)
    (l : list B) (c : list A) :
  (forall c b, b ∈ l -> (length (f c b) <= length c + k)%nat) ->
  (length (foldl f c l) <= length c + k * length l)%nat.
Proof.
  revert c. induction l as [|b l IH]; intros c Hstep; simpl; [lia|].
  etransitivity; [apply IH|].
  - intros c' b' Hb'. apply Hstep. right. exact Hb'.
  - specialize (Hstep c b ltac:(left)). lia.
Qed.

Lemma addPath_length (amh : bool) (mh : Z) (c : list (list string)) (p : list string) :
  (length (addPath amh mh c p) <= S (length c))%nat.
Proof.
  unfold addPath. destruct (_ && _); [rewrite length_app; simpl; lia|lia].
Qed.

Lemma inner_loop_length (amh : bool) (mh : Z) (i : nat) (raw : nat -> list string)
    (l : list nat) (c : list (list string)) :
  (length (foldl (fun c j => if (i =? j)%nat then c else addPath amh mh c (raw j)) c l)
   <= length c + length (filter (fun j => j <> i) l))%nat.
Proof.
  revert c. induction l as [|j l IH]; intros c; simpl; [lia|].
  rewrite filter_cons. etransitivity; [apply IH|].
  destruct (Nat.eqb_spec i j) as [->|Hne].
  - rewrite decide_False by tauto. lia.
  - rewrite decide_True by auto. pose proof (addPath_length amh mh c (raw j)). simpl. lia.
Qed.

(** X8. The v2 quoter evaluates a bounded number of paths: one without
    multi-hop, and with [n] resolved intermediates at most
    [1 + n + n * (n - 1)] -- the direct path, one path per intermediate and
    one per ordered pair of different intermediates. *)
Theorem v2_candidate_count_is_bounded
    (w : World) (fromAddr toAddr : string) (allowMultiHop : bool) (maxHops : Z) :
  (length (v2CandidatePaths w fromAddr toAddr allowMultiHop maxHops)
   <= if allowMultiHop
      then 1 + length (interAddrs w) + length (interAddrs w) * (length (interAddrs w) - 1)
      else 1)%nat.
Proof.
  unfold v2CandidatePaths.
  pose proof (addPath_length allowMultiHop maxHops [] [fromAddr; toAddr]) as Hd.
  destruct allowMultiHop; [|exact Hd].
  set (n := length (interAddrs w)).
  set (direct := addPath true maxHops [] [fromAddr; toAddr]) in *.
  set (single := foldl _ direct (interAddrs w)).
  assert (Hs : (length single <= length direct + 1 * n)%nat).
  { apply foldl_length_bound. intros c m _. pose proof (addPath_length true maxHops c [fromAddr; m; toAddr]). lia. }
  etransitivity.
  - apply (foldl_length_bound _ (n - 1)). intros c i Hi.
    etransitivity;
      [apply (inner_loop_length true maxHops i
                (fun j => [fromAddr; default "" (interAddrs w !! i);
                           default "" (interAddrs w !! j); toAddr]))|].
    apply elem_of_seq in Hi. rewrite filter_ne_seq. destruct (decide _); lia.
  - rewrite length_seq. simpl in Hd. fold n. nia.
Qed.

(** ** Routes of the v3 quoter *)

Lemma choose_spec (tiers : list Z) (k : nat) (cur fees : list Z) :
  fees ∈ choose tiers k cur ->
  exists suffix : list Z,
    fees = (cur ++ suffix)%list /\ length suffix = k
    /\ Forall (fun fee => fee ∈ tiers) suffix.
Proof.
  revert cur. induction k as [|k IH]; intros cur Hin.
  - apply list_elem_of_singleton in Hin. subst fees.
    exists []. rewrite app_nil_r. repeat split. constructor.
  - cbn [choose] in Hin. apply list_elem_of_bind in Hin as (f & Hin & Hf).
    destruct (IH _ Hin) as (suffix & -> & Hlen & Hall).
    exists (f :: suffix). rewrite <- app_assoc. simpl.
    repeat split; [lia|]. constructor; assumption.
Qed.




Section RouteShape.
Context (w : World) (fromAddr toAddr : string).

Lemma addRoute_shape (amh : bool) (mh : Z) (tiers : list Z)
    (c : list V3Route) (raw : list string) :
  head raw = Some fromAddr ->
  last raw = Some toAddr ->
  (amh = false -> raw = [fromAddr; toAddr]) ->
  Forall (v3Shape fromAddr toAddr amh mh tiers) c ->
  Forall (v3Shape fromAddr toAddr amh mh tiers) (addRoute amh mh tiers c raw).
Proof.
  intros Hh Hl Hraw Hc. unfold addRoute.
  destruct (Nat.ltb_spec (length (uniqueAddresses raw)) 2) as [Hlt|H2]; [exact Hc|].
  destruct (negb amh && negb (length (uniqueAddresses raw) =? 2)%nat) eqn:H1; [exact Hc|].
  destruct (amh && (mh <? Z.of_nat (length (uniqueAddresses raw)))) eqn:H3; [exact Hc|].
  apply Forall_app. split; [exact Hc|].
  apply Forall_fmap, Forall_forall. intros fees Hfees.
  apply choose_spec in Hfees as (suffix & -> & Hlen & Hall).
  split; [|split; [|split]]; cbn [v3_tokens v3_fees app].
  - apply uniqueAddresses_pathFromTo; assumption.
  - exact Hlen.
  - exact Hall.
  - destruct amh; cbn [negb andb] in H1, H3.
    + apply Z.ltb_ge in H3. exact H3.
    + apply negb_false_iff, Nat.eqb_eq in H1.
      rewrite (Hraw eq_refl) in *.
      destruct (sameAddress fromAddr toAddr) eqn:Hs.
      * rewrite (uniqueAddresses_pair_same _ _ Hs) in H1. discriminate H1.
      * apply uniqueAddresses_pair, Hs.
Qed.

Lemma v3Routes_shape (amh : bool) (mh : Z) (tiers : list Z) :
  Forall (v3Shape fromAddr toAddr amh mh tiers)
         (v3Routes w fromAddr toAddr amh mh tiers).
Proof.
  unfold v3Routes.
  assert (Hd : Forall (v3Shape fromAddr toAddr amh mh tiers)
                      (addRoute amh mh tiers [] [fromAddr; toAddr]))
    by (apply addRoute_shape; [reflexivity..|constructor]).
  destruct amh; [|exact Hd].
  apply foldl_invariant.
  - apply foldl_invariant; [exact Hd|].
    intros c m Hc. apply addRoute_shape; [reflexivity|reflexivity|discriminate|exact Hc].
  - intros c i Hc. apply foldl_invariant; [exact Hc|].
    intros c' j Hc'. destruct (i =? j)%nat; [exact Hc'|].
    apply addRoute_shape; [reflexivity|reflexivity|discriminate|exact Hc'].
Qed.

End RouteShape.

Lemma v3FeeTiers_length (w : World) (params : QuoteParams) :
  (length (v3FeeTiers w params) <= 6)%nat.
Proof. unfold v3FeeTiers. rewrite length_take. lia. Qed.

(** X10. Every route of the v3 quoter runs from the source to the
    destination address over 2 to 4 tokens, carries exactly one fee per
    hop, each taken from the at most six fee tiers in use, and is
    accepted by the path encoder: [encodeV3Path] never throws on an
    enumerated route. *)
Theorem v3_routes_are_well_formed_and_encodable
    (w : World) (params : QuoteParams) (rq : Request) :
  (length (v3FeeTiers w params) <= 6)%nat
  /\ Forall (fun r : V3Route =>
               head (v3_tokens r) = Some (rq_fromAddr rq)
               /\ (exists l : string,
                     last (v3_tokens r) = Some l
                     /\ sameAddress l (rq_toAddr rq) = true)
               /\ (2 <= length (v3_tokens r) <= 4)%nat
               /\ length (v3_fees r) = (length (v3_tokens r) - 1)%nat
               /\ Forall (fun fee => fee ∈ v3FeeTiers w params) (v3_fees r)
               /\ exists pathBytes : string,
                    encodeV3Path (v3_tokens r) (v3_fees r) = Ok pathBytes)
            (v3Candidates w params rq).
Proof.
  split; [apply v3FeeTiers_length|].
  unfold v3Candidates.
  eapply Forall_impl; [apply v3Routes_shape|].
  intros r ((Hh & Hl & H2) & Hlen & Hfees & Hb). cbv beta.
  assert (Hclamp : 2 <= clampMaxHops (maxHops params) <= 4)
    by (unfold clampMaxHops; lia).
  assert (H4 : (length (v3_tokens r) <= 4)%nat).
  { destruct (jsBoolean (allowMultiHop params)); [lia|]. rewrite Hb. simpl. lia. }
  split; [exact Hh|]. split; [exact Hl|]. split; [lia|].
  split; [exact Hlen|]. split; [exact Hfees|].
  eexists. apply encodeV3Path_layout; assumption.
Qed.

Lemma v3Routes_direct_only
    (w : World) (fromAddr toAddr : string) (maxHops : Z) (tiers : list Z) :
  v3Routes w fromAddr toAddr false maxHops tiers
  = if sameAddress fromAddr toAddr then []
    else (fun fee => {| v3_tokens := [fromAddr; toAddr]; v3_fees := [fee] |}) <$> tiers.
Proof.
  unfold v3Routes, addRoute.
  destruct (sameAddress fromAddr toAddr) eqn:Hs.
  - rewrite (uniqueAddresses_pair_same _ _ Hs). reflexivity.
  - rewrite (uniqueAddresses_pair _ _ Hs). cbn [length Nat.ltb Nat.leb Nat.eqb negb andb app].
    cbn [Nat.sub choose mbind list_bind].
    induction tiers as [|f tiers IH]; [reflexivity|].
    cbn [mbind list_bind fmap list_fmap app choose]. f_equal.
    exact IH.
Qed.

(** X11. Without multi-hop the v3 quoter evaluates exactly the direct pair
    once per fee tier in use, in the order of the tiers -- and nothing at
    all when source and destination are the same address. *)
Theorem v3_direct_routes_one_per_tier
    (w : World) (fromAddr toAddr : string) (maxHops : Z) (tiers : list Z) :
  v3Routes w fromAddr toAddr false maxHops tiers
  = if sameAddress fromAddr toAddr then []
    else (fun fee => {| v3_tokens := [fromAddr; toAddr]; v3_fees := [fee] |}) <$> tiers.
Proof. exact (v3Routes_direct_only w fromAddr toAddr maxHops tiers). Qed.

(** ** The encoder and letter case *)

Lemma tokenHex_toLowerCase (t : string) : tokenHex (Js.toLowerCase t) = tokenHex t.
Proof. unfold tokenHex. rewrite toLowerCase_idem. reflexivity. Qed.

Lemma hopsLayout_toLowerCase (fees : list Z) (ts : list string) :
  PathFormat.hopsLayout fees (Js.toLowerCase <$> ts) = PathFormat.hopsLayout fees ts.
Proof.
  revert ts. induction fees as [|f fees IH]; intros [|t ts]; try reflexivity.
  cbn [fmap list_fmap PathFormat.hopsLayout].
  change (list_fmap _ _ Js.toLowerCase ts) with (Js.toLowerCase <$> ts).
  rewrite tokenHex_toLowerCase, IH. reflexivity.
Qed.

(** X12. The encoder does not see letter case: a token sequence and its
    lower-cased spelling give the same result, be it the same bytes or
    the same rejection. *)
Theorem encodeV3Path_ignores_letter_case (tokens : list string) (fees : list Z) :
  encodeV3Path (Js.toLowerCase <$> tokens) fees = encodeV3Path tokens fees.
Proof.
  destruct (Nat.ltb_spec (length tokens) 2) as [Hlt|H2].
  - unfold encodeV3Path. rewrite length_fmap.
    replace (length tokens <? 2)%nat with true by (symmetry; apply Nat.ltb_lt; exact Hlt).
    reflexivity.
  - destruct (Nat.eq_dec (length fees) (length tokens - 1)%nat) as [He|Hne].
    + rewrite !encodeV3Path_layout by (rewrite ?length_fmap; assumption).
      f_equal. destruct tokens as [|t0 ts]; [reflexivity|].
      cbn [fmap list_fmap PathFormat.pathLayout].
      change (list_fmap _ _ Js.toLowerCase ts) with (Js.toLowerCase <$> ts).
      rewrite tokenHex_toLowerCase, hopsLayout_toLowerCase. reflexivity.
    + unfold encodeV3Path. rewrite length_fmap.
      replace (length fees =? length tokens - 1)%nat with false
        by (symmetry; apply Nat.eqb_neq; exact Hne).
      destruct (length tokens <? 2)%nat; reflexivity.
Qed.

(** ** The split search in detail *)

Section SplitSearchDetail.
Context (eval1 eval2 : Z -> Z) (amountIn out0 : Z).

Lemma foldl_splitStep_first_max (l seen : list Z) (st : SplitSearch) :
  increasing l ->
  Forall (fun x => Forall (fun y => x < y) l) seen ->
  ((bestTotalOut st = 0 /\ bestPercentToR1 st = 100
    /\ bestOut1 st = out0 /\ bestOut2 st = 0
    /\ Forall (fun p => splitTotal eval1 eval2 amountIn p <= 0) seen)
   \/ (0 < bestTotalOut st
       /\ bestPercentToR1 st ∈ seen
       /\ bestOut1 st = eval1 (splitIn1 amountIn (bestPercentToR1 st))
       /\ bestOut2 st = eval2 (splitIn2 amountIn (bestPercentToR1 st))
       /\ splitTotal eval1 eval2 amountIn (bestPercentToR1 st) = bestTotalOut st
       /\ Forall (fun p => splitTotal eval1 eval2 amountIn p <= bestTotalOut st) seen
       /\ Forall (fun p => p < bestPercentToR1 st -> splitTotal eval1 eval2 amountIn p < bestTotalOut st) seen)) ->
  let s := foldl (splitStep eval1 eval2 amountIn) st l in
  (bestTotalOut s = 0 /\ bestPercentToR1 s = 100
   /\ bestOut1 s = out0 /\ bestOut2 s = 0
   /\ Forall (fun p => splitTotal eval1 eval2 amountIn p <= 0) (seen ++ l))
  \/ (0 < bestTotalOut s
      /\ bestPercentToR1 s ∈ (seen ++ l)%list
      /\ bestOut1 s = eval1 (splitIn1 amountIn (bestPercentToR1 s))
      /\ bestOut2 s = eval2 (splitIn2 amountIn (bestPercentToR1 s))
      /\ splitTotal eval1 eval2 amountIn (bestPercentToR1 s) = bestTotalOut s
      /\ Forall (fun p => splitTotal eval1 eval2 amountIn p <= bestTotalOut s) (seen ++ l)
      /\ Forall (fun p => p < bestPercentToR1 s -> splitTotal eval1 eval2 amountIn p < bestTotalOut s) (seen ++ l)).
Proof.
  revert seen st.
  induction l as [|x l IH]; intros seen st Hsorted Hseen Hinv.
  - simpl. rewrite app_nil_r. exact Hinv.
  - destruct Hsorted as [Hx Hl].
    cbn [foldl].
    replace (seen ++ x :: l)%list with ((seen ++ [x]) ++ l)%list
      by (rewrite <- app_assoc; reflexivity).
    apply IH; [exact Hl| |].
    + apply Forall_app. split.
      * eapply Forall_impl; [exact Hseen|]. intros y Hy. simpl in Hy.
        apply Forall_cons in Hy as [_ Hy]. exact Hy.
      * constructor; [exact Hx|constructor].
    + assert (Hlt : Forall (fun y => y < x) seen).
      { eapply Forall_impl; [exact Hseen|]. intros y Hy. simpl in Hy.
        apply Forall_cons in Hy as [Hy _]. exact Hy. }
      unfold splitStep. fold (splitTotal eval1 eval2 amountIn x).
      destruct (Z.gtb_spec (splitTotal eval1 eval2 amountIn x) (bestTotalOut st)) as [Hgt|Hle].
      * right. cbn [bestTotalOut bestPercentToR1 bestOut1 bestOut2].
        assert (Hpos : 0 < splitTotal eval1 eval2 amountIn x)
          by (destruct Hinv as [(H0 & _)|(Hp & _)]; lia).
        assert (Hall : Forall (fun p => splitTotal eval1 eval2 amountIn p <= bestTotalOut st) seen).
        { destruct Hinv as [(H0 & _ & _ & _ & Hz)|(_ & _ & _ & _ & _ & Hall & _)];
            [|exact Hall].
          eapply Forall_impl; [exact Hz|]. intros p Hp. simpl in Hp. lia. }
        split; [exact Hpos|].
        split; [apply elem_of_app; right; left|].
        split; [reflexivity|]. split; [reflexivity|]. split; [reflexivity|].
        split.
        -- apply Forall_app. split.
           ++ eapply Forall_impl; [exact Hall|]. intros p Hp. simpl in Hp. lia.
           ++ constructor; [lia|constructor].
        -- apply Forall_app. split.
           ++ eapply Forall_impl; [exact Hall|]. intros p Hp _. simpl in Hp. lia.
           ++ constructor; [lia|constructor].
      * destruct Hinv as [(H0 & Hp & H1 & H2 & Hz)|(Hpos & Hin & H1 & H2 & Ht & Hall & Hfirst)].
        -- left. repeat split; try assumption.
           apply Forall_app. split; [exact Hz|]. constructor; [lia|constructor].
        -- right. repeat split; try assumption.
           ++ apply elem_of_app. left. exact Hin.
           ++ apply Forall_app. split; [exact Hall|]. constructor; [lia|constructor].
           ++ apply Forall_app. split; [exact Hfirst|].
              constructor; [|constructor].
              rewrite Forall_forall in Hlt. specialize (Hlt _ Hin). lia.
Qed.

End SplitSearchDetail.

Lemma splitPercents_increasing : increasing splitPercents.
Proof.
  change splitPercents with [10; 20; 30; 40; 50; 60; 70; 80; 90].
  simpl. repeat split; repeat constructor; lia.
Qed.

(** The search in full: the invariant above at the end of the grid. *)
Lemma splitSearch_first_max (eval1 eval2 : Z -> Z) (amountIn out0 : Z) :
  let s := splitSearch eval1 eval2 amountIn out0 in
  let p := bestPercentToR1 s in
  Forall (fun p' => splitTotal eval1 eval2 amountIn p' <= bestTotalOut s) splitPercents
  /\ ((bestTotalOut s = 0 /\ p = 100 /\ bestOut1 s = out0 /\ bestOut2 s = 0)
      \/ (0 < bestTotalOut s
          /\ p ∈ splitPercents
          /\ bestOut1 s = eval1 (splitIn1 amountIn p)
          /\ bestOut2 s = eval2 (splitIn2 amountIn p)
          /\ bestOut1 s + bestOut2 s = bestTotalOut s
          /\ Forall (fun p' => p' < p ->
                               splitTotal eval1 eval2 amountIn p' < bestTotalOut s)
                    splitPercents)).
Proof.
  intros s p.
  pose proof (foldl_splitStep_first_max eval1 eval2 amountIn out0 splitPercents []
                {| bestTotalOut := 0; bestPercentToR1 := 100;
                   bestOut1 := out0; bestOut2 := 0 |}
                splitPercents_increasing ltac:(constructor)
                ltac:(left; repeat split; constructor)) as H.
  cbv zeta in H. rewrite app_nil_l in H. fold (splitSearch eval1 eval2 amountIn out0) in H.
  fold s in H. fold p in H.
  destruct H as [(H0 & Hp & H1 & H2 & Hz)|(Hpos & Hin & H1 & H2 & Ht & Hall & Hfirst)].
  - split; [rewrite H0; exact Hz|]. left. repeat split; assumption.
  - split; [exact Hall|]. right. repeat split; try assumption.
    rewrite H1, H2. exact Ht.
Qed.

(** X13. The split search returns the first best point of its grid: no
    grid percentage has a larger combined output than the one it reports,
    every smaller percentage has a strictly smaller one (ties go to the
    smaller share for the first route), and the two outputs it reports are
    the routes' answers at that split.  When nothing on the grid has a
    positive total it keeps its initial values. *)
Theorem split_search_takes_first_maximum (eval1 eval2 : Z -> Z) (amountIn out0 : Z) :
  let s := splitSearch eval1 eval2 amountIn out0 in
  let p := bestPercentToR1 s in
  Forall (fun p' => splitTotal eval1 eval2 amountIn p' <= bestTotalOut s) splitPercents
  /\ ((bestTotalOut s = 0 /\ p = 100 /\ bestOut1 s = out0 /\ bestOut2 s = 0)
      \/ (0 < bestTotalOut s
          /\ p ∈ splitPercents
          /\ bestOut1 s = eval1 (splitIn1 amountIn p)
          /\ bestOut2 s = eval2 (splitIn2 amountIn p)
          /\ bestOut1 s + bestOut2 s = bestTotalOut s
          /\ Forall (fun p' => p' < p ->
                               splitTotal eval1 eval2 amountIn p' < bestTotalOut s)
                    splitPercents)).
Proof. exact (splitSearch_first_max eval1 eval2 amountIn out0). Qed.

(** ** Shape of the returned quotes *)

Section QuoteShape.
Context (w : World).

Lemma v2SingleQuote_shape (rq : Request) (best : V2Route) (q : LiveQuote) :
  v2SingleQuote w rq best = Ok q ->
  singleQuoteShape dex_pcs_v2 (rq_amountInRaw rq) (candidateOfV2 best) q.
Proof.
  unfold v2SingleQuote.
  destruct (mapResult (symbolOfV2 w rq) (v2_path best)); simpl; intros H;
    inversion H; subst; clear H. repeat split.
Qed.

Lemma splitQuote_shape (rq : Request) (s : SplitSearch)
    (r1 r2 : Candidate) (sy1 sy2 : list string) :
  splitQuoteShape (rq_amountInRaw rq) r1 r2 s
    (splitQuote w rq s (c_tokens r1) (c_tokens r2) sy1 sy2).
Proof.
  repeat split. eexists _, _. repeat split.
Qed.

(** A successful invocation returns either the unsplit quote of its best
    ranked route, or the split quote of its two best routes when the search
    found a strictly larger total. *)
Lemma quoteOnDex_shape (d : DexVersion) (params : QuoteParams) (q : LiveQuote) :
  quoteOnDex w d params = Ok q ->
  exists (a : Z) (r1 : Candidate) (rest : list Candidate),
    requestedAmountInRaw w d params = Some a
    /\ rankedRoutes w d params = Some (r1 :: rest)
    /\ (singleQuoteShape d a r1 q
        \/ (jsBoolean (allowSplitRouting params) = true
            /\ exists (r2 : Candidate) (rest' : list Candidate) (leg1 leg2 : Z -> Z),
                 rest = r2 :: rest'
                 /\ splitLegs w d params = Some (leg1, leg2)
                 /\ c_out r1 < bestTotalOut (splitSearch leg1 leg2 a (c_out r1))
                 /\ splitQuoteShape a r1 r2 (splitSearch leg1 leg2 a (c_out r1)) q)).
Proof.
  destruct d; unfold quoteOnDex, requestedAmountInRaw, rankedRoutes, splitLegs.
  - unfold quotePcsV2BestExactIn.
    destruct (v2Setup w params) as [rq|e]; [|discriminate].
    cbn [bind resultToOption mbind option_bind fmap option_fmap option_map].
    destruct (v2Ranked w (v2Candidates w params rq) (rq_amountInRaw rq))
      as [|a1 rk]; [discriminate|].
    intros Hq. exists (rq_amountInRaw rq), (candidateOfV2 a1), (candidateOfV2 <$> rk).
    split; [reflexivity|]. split; [reflexivity|].
    cbn [v2Select] in Hq.
    destruct (jsBoolean (allowSplitRouting params)); [destruct rk as [|a2 rk']|].
    + left. apply v2SingleQuote_shape, Hq.
    + unfold v2SplitSearch in Hq.
      destruct (Z.geb_spec (v2_out a1)
                  (bestTotalOut (splitSearch (evaluatePathOut w (v2_path a1))
                                             (evaluatePathOut w (v2_path a2))
                                             (rq_amountInRaw rq) (v2_out a1))))
        as [Hge|Hlt].
      * left. apply v2SingleQuote_shape, Hq.
      * destruct (mapResult (symbolOfV2 w rq) (v2_path a1)); [|discriminate].
        destruct (mapResult (symbolOfV2 w rq) (v2_path a2)); [|discriminate].
        simpl in Hq. inversion Hq; subst q; clear Hq.
        right. split; [reflexivity|].
        exists (candidateOfV2 a2), (candidateOfV2 <$> rk'),
          (evaluatePathOut w (v2_path a1)), (evaluatePathOut w (v2_path a2)).
        split; [reflexivity|]. split; [reflexivity|]. split; [exact Hlt|].
        apply (splitQuote_shape rq _ (candidateOfV2 a1) (candidateOfV2 a2)).
    + left. apply v2SingleQuote_shape, Hq.
  - unfold quotePcsV3BestExactIn.
    destruct (v3Setup w params) as [[quoter rq]|e]; [|discriminate].
    cbn [bind resultToOption mbind option_bind fmap option_fmap option_map fst snd].
    destruct (v3Ranked w quoter (rq_amountInRaw rq) (v3Candidates w params rq))
      as [|x rk]; [discriminate|].
    intros Hq. exists (rq_amountInRaw rq), (candidateOfV3 x), (candidateOfV3 <$> rk).
    split; [reflexivity|]. split; [reflexivity|].
    cbn [v3Select] in Hq.
    destruct (jsBoolean (allowSplitRouting params)); [destruct rk as [|y rk']|].
    + inversion Hq; subst q; clear Hq. left. repeat split.
    + destruct (v3SplitLeg w quoter (v3_r x)) as [leg1|e1]; [|discriminate].
      destruct (v3SplitLeg w quoter (v3_r y)) as [leg2|e2]; [|discriminate].
      cbn [bind resultToOption mbind option_bind] in Hq |- *.
      destruct (Z.geb_spec (v3_out x)
                  (bestTotalOut (splitSearch leg1 leg2 (rq_amountInRaw rq) (v3_out x))))
        as [Hge|Hlt].
      * inversion Hq; subst q; clear Hq. left. repeat split.
      * inversion Hq; subst q; clear Hq.
        right. split; [reflexivity|].
        exists (candidateOfV3 y), (candidateOfV3 <$> rk'), leg1, leg2.
        split; [reflexivity|]. split; [reflexivity|]. split; [exact Hlt|].
        apply (splitQuote_shape rq _ (candidateOfV3 x) (candidateOfV3 y)).
    + inversion Hq; subst q; clear Hq. left. repeat split.
Qed.

Lemma rankedRoutes_from_evaluations (d : DexVersion) (params : QuoteParams)
    (ranked : list Candidate) :
  rankedRoutes w d params = Some ranked ->
  exists evals : list Candidate,
    evaluations w d params = Some evals
    /\ ranked = jsSort (byOutDesc c_out) (viable evals).
Proof.
  rewrite rankedRoutes_sorted_viable.
  destruct (evaluations w d params) as [evals|]; [|discriminate].
  simpl. intros H. inversion H. eexists. split; reflexivity.
Qed.

Lemma ranked_head_is_best (d : DexVersion) (params : QuoteParams)
    (evals : list Candidate) (r1 : Candidate) (rest : list Candidate) :
  evaluations w d params = Some evals ->
  rankedRoutes w d params = Some (r1 :: rest) ->
  r1 ∈ evals /\ 0 < c_out r1 /\ Forall (fun c => c_out c <= c_out r1) evals.
Proof.
  intros He Hr.
  pose proof (rankedRoutes_positive w d params _ Hr) as Hpos.
  apply Forall_cons in Hpos as [Hpos1 _].
  pose proof (evaluations_nonneg w d params evals He) as Hnn.
  destruct (rankedRoutes_from_evaluations d params _ Hr) as (evals' & He' & Hsort).
  rewrite He in He'. inversion He'; subst evals'. clear He'.
  pose proof (jsSort_perm (byOutDesc c_out) (viable evals)) as Hperm.
  pose proof (jsSort_descending c_out (viable evals)) as Hdesc.
  rewrite <- Hsort in Hperm, Hdesc. destruct Hdesc as [Htail _].
  assert (Hin : r1 ∈ viable evals) by (rewrite <- Hperm; left).
  split; [apply list_elem_of_filter in Hin as [_ Hin]; exact Hin|].
  split; [exact Hpos1|].
  apply Forall_forall. intros c Hc.
  destruct (decide (c_out c <> 0)) as [Hnz|Hz]; [|lia].
  assert (Hcv : c ∈ viable evals) by (apply list_elem_of_filter; split; assumption).
  rewrite <- Hperm in Hcv. apply elem_of_cons in Hcv as [->|Hcv]; [lia|].
  rewrite Forall_forall in Htail. apply Htail, Hcv.
Qed.

(** X14. Best execution: the output of a returned quote (v2 or v3) is at
    least the output the venue gave for any enumerated candidate at the
    full input; an unsplit quote is one of the candidates, with exactly the
    output the venue gave for it. *)
Theorem returned_quote_dominates_every_candidate
    (d : DexVersion) (params : QuoteParams) (q : LiveQuote) (evals : list Candidate) :
  evaluations w d params = Some evals ->
  quoteOnDex w d params = Ok q ->
  Forall (fun c => c_out c <= amountOutRaw q) evals
  /\ (isSplit q = false ->
      exists c : Candidate,
        c ∈ evals /\ path q = Some (c_tokens c) /\ amountOutRaw q = c_out c).
Proof.
  intros He Hq.
  destruct (quoteOnDex_shape d params q Hq) as (a & r1 & rest & _ & Hr & Hshape).
  destruct (ranked_head_is_best d params evals r1 rest He Hr) as (Hin & Hpos & Hmax).
  destruct Hshape as [(Hs & _ & _ & _ & Ho & Hp & _)
                     |(_ & r2 & rest' & leg1 & leg2 & _ & _ & Hlt & Hs & _ & _ & _ & _ & _ & _ & Ho & _)].
  - split; [rewrite Ho; exact Hmax|].
    intros _. exists r1. repeat split; assumption.
  - destruct (splitSearch_state leg1 leg2 a (c_out r1)) as [(H0 & _)|(_ & _ & Hsum)]; [lia|].
    split; [|congruence].
    eapply Forall_impl; [exact Hmax|]. intros c Hc. simpl in Hc. lia.
Qed.

End QuoteShape.

(** ** Quotes of the v2 quoter *)

Section V2Quotes.
Context (w : World).

Lemma v2CandidatePaths_direct_only (fromAddr toAddr : string) (mh : Z) :
  v2CandidatePaths w fromAddr toAddr false mh
  = if sameAddress fromAddr toAddr then [] else [[fromAddr; toAddr]].
Proof.
  unfold v2CandidatePaths, addPath.
  destruct (sameAddress fromAddr toAddr) eqn:Hs.
  - rewrite (uniqueAddresses_pair_same _ _ Hs). reflexivity.
  - rewrite (uniqueAddresses_pair _ _ Hs). reflexivity.
Qed.

Lemma v2_evaluations (params : QuoteParams) (evals : list Candidate) :
  evaluations w dex_pcs_v2 params = Some evals ->
  exists rq : Request,
    v2Setup w params = Ok rq
    /\ evals = (fun p => {| c_tokens := p; c_fees := [];
                            c_out := evaluatePathOut w p (rq_amountInRaw rq) |})
                 <$> v2Candidates w params rq.
Proof.
  unfold evaluations. destruct (v2Setup w params) as [rq|e]; [|discriminate].
  simpl. intros H. inversion H. exists rq. split; reflexivity.
Qed.

Lemma v2_quote_evaluations (params : QuoteParams) (q : LiveQuote) :
  quotePcsV2BestExactIn w params = Ok q ->
  exists (rq : Request) (evals : list Candidate),
    v2Setup w params = Ok rq
    /\ evaluations w dex_pcs_v2 params = Some evals
    /\ evals = (fun p => {| c_tokens := p; c_fees := [];
                            c_out := evaluatePathOut w p (rq_amountInRaw rq) |})
                 <$> v2Candidates w params rq.
Proof.
  unfold quotePcsV2BestExactIn, evaluations.
  destruct (v2Setup w params) as [rq|e]; [|discriminate].
  intros _. exists rq. eexists. repeat split.
Qed.

(** X16. A v2 quote that is not split names one of the candidate paths: it
    runs from the source to the destination address over 2 to 4 tokens,
    carries the provider tag [pcs-v2], its output is what the router
    answered for that path at the full input, and its approximate trading
    fee is 25 bps per hop. *)
Theorem v2_single_quote_is_a_candidate (params : QuoteParams) (q : LiveQuote) :
  quotePcsV2BestExactIn w params = Ok q ->
  isSplit q = false ->
  exists (rq : Request) (p : list string),
    v2Setup w params = Ok rq
    /\ p ∈ v2Candidates w params rq
    /\ path q = Some p
    /\ head p = Some (rq_fromAddr rq)
    /\ (2 <= length p <= 4)%nat
    /\ amountOutRaw q = evaluatePathOut w p (rq_amountInRaw rq)
    /\ provider q = Some pcs_v2
    /\ tradingFeeBpsApprox q = Some (25 * (Z.of_nat (length p) - 1)).
Proof.
  intros Hq Hsplit.
  destruct (v2_quote_evaluations params q Hq) as (rq & evals & Hs & He & Hev).
  destruct (quoteOnDex_shape w dex_pcs_v2 params q Hq) as (a & r1 & rest & _ & Hr & Hshape).
  destruct (ranked_head_is_best w dex_pcs_v2 params evals r1 rest He Hr) as (Hin & _ & _).
  destruct Hshape as [(_ & _ & _ & _ & Ho & Hp & _ & Hprov & Hfee)|(_ & _ & _ & _ & _ & _ & _ & _ & Hs' & _)];
    [|congruence].
  rewrite Hev in Hin. apply list_elem_of_fmap in Hin as (p & -> & Hp').
  cbn [c_tokens c_out] in *.
  pose proof (v2CandidatePaths_shape w (rq_fromAddr rq) (rq_toAddr rq)
                (jsBoolean (allowMultiHop params)) (clampMaxHops (maxHops params))) as Hall.
  rewrite Forall_forall in Hall.
  destruct (Hall p Hp') as ((Hh & _ & H2) & Hb).
  assert (H4 : (length p <= 4)%nat).
  { destruct (jsBoolean (allowMultiHop params)).
    - unfold clampMaxHops in Hb. lia.
    - subst p. simpl. lia. }
  exists rq, p. repeat split; try assumption; try lia.
  rewrite Hfee. f_equal. lia.
Qed.

(** X17. With multi-hop off the v2 quoter has the direct pair as its only
    candidate: a quote it returns is never split, even when split routing
    is allowed, its path is the pair of resolved addresses, and its fee
    estimate is 25 bps. *)
Theorem v2_without_multihop_quotes_the_direct_pair
    (params : QuoteParams) (q : LiveQuote) :
  jsBoolean (allowMultiHop params) = false ->
  quotePcsV2BestExactIn w params = Ok q ->
  exists rq : Request,
    v2Setup w params = Ok rq
    /\ sameAddress (rq_fromAddr rq) (rq_toAddr rq) = false
    /\ isSplit q = false
    /\ path q = Some [rq_fromAddr rq; rq_toAddr rq]
    /\ amountOutRaw q
       = evaluatePathOut w [rq_fromAddr rq; rq_toAddr rq] (rq_amountInRaw rq)
    /\ tradingFeeBpsApprox q = Some 25.
Proof.
  intros Hamh Hq.
  destruct (v2_quote_evaluations params q Hq) as (rq & evals & Hs & He & Hev).
  destruct (quoteOnDex_shape w dex_pcs_v2 params q Hq) as (a & r1 & rest & _ & Hr & Hshape).
  destruct (ranked_head_is_best w dex_pcs_v2 params evals r1 rest He Hr) as (Hin & _ & _).
  destruct (rankedRoutes_from_evaluations w dex_pcs_v2 params _ Hr) as (evals' & He' & Hsort).
  rewrite He in He'. inversion He'; subst evals'. clear He'.
  unfold v2Candidates in Hev. rewrite Hamh, v2CandidatePaths_direct_only in Hev.
  exists rq. split; [exact Hs|].
  destruct (sameAddress (rq_fromAddr rq) (rq_toAddr rq)) eqn:Hsame.
  - subst evals. inversion Hin.
  - split; [reflexivity|]. subst evals. cbn [fmap list_fmap] in *.
    apply list_elem_of_singleton in Hin.
    assert (Hlen : (length (r1 :: rest) <= 1)%nat)
      by (rewrite Hsort, jsSort_perm; unfold viable; etransitivity;
          [apply length_filter|simpl; lia]).
    destruct Hshape as [(Hsp & _ & _ & _ & Ho & Hp & _ & _ & Hfee)
                       |(_ & r2 & rest' & _ & _ & -> & _)].
    + rewrite Hin in Ho, Hp, Hfee. cbn [c_tokens c_out] in Ho, Hp, Hfee.
      repeat split; assumption.
    + simpl in Hlen. lia.
Qed.

End V2Quotes.

(** ** Same asset, and the quotes behind [quotePancakeBest] *)

Section SingleQuotes.
Context (w : World).

(** X18. When both symbols resolve to the same address and multi-hop is
    off, neither quoter has a candidate: no quote is returned, and once the
    setup has passed the error is the no-route error of the venue. *)
Theorem same_asset_without_multihop_has_no_route
    (d : DexVersion) (params : QuoteParams) (rq : Request) :
  resolveRequest w params = Ok rq ->
  sameAddress (rq_fromAddr rq) (rq_toAddr rq) = true ->
  jsBoolean (allowMultiHop params) = false ->
  (forall q : LiveQuote, quoteOnDex w d params <> Ok q)
  /\ (forall evals : list Candidate,
        evaluations w d params = Some evals ->
        evals = [] /\ quoteOnDex w d params = Err (noRouteError d)).
Proof.
  intros Hres Hsame Hamh.
  assert (Hev : forall evals, evaluations w d params = Some evals -> evals = []).
  { intros evals. destruct d; unfold evaluations.
    - unfold v2Setup. destruct (providerAvailable w); [|discriminate].
      cbn [negb]. rewrite Hres. cbn [resultToOption mbind option_bind].
      unfold v2Candidates. rewrite Hamh, v2CandidatePaths_direct_only, Hsame.
      intros H. inversion H. reflexivity.
    - unfold v3Setup. destruct (providerAvailable w); [|discriminate].
      cbn [negb]. destruct (getV3Quoter w (quoterAddress params)); [|discriminate].
      rewrite Hres. cbn [bind resultToOption mbind option_bind snd].
      unfold v3Candidates. rewrite Hamh, v3Routes_direct_only, Hsame.
      intros H. inversion H. reflexivity. }
  assert (Herr : forall evals, evaluations w d params = Some evals ->
                               quoteOnDex w d params = Err (noRouteError d)).
  { intros evals He. apply (quoteOnDex_noRoute w d params evals He).
    rewrite rankedRoutes_sorted_viable, He. rewrite (Hev _ He). reflexivity. }
  split.
  - intros q Hq.
    destruct (quoteOnDex_shape w d params q Hq) as (a & r1 & rest & _ & Hr & _).
    destruct (rankedRoutes_from_evaluations w d params _ Hr) as (evals & He & _).
    rewrite (Herr _ He) in Hq. discriminate.
  - intros evals He. split; [exact (Hev _ He)|exact (Herr _ He)].
Qed.

Lemma evaluations_lengths (d : DexVersion) (params : QuoteParams)
    (evals : list Candidate) :
  evaluations w d params = Some evals ->
  Forall (fun c => (2 <= length (c_tokens c) <= 4)%nat
                   /\ (d = dex_pcs_v3 ->
                       length (c_fees c) = (length (c_tokens c) - 1)%nat))
         evals.
Proof.
  assert (Hclamp : 2 <= clampMaxHops (maxHops params) <= 4)
    by (unfold clampMaxHops; lia).
  destruct d; unfold evaluations.
  - destruct (v2Setup w params) as [rq|e]; [|discriminate].
    cbn [resultToOption mbind option_bind]. intros H. inversion H; subst; clear H.
    apply Forall_fmap. unfold v2Candidates.
    eapply Forall_impl; [apply v2CandidatePaths_shape|].
    intros p ((_ & _ & H2) & Hb). cbn [compose c_tokens c_fees].
    split; [|discriminate].
    destruct (jsBoolean (allowMultiHop params)); [lia|]. subst p. simpl. lia.
  - destruct (v3Setup w params) as [qr|e]; [|discriminate].
    cbn [resultToOption mbind option_bind]. intros H. inversion H; subst; clear H.
    apply Forall_fmap. unfold v3Candidates.
    eapply Forall_impl; [apply v3Routes_shape|].
    intros r ((_ & _ & H2) & Hlen & _ & Hb). cbn [compose c_tokens c_fees].
    split; [|intros _; exact Hlen].
    destruct (jsBoolean (allowMultiHop params)); [lia|]. rewrite Hb. simpl. lia.
Qed.

Lemma single_quote_lengths (d : DexVersion) (params : QuoteParams) (q : LiveQuote) :
  quoteOnDex w d params = Ok q ->
  jsBoolean (allowSplitRouting params) = false ->
  0 < amountOutRaw q /\ isSplit q = false /\ parts q = None
  /\ amountOutMin q = None
  /\ exists p : list string,
       path q = Some p /\ (2 <= length p <= 4)%nat
       /\ match d with
          | dex_pcs_v2 =>
              v3FeesBpsPerHop q = None
              /\ tradingFeeBpsApprox q = Some ((Z.of_nat (length p) - 1) * 25)
          | dex_pcs_v3 =>
              exists fees : list Z,
                v3FeesBpsPerHop q = Some fees
                /\ length fees = (length p - 1)%nat
          end.
Proof.
  intros Hq Hns.
  destruct (quoteOnDex_shape w d params q Hq) as (a & r1 & rest & _ & Hr & Hshape).
  destruct (rankedRoutes_from_evaluations w d params _ Hr) as (evals & He & _).
  destruct (ranked_head_is_best w d params evals r1 rest He Hr) as (Hin & Hpos & _).
  pose proof (evaluations_lengths d params evals He) as Hall.
  rewrite Forall_forall in Hall. destruct (Hall r1 Hin) as (H24 & Hfees).
  destruct Hshape as [(Hs & Hparts & Hmin & _ & Ho & Hp & Hd)|(Hsplit & _)]; [|congruence].
  split; [rewrite Ho; exact Hpos|]. repeat (split; [assumption|]).
  exists (c_tokens r1). split; [exact Hp|]. split; [exact H24|].
  destruct d.
  - destruct Hd as (Hv3 & _ & Hfee). split; [exact Hv3|].
    rewrite Hfee. f_equal. lia.
  - destruct Hd as (Hv3 & _). exists (c_fees r1). split; [exact Hv3|].
    apply Hfees. reflexivity.
Qed.

(** X19. What the callers of [quotePancakeBest] read off its quote.  With
    split routing not requested the quote is a single route tagged
    [pcs-v2] or [pcs-v3] with a positive output and a path of 2 to 4
    tokens; the hop count of the [quote-swap] command and the hop count of
    the simulation loop both equal the path length minus one, so both gas
    limits are the one [simulateSwapCostNow] would use for the path; and
    for a v2 quote the fee the simulation derives is the quote's own
    estimate. *)
Theorem pancake_quote_hops_and_gas (params : QuoteParams) (q : LiveQuote) :
  quotePancakeBest w params = Ok q ->
  jsBoolean (allowSplitRouting params) = false ->
  (provider q = Some pcs_v2 \/ provider q = Some pcs_v3)
  /\ 0 < amountOutRaw q
  /\ isSplit q = false
  /\ exists p : list string,
       path q = Some p
       /\ (2 <= length p <= 4)%nat
       /\ quoteSwapHops q = Z.of_nat (length p) - 1
       /\ simulationHops q = Z.of_nat (length p) - 1
       /\ quoteSwapGasLimit q = estimateSwapGasLimitByHops (Z.of_nat (length p))
       /\ swapGasLimit q = estimateSwapGasLimitByHops (Z.of_nat (length p))
       /\ (provider q = Some pcs_v2 ->
           tradingFeeBpsApprox q = Some (simulationTradingFeeBps q)).
Proof.
  intros Hq Hns.
  assert (H2 : forall q2, quotePcsV2BestExactIn w (pancakeV2Params params) = Ok q2 ->
                 0 < amountOutRaw q2 /\ isSplit q2 = false /\ parts q2 = None
                 /\ exists p, path q2 = Some p /\ (2 <= length p <= 4)%nat
                    /\ v3FeesBpsPerHop q2 = None
                    /\ tradingFeeBpsApprox q2 = Some ((Z.of_nat (length p) - 1) * 25)).
  { intros q2 H.
    destruct (single_quote_lengths dex_pcs_v2 _ q2 H eq_refl)
      as (Hp & Hs & Hpa & _ & p & Hpath & H24 & Hd).
    repeat (split; [assumption|]). exists p. tauto. }
  assert (H3 : forall q3, quotePcsV3BestExactIn w (pancakeV3Params params) = Ok q3 ->
                 0 < amountOutRaw q3 /\ isSplit q3 = false /\ parts q3 = None
                 /\ exists p, path q3 = Some p /\ (2 <= length p <= 4)%nat
                    /\ exists fees, v3FeesBpsPerHop q3 = Some fees
                                    /\ length fees = (length p - 1)%nat).
  { intros q3 H.
    destruct (single_quote_lengths dex_pcs_v3 _ q3 H Hns)
      as (Hp & Hs & Hpa & _ & p & Hpath & H24 & Hd).
    repeat (split; [assumption|]). exists p. tauto. }
  match goal with |- ?G =>
    assert (Hv2 : forall q2, quotePcsV2BestExactIn w (pancakeV2Params params) = Ok q2 ->
                    q = withProvider q2 pcs_v2 -> G) end.
  { intros q2 Hq2 ->; destruct (H2 q2 Hq2) as (Hp & Hs & Hpa & p & Hpath & H24 & Hv & Hfee);
     split; [left; reflexivity|]; split; [exact Hp|]; split; [exact Hs|];
     exists p; unfold quoteSwapGasLimit, quoteSwapHops, simulationTradingFeeBps,
       simulationHops, swapGasLimit;
     cbn [withProvider path v3FeesBpsPerHop provider isSplit parts tradingFeeBpsApprox];
     rewrite Hpath, Hv, Hs; destruct p as [|x p]; [simpl in H24; lia|];
     repeat split; try assumption; try (f_equal; lia);
     intros _; rewrite Hfee; f_equal; lia. }
  match goal with |- ?G =>
    assert (Hv3 : forall q3, quotePcsV3BestExactIn w (pancakeV3Params params) = Ok q3 ->
                    q = withProvider q3 pcs_v3 -> G) end.
  { intros q3 Hq3 ->;
     destruct (H3 q3 Hq3) as (Hp & Hs & Hpa & p & Hpath & H24 & fees & Hv & Hlen);
     split; [right; reflexivity|]; split; [exact Hp|]; split; [exact Hs|];
     exists p; unfold quoteSwapGasLimit, quoteSwapHops, simulationTradingFeeBps,
       simulationHops, swapGasLimit;
     cbn [withProvider path v3FeesBpsPerHop provider isSplit parts tradingFeeBpsApprox];
     rewrite Hpath, Hv, Hs; destruct p as [|x p]; [simpl in H24; lia|];
     destruct fees as [|f fees]; [simpl in Hlen, H24; lia|];
     repeat split; try assumption; try discriminate; try (f_equal; lia);
     cbn [length] in *; lia. }
  unfold quotePancakeBest, pancakeSelect in Hq.
  destruct (quotePcsV2BestExactIn w (pancakeV2Params params)) as [q2|e2] eqn:E2;
    destruct (quotePcsV3BestExactIn w (pancakeV3Params params)) as [q3|e3] eqn:E3;
    try discriminate.
  - destruct (amountOutRaw q3 >? amountOutRaw q2); inversion Hq; subst q.
    + exact (Hv3 q3 eq_refl eq_refl).
    + exact (Hv2 q2 eq_refl eq_refl).
  - inversion Hq; subst q. exact (Hv2 q2 eq_refl eq_refl).
  - inversion Hq; subst q. exact (Hv3 q3 eq_refl eq_refl).
Qed.

End SingleQuotes.

(** ** The aggregator quote and the cost simulation *)

Section Costs.
Context (w : World).

Lemma ranked_in_evaluations (d : DexVersion) (params : QuoteParams)
    (evals ranked : list Candidate) (c : Candidate) :
  evaluations w d params = Some evals ->
  rankedRoutes w d params = Some ranked ->
  c ∈ ranked -> c ∈ evals.
Proof.
  intros He Hr Hc.
  destruct (rankedRoutes_from_evaluations w d params _ Hr) as (evals' & He' & ->).
  rewrite He in He'. inversion He'; subst evals'.
  rewrite jsSort_perm in Hc. apply list_elem_of_filter in Hc as [_ Hc]. exact Hc.
Qed.

Lemma quote_lengths (d : DexVersion) (params : QuoteParams) (q : LiveQuote) :
  quoteOnDex w d params = Ok q ->
  amountOutMin q = None
  /\ provider q <> Some oneinch
  /\ ((isSplit q = false
       /\ exists p : list string, path q = Some p /\ (2 <= length p <= 4)%nat)
      \/ (isSplit q = true
          /\ exists partA partB : SplitQuotePart,
               parts q = Some [partA; partB]
               /\ (2 <= length (part_path partA) <= 4)%nat
               /\ (2 <= length (part_path partB) <= 4)%nat)).
Proof.
  intros Hq.
  destruct (quoteOnDex_shape w d params q Hq) as (a & r1 & rest & _ & Hr & Hshape).
  destruct (rankedRoutes_from_evaluations w d params _ Hr) as (evals & He & _).
  pose proof (evaluations_lengths w d params evals He) as Hall.
  rewrite Forall_forall in Hall.
  destruct Hshape as [(Hs & _ & Hmin & _ & _ & Hp & Hd)
                     |(_ & r2 & rest' & leg1 & leg2 & -> & _ & _ & Hshape)].
  - split; [exact Hmin|]. split.
    + destruct d; [destruct Hd as (_ & -> & _)|destruct Hd as (_ & -> & _)]; discriminate.
    + left. split; [exact Hs|]. exists (c_tokens r1). split; [exact Hp|].
      apply Hall. eapply ranked_in_evaluations; [exact He|exact Hr|left].
  - destruct Hshape as (Hs & _ & _ & Hprov & Hmin & _ & _ & _ & pA & pB & Hparts
                        & HpA & HpB & _).
    split; [exact Hmin|]. split; [rewrite Hprov; discriminate|].
    right. split; [exact Hs|]. exists pA, pB. split; [exact Hparts|].
    rewrite HpA, HpB. split.
    + apply Hall. eapply ranked_in_evaluations; [exact He|exact Hr|left].
    + apply Hall. eapply ranked_in_evaluations; [exact He|exact Hr|right; left].
Qed.

Lemma quoteBestExactIn_quoteOnDex (params : QuoteParams) :
  exists d : DexVersion, quoteBestExactIn w params = quoteOnDex w d params.
Proof.
  unfold quoteBestExactIn.
  destruct (dex params) as [[|]|]; [exists dex_pcs_v2|exists dex_pcs_v3|]; try reflexivity.
  destruct (DEFAULT_V3_QUOTER w); [exists dex_pcs_v2|exists dex_pcs_v3]; reflexivity.
Qed.

Lemma oneinch_quote_provider
    (params : QuoteParams) (slippagePercent : option float) (q : LiveQuote) :
  quoteWithOneInchExactIn w params slippagePercent = Ok q ->
  provider q = Some oneinch.
Proof.
  unfold quoteWithOneInchExactIn.
  destruct (providerAvailable w); [|discriminate]. cbn [negb].
  destruct (resolveRequest w params) as [rq|e]; [|discriminate]. cbn [bind].
  destruct (requestOneInchQuote w _ _ _) as [res|]; [|discriminate].
  destruct (toTokenAmount res <=? 0); [discriminate|].
  destruct (isFinite _ && _); [destruct (slippageMinRaw _ _); [|discriminate]|];
    cbn [bind]; destruct (extractPathSymbolsFromProtocols _ _);
    intros H; inversion H; reflexivity.
Qed.

(** X20. A quote of the 1inch engine is tagged [oneinch], has a positive
    output, no addresses path and no parts; a fee estimate, when present,
    is a positive multiple of 25 bps; path symbols, when present, start
    with the upper-cased source symbol and have at least two entries; a
    gas estimate, when present, is positive; and the simulation budgets
    180000 gas for it. *)
Theorem oneinch_quote_shape
    (params : QuoteParams) (slippagePercent : option float) (q : LiveQuote) :
  quoteWithOneInchExactIn w params slippagePercent = Ok q ->
  provider q = Some oneinch
  /\ 0 < amountOutRaw q
  /\ isSplit q = false /\ parts q = None /\ path q = None
  /\ (forall f : Z, tradingFeeBpsApprox q = Some f -> 25 <= f /\ (25 | f))
  /\ (forall ps : list string,
        pathSymbols q = Some ps ->
        head ps = Some (Js.toUpperCase (fromSymbol params)) /\ (2 <= length ps)%nat)
  /\ (forall g : Z, estimatedGasUnits q = Some g -> 0 < g)
  /\ swapGasLimit q = 180000.
Proof.
  unfold quoteWithOneInchExactIn.
  destruct (providerAvailable w); [|discriminate]. cbn [negb].
  destruct (resolveRequest w params) as [rq|e] eqn:Hres; [|discriminate].
  cbn [bind].
  assert (Hsym : rq_fromSymbol rq = Js.toUpperCase (fromSymbol params)).
  { unfold resolveRequest in Hres.
    destruct (getKnownTokenAddress w _); [|discriminate].
    destruct (getKnownTokenAddress w _); [|discriminate].
    destruct (parseUnits w _ _); [|discriminate].
    inversion Hres. reflexivity. }
  destruct (requestOneInchQuote w _ _ _) as [res|]; [|discriminate].
  destruct (Z.leb_spec (toTokenAmount res) 0) as [Hle|Hpos]; [discriminate|].
  set (q0 := Build_LiveQuote _ _ None _ _ _ _ _ _ _ _ _ _ _ _).
  assert (Hfee : forall f, approxTradingFeeBpsFromProtocols (protocols res) = Some f ->
                           25 <= f /\ (25 | f)).
  { intros f. unfold approxTradingFeeBpsFromProtocols.
    destruct (protocols res) as [[|route rs]|]; try discriminate.
    intros H. inversion H. split; [lia|]. apply Z.divide_factor_r. }
  assert (Hps : forall ps,
             extractPathSymbolsFromProtocols (protocols res) (rq_fromSymbol rq) = Some ps ->
             head ps = Some (Js.toUpperCase (fromSymbol params)) /\ (2 <= length ps)%nat).
  { intros ps. unfold extractPathSymbolsFromProtocols.
    destruct (protocols res) as [[|route rs]|]; try discriminate.
    destruct (Nat.leb_spec 2 (length (rq_fromSymbol rq :: omap (fmap Js.toUpperCase) route)))
      as [H2|]; [|discriminate].
    intros H. inversion H; subst ps. split; [simpl; f_equal; exact Hsym|exact H2]. }
  assert (Hgas : forall g, estimatedGasUnits q0 = Some g -> 0 < g).
  { intros g. subst q0. cbn [estimatedGasUnits].
    destruct (estimatedGas res) as [g'|]; [|discriminate].
    destruct (Z.ltb_spec 0 g') as [Hg'|Hg']; [|discriminate].
    intros Hg. inversion Hg. lia. }
  assert (Hq1 : forall q1,
             (q1 = q0 \/ exists m, q1 = withAmountOutMin q0 m) ->
             forall q,
               match extractPathSymbolsFromProtocols (protocols res) (rq_fromSymbol rq) with
               | Some ps => Ok (withPathSymbols q1 ps)
               | None => Ok q1
               end = Ok q ->
               provider q = Some oneinch
               /\ 0 < amountOutRaw q
               /\ isSplit q = false /\ parts q = None /\ path q = None
               /\ (forall f : Z, tradingFeeBpsApprox q = Some f -> 25 <= f /\ (25 | f))
               /\ (forall ps : list string,
                     pathSymbols q = Some ps ->
                     head ps = Some (Js.toUpperCase (fromSymbol params))
                     /\ (2 <= length ps)%nat)
               /\ (forall g : Z, estimatedGasUnits q = Some g -> 0 < g)
               /\ swapGasLimit q = 180000).
  { intros q1 Hq1 q'.
    destruct (extractPathSymbolsFromProtocols (protocols res) (rq_fromSymbol rq))
      as [ps|] eqn:Hex; intros H; inversion H; subst q'; clear H;
      destruct Hq1 as [->|(m & ->)];
      (split; [reflexivity|]; split; [exact Hpos|]; do 3 (split; [reflexivity|]);
       split; [exact Hfee|]; split; [|split; [exact Hgas|reflexivity]]);
      intros ps' Hps'; inversion Hps'; subst ps'; exact (Hps _ eq_refl). }
  destruct (isFinite (slippageOf w slippagePercent)
            && (0 <? slippageOf w slippagePercent)%float).
  - destruct (slippageMinRaw _ _) as [minRaw|]; [|discriminate].
    cbn [bind]. apply Hq1. right. eexists. reflexivity.
  - cbn [bind]. apply Hq1. left. reflexivity.
Qed.

Lemma applySlippage_fields (slippagePercent : option float) (q : LiveQuote) :
  let q' := applySlippage w slippagePercent q in
  provider q' = provider q /\ isSplit q' = isSplit q /\ parts q' = parts q
  /\ path q' = path q /\ amountOutRaw q' = amountOutRaw q
  /\ ((isFinite (slippageOf w slippagePercent)
       && (0 <? slippageOf w slippagePercent)%float) = false ->
      amountOutMin q' = amountOutMin q).
Proof.
  unfold applySlippage.
  destruct (isFinite _ && _); [|repeat split].
  destruct (slippageMinRaw _ _); repeat split; discriminate.
Qed.

(** X21. The gas limit of [simulateSwapCostNow] is a function of the quote
    it returns.  With the 1inch engine (the default) it is 180000 whatever
    the route.  With the Pancake engine a single route of [n] tokens costs
    [140000 + 60000 * (n - 2)], and a split quote costs the sum of the
    limits of its two parts, between 280000 and 520000. *)
Theorem simulation_gas_limit (params : SimulateParams) (r : SwapCostNow) :
  simulateSwapCostNow w params = Ok r ->
  gasLimit r = swapGasLimit (quote r)
  /\ match default engine_oneinch (engine params) with
     | engine_oneinch => provider (quote r) = Some oneinch /\ gasLimit r = 180000
     | engine_pcs =>
         (isSplit (quote r) = false ->
          exists p : list string,
            path (quote r) = Some p /\ (2 <= length p <= 4)%nat
            /\ gasLimit r = 140000 + 60000 * (Z.of_nat (length p) - 2))
         /\ (isSplit (quote r) = true ->
             exists partA partB : SplitQuotePart,
               parts (quote r) = Some [partA; partB]
               /\ gasLimit r
                  = estimateSwapGasLimitByHops (Z.of_nat (length (part_path partA)))
                    + estimateSwapGasLimitByHops (Z.of_nat (length (part_path partB)))
               /\ 280000 <= gasLimit r <= 520000)
     end.
Proof.
  unfold simulateSwapCostNow. intros Hr.
  destruct (default engine_oneinch (engine params)) eqn:Heng.
  - destruct (quoteWithOneInchExactIn w (quoteParams params) (slippagePercent params))
      as [q|e] eqn:Hq; [|discriminate].
    cbn [bind] in Hr. destruct (fetchGasPriceNow w) as [gwei|]; [|discriminate].
    inversion Hr; subst r; clear Hr. cbn [gasLimit quote].
    pose proof (oneinch_quote_provider _ _ _ Hq) as Hprov.
    destruct (applySlippage_fields (slippagePercent params) q)
      as (Hp' & Hs' & Hpa' & Hpath' & _).
    unfold swapGasLimit. rewrite Hp', Hprov. repeat split.
  - destruct (quoteBestExactIn_quoteOnDex (quoteParams params)) as (d & Hd).
    rewrite Hd in Hr.
    destruct (quoteOnDex w d (quoteParams params)) as [q|e] eqn:Hq; [|discriminate].
    cbn [bind] in Hr. destruct (fetchGasPriceNow w) as [gwei|]; [|discriminate].
    inversion Hr; subst r; clear Hr. cbn [gasLimit quote].
    destruct (applySlippage_fields (slippagePercent params) q)
      as (Hp' & Hs' & Hpa' & Hpath' & _).
    unfold swapGasLimit. rewrite Hp', Hs', Hpa', Hpath'.
    split; [reflexivity|].
    destruct (quote_lengths d _ q Hq) as (_ & Hprov & Hcases).
    assert (Hno : forall A (x y : A),
               match provider q with Some oneinch => x | _ => y end = y)
      by (intros A x y; destruct (provider q) as [[| |]|]; congruence).
    rewrite Hno.
    destruct Hcases as [(Hs & p & Hp & H24)|(Hs & pA & pB & Hparts & HA & HB)].
    + rewrite Hs, Hp. split; [|discriminate]. intros _. exists p.
      split; [reflexivity|]. split; [exact H24|].
      unfold estimateSwapGasLimitByHops. destruct (Z.leb_spec (Z.of_nat (length p)) 2); lia.
    + rewrite Hs, Hparts. split; [discriminate|]. intros _. exists pA, pB.
      split; [reflexivity|].
      cbn [fmap list_fmap foldl]. rewrite ?Z.add_0_l. split; [reflexivity|].
      unfold estimateSwapGasLimitByHops.
      destruct (Z.leb_spec (Z.of_nat (length (part_path pA))) 2);
        destruct (Z.leb_spec (Z.of_nat (length (part_path pB))) 2); lia.
Qed.

(** X22. Without a finite positive slippage -- none supplied and none in
    the environment, zero, negative, or not a number -- the quote returned
    by [simulateSwapCostNow] carries no minimum output, with either
    engine. *)
Theorem no_minimum_without_positive_slippage (params : SimulateParams) (r : SwapCostNow) :
  simulateSwapCostNow w params = Ok r ->
  (isFinite (slippageOf w (slippagePercent params))
   && (0 <? slippageOf w (slippagePercent params))%float) = false ->
  amountOutMin (quote r) = None.
Proof.
  unfold simulateSwapCostNow. intros Hr Hslip.
  assert (Hq : forall q,
             match default engine_oneinch (engine params) with
             | engine_oneinch =>
                 quoteWithOneInchExactIn w (quoteParams params) (slippagePercent params)
             | engine_pcs => quoteBestExactIn w (quoteParams params)
             end = Ok q -> amountOutMin q = None).
  { intros q. destruct (default engine_oneinch (engine params)).
    - unfold quoteWithOneInchExactIn. rewrite Hslip.
      destruct (providerAvailable w); [|discriminate]. cbn [negb].
      destruct (resolveRequest w (quoteParams params)) as [rq|e]; [|discriminate].
      cbn [bind].
      destruct (requestOneInchQuote w _ _ _) as [res|]; [|discriminate].
      destruct (toTokenAmount res <=? 0); [discriminate|].
      destruct (extractPathSymbolsFromProtocols _ _); intros H; inversion H; reflexivity.
    - destruct (quoteBestExactIn_quoteOnDex (quoteParams params)) as (d & ->).
      intros H. apply (quote_lengths d _ q H). }
  destruct (match default engine_oneinch (engine params) with
            | engine_oneinch => _ | engine_pcs => _ end) as [q|e]; [|discriminate].
  cbn [bind] in Hr. destruct (fetchGasPriceNow w) as [gwei|]; [|discriminate].
  inversion Hr; subst r; clear Hr. cbn [quote].
  destruct (applySlippage_fields (slippagePercent params) q) as (_ & _ & _ & _ & _ & Hmin).
  rewrite (Hmin Hslip). apply Hq. reflexivity.
Qed.

End Costs.


(** ** The slippage floor and the double-precision product *)




Section SlippageFloor.
Context (w : World).




End SlippageFloor.


(** A finite positive percentage whose scaled product is not finite. *)
Example slippage_product_overflows :
  let slip := 0x1p1023%float in
  isFinite slip = true
  /\ (0 <? slip)%float = true
  /\ isFinite (slip / 100 * 1000000)%float = false
  /\ slippageMinRaw slip 1000000 = None.
Proof. vm_compute. repeat split. Qed.

(** ** The decimals cache *)

(** X24. [fetchTokenDecimals] stores what it returns under the lower-cased
    address and changes no other entry, so an entry once cached is never
    overwritten; a later call for the same address in any letter case
    returns the cached value and leaves the cache alone, whatever the
    contract would answer then; and an uncached wrapped-BNB address gives
    18 without consulting the contract. *)
Theorem decimals_cache_is_stable
    (w : World) (erc20Decimals : string -> option Z)
    (decimalsCache : gmap string Z) (token : string) :
  let r := fetchTokenDecimalsCached w erc20Decimals decimalsCache token in
  r.2 !! Js.toLowerCase token = Some r.1
  /\ (forall (key : string) (d : Z),
        decimalsCache !! key = Some d -> r.2 !! key = Some d)
  /\ (forall key : string, key <> Js.toLowerCase token -> r.2 !! key = decimalsCache !! key)
  /\ (forall (erc20Decimals' : string -> option Z) (token' : string),
        Js.toLowerCase token' = Js.toLowerCase token ->
        fetchTokenDecimalsCached w erc20Decimals' r.2 token' = r)
  /\ (decimalsCache !! Js.toLowerCase token = None ->
      Js.toLowerCase token = Js.toLowerCase (DEFAULT_WBNB w) -> r.1 = 18).
Proof.
  assert (Hins : forall (d : Z),
             decimalsCache !! Js.toLowerCase token = None ->
             let r := (d, <[Js.toLowerCase token := d]> decimalsCache) in
             r.2 !! Js.toLowerCase token = Some r.1
             /\ (forall key d', decimalsCache !! key = Some d' -> r.2 !! key = Some d')
             /\ (forall key, key <> Js.toLowerCase token -> r.2 !! key = decimalsCache !! key)
             /\ (forall erc' token',
                   Js.toLowerCase token' = Js.toLowerCase token ->
                   fetchTokenDecimalsCached w erc' r.2 token' = r)).
  { intros d Hnone. cbn [fst snd].
    split; [apply lookup_insert_eq|]. split; [|split].
    - intros key d' Hkey. rewrite lookup_insert_ne; [exact Hkey|]. congruence.
    - intros key Hne. apply lookup_insert_ne. congruence.
    - intros erc' token' Hsame. unfold fetchTokenDecimalsCached.
      rewrite Hsame, lookup_insert_eq. reflexivity. }
  unfold fetchTokenDecimalsCached.
  destruct (decimalsCache !! Js.toLowerCase token) as [d|] eqn:Hc.
  - cbn [fst snd]. split; [exact Hc|]. split; [tauto|]. split; [reflexivity|].
    split; [|discriminate].
    intros erc' token' Hsame. unfold fetchTokenDecimalsCached. rewrite Hsame, Hc. reflexivity.
  - destruct (String.eqb_spec (Js.toLowerCase token) (Js.toLowerCase (DEFAULT_WBNB w)))
      as [Hw|Hw].
    + destruct (Hins 18 eq_refl) as (H1 & H2 & H3 & H4).
      repeat split; try assumption.
    + destruct (erc20Decimals token) as [d|].
      * destruct (Hins d eq_refl) as (H1 & H2 & H3 & H4).
        repeat split; try assumption. intros _ Hw'. contradiction.
      * destruct (Hins 18 eq_refl) as (H1 & H2 & H3 & H4).
        repeat split; try assumption.
Qed.

(** ** How the quoters fail *)

Section Failures.
Context (w : World).

Lemma known_stable_symbols :
  getKnownTokenAddress w "BUSD" <> None /\ getKnownTokenAddress w "USDT" <> None.
Proof.
  split; unfold getKnownTokenAddress;
    destruct (getTokenAddressFromEnv w _); try discriminate;
    unfold KNOWN_TOKENS; vm_compute; discriminate.
Qed.

Lemma symbolOfV2_defined (rq : Request) (l : list string) :
  getKnownTokenAddress w "WBNB" <> None ->
  exists syms : list string, mapResult (symbolOfV2 w rq) l = Ok syms.
Proof.
  intros Hw. destruct known_stable_symbols as [Hb Hu].
  induction l as [|x r (syms & IH)]; [exists []; reflexivity|].
  cbn [mapResult]. rewrite IH.
  assert (Hx : exists y, symbolOfV2 w rq x = Ok y).
  { unfold symbolOfV2.
    destruct (sameAddress x (rq_fromAddr rq)); [eexists; reflexivity|].
    destruct (sameAddress x (rq_toAddr rq)); [eexists; reflexivity|].
    destruct (getKnownTokenAddress w "WBNB"); [|contradiction].
    destruct (sameAddress x _); [eexists; reflexivity|].
    destruct (getKnownTokenAddress w "BUSD"); [|contradiction].
    destruct (sameAddress x _); [eexists; reflexivity|].
    destruct (getKnownTokenAddress w "USDT"); [|contradiction].
    destruct (sameAddress x _); eexists; reflexivity. }
  destruct Hx as (y & ->). eexists. reflexivity.
Qed.

Lemma resolveRequest_errors (params : QuoteParams) (e : QuoteError) :
  resolveRequest w params = Err e -> e = UnknownAddress \/ e = AmountRejected.
Proof.
  unfold resolveRequest.
  destruct (getKnownTokenAddress w _); [|intros H; inversion H; auto].
  destruct (getKnownTokenAddress w _); [|intros H; inversion H; auto].
  destruct (parseUnits w _ _); [discriminate|]. intros H; inversion H; auto.
Qed.

Lemma v3Ranked_routes (quoter : string) (a : Z) (routes : list V3Route) (x : V3Ranked) :
  x ∈ v3Ranked w quoter a routes -> v3_r x ∈ routes.
Proof.
  unfold v3Ranked. rewrite jsSort_perm. unfold v3Outputs.
  intros Hx. apply list_elem_of_omap in Hx as (o & Ho & Hid).
  apply list_elem_of_fmap in Ho as (r & -> & Hr).
  destruct (evalRoute w quoter a r) as [out|]; [|discriminate].
  destruct (out >? 0); [|discriminate].
  inversion Hid; subst x. exact Hr.
Qed.

Lemma v3SplitLeg_defined (quoter : string) (params : QuoteParams) (rq : Request)
    (r : V3Route) :
  r ∈ v3Candidates w params rq ->
  exists leg : Z -> Z, v3SplitLeg w quoter r = Ok leg.
Proof.
  intros Hr. unfold v3Candidates in Hr.
  pose proof (v3Routes_shape w (rq_fromAddr rq) (rq_toAddr rq)
                (jsBoolean (allowMultiHop params)) (clampMaxHops (maxHops params))
                (v3FeeTiers w params)) as Hall.
  rewrite Forall_forall in Hall.
  destruct (Hall r Hr) as ((_ & _ & H2) & Hlen & _).
  unfold v3SplitLeg. destruct (_ =? 2)%nat; [eexists; reflexivity|].
  rewrite (encodeV3Path_layout _ _ H2 Hlen). eexists. reflexivity.
Qed.

(** X25. A quoter fails only at its setup (no provider, no quoter address,
    an unknown symbol, a rejected amount) or for lack of a route with a
    non-zero output.  The v3 quoter never fails on encoding a path, with or
    without split routing; the v2 quoter can fail on naming the tokens of
    its answer only when the wrapped-native symbol has no address. *)
Theorem quoter_fails_only_at_setup_or_without_route
    (d : DexVersion) (params : QuoteParams) (e : QuoteError) :
  quoteOnDex w d params = Err e ->
  e = noRouteError d \/ e = ProviderUnavailable \/ e = UnknownAddress
  \/ e = AmountRejected
  \/ (d = dex_pcs_v3 /\ e = QuoterUnavailable)
  \/ (d = dex_pcs_v2 /\ e = NullDereference /\ getKnownTokenAddress w "WBNB" = None).
Proof.
  destruct d; unfold quoteOnDex.
  - unfold quotePcsV2BestExactIn.
    destruct (v2Setup w params) as [rq|e'] eqn:Hs.
    + cbn [bind].
      destruct (getKnownTokenAddress w "WBNB") as [wbnb|] eqn:Hw.
      * assert (Hsingle : forall r, exists q, v2SingleQuote w rq r = Ok q).
        { intros r. unfold v2SingleQuote.
          destruct (symbolOfV2_defined rq (v2_path r)) as (syms & ->); [congruence|].
          eexists. reflexivity. }
        destruct (v2Ranked w _ _) as [|r1 rest]; [intros H; inversion H; auto|].
        cbn [v2Select].
        destruct (Hsingle r1) as (q1 & Hq1).
        destruct (jsBoolean (allowSplitRouting params));
          [destruct rest as [|r2 rest]|]; try (rewrite Hq1; discriminate).
        unfold v2SplitSearch. destruct (_ >=? _); [rewrite Hq1; discriminate|].
        destruct (symbolOfV2_defined rq (v2_path r1)) as (s1 & ->); [congruence|].
        destruct (symbolOfV2_defined rq (v2_path r2)) as (s2 & ->); [congruence|].
        discriminate.
      * intros H.
        assert (He : e = NoV2Route \/ e = NullDereference).
        { destruct (v2Ranked w _ _) as [|r1 rest]; [inversion H; auto|].
          right. cbn [v2Select] in H.
          assert (Hsingle : forall r, v2SingleQuote w rq r = Err e -> e = NullDereference).
          { intros r. unfold v2SingleQuote.
            destruct (mapResult (symbolOfV2 w rq) (v2_path r)) eqn:Hm; [discriminate|].
            cbn [bind]. intros H'. inversion H'; subst.
            eapply mapResult_symbolOfV2_error, Hm. }
          destruct (jsBoolean (allowSplitRouting params));
            [destruct rest as [|r2 rest]|]; try (eapply Hsingle, H).
          unfold v2SplitSearch in H. destruct (_ >=? _); [eapply Hsingle, H|].
          destruct (mapResult (symbolOfV2 w rq) (v2_path r1)) eqn:Hm1.
          - destruct (mapResult (symbolOfV2 w rq) (v2_path r2)) eqn:Hm2; [discriminate|].
            cbn [bind] in H. inversion H; subst.
            eapply mapResult_symbolOfV2_error, Hm2.
          - cbn [bind] in H. inversion H; subst.
            eapply mapResult_symbolOfV2_error, Hm1. }
        destruct He as [->| ->]; [left; reflexivity|].
        do 5 right. repeat split.
    + cbn [bind]. intros H. inversion H; subst e'. clear H.
      unfold v2Setup in Hs. destruct (providerAvailable w); cbn [negb] in Hs.
      * apply resolveRequest_errors in Hs as [->| ->]; auto.
      * inversion Hs. auto.
  - unfold quotePcsV3BestExactIn.
    destruct (v3Setup w params) as [[quoter rq]|e'] eqn:Hs.
    + cbn [bind fst snd].
      pose proof (v3Ranked_routes quoter (rq_amountInRaw rq) (v3Candidates w params rq))
        as Hin.
      destruct (v3Ranked w _ _ _) as [|x rest]; [intros H; inversion H; auto|].
      cbn [v3Select].
      destruct (jsBoolean (allowSplitRouting params));
        [destruct rest as [|y rest]|]; try discriminate.
      destruct (v3SplitLeg_defined quoter params rq (v3_r x)) as (leg1 & ->);
        [apply Hin; left|].
      destruct (v3SplitLeg_defined quoter params rq (v3_r y)) as (leg2 & ->);
        [apply Hin; right; left|].
      cbn [bind]. destruct (_ >=? _); discriminate.
    + cbn [bind]. intros H. inversion H; subst e'. clear H.
      unfold v3Setup in Hs. destruct (providerAvailable w); cbn [negb] in Hs.
      * destruct (getV3Quoter w _);
          [|inversion Hs; do 4 right; left; split; reflexivity].
        destruct (resolveRequest w params) as [rq|e'] eqn:Hres; [discriminate|].
        cbn [bind] in Hs. inversion Hs; subst e'.
        apply resolveRequest_errors in Hres as [->| ->]; auto.
      * inversion Hs. auto.
Qed.

End Failures.

(** ** The parts of a split quote *)

Section SplitParts.
Context (w : World).

Lemma v3SplitLeg_venueLeg (quoter : string) (params : QuoteParams) (rq : Request)
    (x : V3Ranked) (leg : Z -> Z) :
  getV3Quoter w (quoterAddress params) = Some quoter ->
  v3_r x ∈ v3Candidates w params rq ->
  v3SplitLeg w quoter (v3_r x) = Ok leg ->
  venueLeg w dex_pcs_v3 params (candidateOfV3 x) leg.
Proof.
  intros Hquoter Hin Hleg. exists quoter. split; [exact Hquoter|].
  unfold v3Candidates in Hin.
  pose proof (v3Routes_shape w (rq_fromAddr rq) (rq_toAddr rq)
                (jsBoolean (allowMultiHop params)) (clampMaxHops (maxHops params))
                (v3FeeTiers w params)) as Hall.
  rewrite Forall_forall in Hall.
  destruct (Hall _ Hin) as ((_ & _ & H2) & Hlen & _).
  unfold v3SplitLeg in Hleg. cbn [candidateOfV3 c_tokens c_fees].
  destruct (Nat.eqb_spec (length (v3_tokens (v3_r x))) 2) as [He|Hne].
  - left.
    destruct (v3_tokens (v3_r x)) as [|tokenIn [|tokenOut [|t ts]]]; try discriminate He.
    destruct (v3_fees (v3_r x)) as [|fee [|f fs]]; try discriminate Hlen.
    exists tokenIn, tokenOut, fee. split; [reflexivity|]. split; [reflexivity|].
    cbn [lookup list_lookup from_option id] in Hleg. inversion Hleg. reflexivity.
  - right. split; [exact Hne|].
    destruct (encodeV3Path (v3_tokens (v3_r x)) (v3_fees (v3_r x))) as [pathBytes|e];
      [|discriminate Hleg].
    exists pathBytes. split; [reflexivity|]. cbn [bind] in Hleg.
    inversion Hleg. reflexivity.
Qed.

Lemma splitLegs_venueLeg (d : DexVersion) (params : QuoteParams)
    (r1 r2 : Candidate) (rest : list Candidate) (leg1 leg2 : Z -> Z) :
  rankedRoutes w d params = Some (r1 :: r2 :: rest) ->
  splitLegs w d params = Some (leg1, leg2) ->
  venueLeg w d params r1 leg1 /\ venueLeg w d params r2 leg2.
Proof.
  destruct d; unfold rankedRoutes, splitLegs.
  - destruct (v2Setup w params) as [rq|e]; [|discriminate].
    cbn [resultToOption mbind option_bind].
    destruct (v2Ranked w _ _) as [|a1 [|a2 rk]]; try discriminate.
    intros Hr Hl. inversion Hr; subst. inversion Hl; subst. split; reflexivity.
  - destruct (v3Setup w params) as [[quoter rq]|e] eqn:Hs; [|discriminate].
    cbn [resultToOption mbind option_bind fst snd].
    assert (Hquoter : getV3Quoter w (quoterAddress params) = Some quoter).
    { unfold v3Setup in Hs. destruct (negb (providerAvailable w)); [discriminate|].
      destruct (getV3Quoter w (quoterAddress params)) as [quoter'|]; [|discriminate].
      destruct (resolveRequest w params); [|discriminate].
      cbn [bind] in Hs. inversion Hs. reflexivity. }
    pose proof (v3Ranked_routes w quoter (rq_amountInRaw rq) (v3Candidates w params rq))
      as Hin.
    destruct (v3Ranked w _ _ _) as [|x [|y rk]]; try discriminate.
    intros Hr Hl. inversion Hr; subst r1 r2 rest. clear Hr.
    destruct (v3SplitLeg w quoter (v3_r x)) as [l1|e1] eqn:H1; [|discriminate].
    destruct (v3SplitLeg w quoter (v3_r y)) as [l2|e2] eqn:H2; [|discriminate].
    cbn [resultToOption mbind option_bind] in Hl. inversion Hl; subst l1 l2.
    split.
    + apply (v3SplitLeg_venueLeg quoter params rq x leg1 Hquoter); [apply Hin; left|exact H1].
    + apply (v3SplitLeg_venueLeg quoter params rq y leg2 Hquoter);
        [apply Hin; right; left|exact H2].
Qed.

(** X15. The two parts of a split quote are the two best ranked routes,
    each reported with the output the venue quoted for exactly the input
    assigned to it -- the router's answer for the part's path on v2; on v3
    the quoter's single-hop answer for a part of two tokens and its answer
    on the encoded path for a longer one.  The outputs of the parts add up
    to the output of the quote, and a split quote carries no single path
    and no provider. *)
Theorem split_parts_report_their_own_quotes
    (d : DexVersion) (params : QuoteParams) (q : LiveQuote) :
  quoteOnDex w d params = Ok q ->
  isSplit q = true ->
  exists (r1 r2 : Candidate) (rest : list Candidate) (partA partB : SplitQuotePart),
    rankedRoutes w d params = Some (r1 :: r2 :: rest)
    /\ parts q = Some [partA; partB]
    /\ part_path partA = c_tokens r1 /\ part_path partB = c_tokens r2
    /\ (let quoted (r : Candidate) (part : SplitQuotePart) : Prop :=
          match d with
          | dex_pcs_v2 =>
              part_amountOutRaw part
              = evaluatePathOut w (c_tokens r) (part_amountInRaw part)
          | dex_pcs_v3 =>
              exists quoter : string,
                getV3Quoter w (quoterAddress params) = Some quoter
                /\ ((exists (tokenIn tokenOut : string) (fee : Z),
                       c_tokens r = [tokenIn; tokenOut] /\ c_fees r = [fee]
                       /\ part_amountOutRaw part
                          = quoteV3ExactInputSingle w quoter tokenIn tokenOut fee
                              (part_amountInRaw part))
                    \/ (length (c_tokens r) <> 2%nat
                        /\ exists pathBytes : string,
                             encodeV3Path (c_tokens r) (c_fees r) = Ok pathBytes
                             /\ part_amountOutRaw part
                                = quoteV3ExactInput w quoter pathBytes
                                    (part_amountInRaw part)))
          end in
        quoted r1 partA /\ quoted r2 partB)
    /\ amountOutRaw q = part_amountOutRaw partA + part_amountOutRaw partB
    /\ path q = None /\ provider q = None.
Proof.
  intros Hq Hsplit.
  destruct (quoteOnDex_shape w d params q Hq) as (a & r1 & rest & _ & Hr & Hshape).
  pose proof (rankedRoutes_positive w d params _ Hr) as Hpos.
  apply Forall_cons in Hpos as [Hpos1 _].
  destruct Hshape as [(Hs & _)|(_ & r2 & rest' & leg1 & leg2 & -> & Hlegs & Hlt & Hshape)];
    [congruence|].
  destruct Hshape as (_ & Hp & _ & Hprov & _ & _ & _ & Ho & pA & pB & Hparts
                      & HpA & HpB & HiA & HiB & HoA & HoB).
  destruct (splitSearch_first_max leg1 leg2 a (c_out r1))
    as [_ [(H0 & _)|(_ & _ & H1 & H2 & _)]]; [lia|].
  destruct (splitLegs_venueLeg d params r1 r2 rest' leg1 leg2 Hr Hlegs) as [Hv1 Hv2].
  assert (HA : part_amountOutRaw pA = leg1 (part_amountInRaw pA)) by congruence.
  assert (HB : part_amountOutRaw pB = leg2 (part_amountInRaw pB)) by congruence.
  exists r1, r2, rest', pA, pB.
  split; [exact Hr|]. split; [exact Hparts|]. split; [exact HpA|]. split; [exact HpB|].
  split; [|split; [congruence|split; assumption]].
  cbv zeta. unfold venueLeg in Hv1, Hv2. destruct d.
  - rewrite HA, HB, Hv1, Hv2. split; reflexivity.
  - destruct Hv1 as (quoter & Hquoter & Hc1). destruct Hv2 as (quoter' & Hquoter' & Hc2).
    assert (quoter' = quoter) by congruence. subst quoter'.
    split; exists quoter; (split; [exact Hquoter|]).
    + destruct Hc1 as [(tIn & tOut & fee & Ht & Hf & Hl)|(Hne & bytes & He & Hl)].
      * left. exists tIn, tOut, fee. rewrite HA, Hl. repeat split; assumption.
      * right. split; [exact Hne|]. exists bytes. rewrite HA, Hl. split; [exact He|reflexivity].
    + destruct Hc2 as [(tIn & tOut & fee & Ht & Hf & Hl)|(Hne & bytes & He & Hl)].
      * left. exists tIn, tOut, fee. rewrite HB, Hl. repeat split; assumption.
      * right. split; [exact Hne|]. exists bytes. rewrite HB, Hl. split; [exact He|reflexivity].
Qed.

End SplitParts.

(** ** Preferred intermediates *)

Lemma allChars_append (p : ascii -> bool) (a b : string) :
  Js.allChars p (a +:+ b) = Js.allChars p a && Js.allChars p b.
Proof.
  induction a as [|c a IH]; [reflexivity|].
  rewrite append_cons. cbn [Js.allChars]. rewrite IH. apply andb_assoc.
Qed.

Lemma tokens_clean (sep : ascii -> bool) (s cur t : string) :
  Js.allChars (fun c => negb (sep c)) cur = true ->
  t ∈ Js.tokens sep cur s ->
  t <> "" /\ Js.allChars (fun c => negb (sep c)) t = true.
Proof.
  revert cur. induction s as [|c r IH]; intros cur Hcur Ht.
  - cbn [Js.tokens] in Ht. destruct cur as [|c0 cur0]; [inversion Ht|].
    apply list_elem_of_singleton in Ht. subst t. split; [discriminate|exact Hcur].
  - cbn [Js.tokens] in Ht. destruct (sep c) eqn:Hc.
    + destruct cur as [|c0 cur0]; [exact (IH "" eq_refl Ht)|].
      apply elem_of_cons in Ht as [->|Ht]; [split; [discriminate|exact Hcur]|].
      exact (IH "" eq_refl Ht).
    + apply (IH (cur +:+ String c EmptyString)); [|exact Ht].
      rewrite allChars_append, Hcur. cbn [Js.allChars]. rewrite Hc. reflexivity.
Qed.

Lemma isIntermediateSeparator_upperChar (c : ascii) :
  isIntermediateSeparator (Js.upperChar c) = isIntermediateSeparator c.
Proof. destruct c as [[] [] [] [] [] [] [] []]; vm_compute; reflexivity. Qed.

(** X26. The preferred intermediates are clean symbols: each one is
    non-empty, upper-case, and free of the separator characters
    (semicolon, comma, colon, white space); when
    [SERVER_QUOTE_INTERMEDIATES] is unset or blank the list is WBNB, USDT,
    USDC. *)
Theorem preferred_intermediates_are_clean_symbols (w : World) :
  Forall (fun s : string =>
            s <> "" /\ Js.toUpperCase s = s
            /\ Js.allChars (fun c => negb (isIntermediateSeparator c)) s = true)
         (getPreferredIntermediates w)
  /\ (Js.trim (default "" (env w !! "SERVER_QUOTE_INTERMEDIATES")) = "" ->
      getPreferredIntermediates w = ["WBNB"; "USDT"; "USDC"]).
Proof.
  unfold getPreferredIntermediates.
  destruct (Js.trim (default "" (env w !! "SERVER_QUOTE_INTERMEDIATES"))) as [|c raw].
  - split; [|reflexivity].
    repeat constructor; discriminate.
  - split; [|discriminate].
    apply Forall_fmap, Forall_forall. intros t Ht. cbn [compose].
    destruct (tokens_clean isIntermediateSeparator _ "" t eq_refl Ht) as [Hne Hall].
    split; [|split].
    + intros H. apply Hne. apply (f_equal String.length) in H.
      unfold Js.toUpperCase in H. rewrite length_mapChars in H.
      destruct t; [reflexivity|discriminate].
    + apply toUpperCase_idem.
    + clear Ht Hne. unfold Js.toUpperCase.
      induction t as [|x t IH]; [reflexivity|].
      cbn [Js.mapChars Js.allChars] in *. apply andb_true_iff in Hall as [Hx Ht].
      rewrite isIntermediateSeparator_upperChar, Hx, (IH Ht). reflexivity.
Qed.

(** ** The properties at concrete requests *)

Lemma returned_quote_dominates_every_candidate_witness :
  let w := Examples.cappedWorld in
  let d := dex_pcs_v2 in
  let params := Examples.request "BUSD" "CAKE" true true in
  let q := Examples.quoteOf (quoteOnDex w d params) in
  let evals := Scenarios.evaluationsOf (evaluations w d params) in
  evaluations w d params = Some evals
  /\ quoteOnDex w d params = Ok q
  /\ Forall (fun c => c_out c <= amountOutRaw q) evals
  /\ (isSplit q = false ->
      exists c : Candidate,
        c ∈ evals /\ path q = Some (c_tokens c) /\ amountOutRaw q = c_out c).
Proof.
  intros w d params q evals.
  assert (H1 : evaluations w d params = Some evals) by (vm_compute; reflexivity).
  assert (H2 : quoteOnDex w d params = Ok q) by (vm_compute; reflexivity).
  split; [exact H1|]. split; [exact H2|].
  exact (returned_quote_dominates_every_candidate w d params q evals H1 H2).
Defined.

Lemma v2_single_quote_is_a_candidate_witness :
  let w := Examples.flatWorld in
  let params := Examples.request "BUSD" "CAKE" true false in
  let q := Examples.quoteOf (quotePcsV2BestExactIn w params) in
  quotePcsV2BestExactIn w params = Ok q
  /\ isSplit q = false
  /\ exists (rq : Request) (p : list string),
       v2Setup w params = Ok rq
       /\ p ∈ v2Candidates w params rq
       /\ path q = Some p
       /\ head p = Some (rq_fromAddr rq)
       /\ (2 <= length p <= 4)%nat
       /\ amountOutRaw q = evaluatePathOut w p (rq_amountInRaw rq)
       /\ provider q = Some pcs_v2
       /\ tradingFeeBpsApprox q = Some (25 * (Z.of_nat (length p) - 1)).
Proof.
  intros w params q.
  assert (H1 : quotePcsV2BestExactIn w params = Ok q) by (vm_compute; reflexivity).
  assert (H2 : isSplit q = false) by (vm_compute; reflexivity).
  split; [exact H1|]. split; [exact H2|].
  exact (v2_single_quote_is_a_candidate w params q H1 H2).
Defined.

Lemma v2_without_multihop_quotes_the_direct_pair_witness :
  let w := Examples.flatWorld in
  let params := Examples.request "BUSD" "CAKE" false true in
  let q := Examples.quoteOf (quotePcsV2BestExactIn w params) in
  jsBoolean (allowMultiHop params) = false
  /\ quotePcsV2BestExactIn w params = Ok q
  /\ exists rq : Request,
       v2Setup w params = Ok rq
       /\ sameAddress (rq_fromAddr rq) (rq_toAddr rq) = false
       /\ isSplit q = false
       /\ path q = Some [rq_fromAddr rq; rq_toAddr rq]
       /\ amountOutRaw q
          = evaluatePathOut w [rq_fromAddr rq; rq_toAddr rq] (rq_amountInRaw rq)
       /\ tradingFeeBpsApprox q = Some 25.
Proof.
  intros w params q.
  assert (H1 : jsBoolean (allowMultiHop params) = false) by reflexivity.
  assert (H2 : quotePcsV2BestExactIn w params = Ok q) by (vm_compute; reflexivity).
  split; [exact H1|]. split; [exact H2|].
  exact (v2_without_multihop_quotes_the_direct_pair w params q H1 H2).
Defined.

Lemma same_asset_without_multihop_has_no_route_witness :
  let w := Examples.flatWorld in
  let d := dex_pcs_v2 in
  let params := Examples.request "bnb" "WBNB" false false in
  let rq := {| rq_fromSymbol := "BNB"; rq_toSymbol := "WBNB";
               rq_fromAddr := Examples.WBNB; rq_toAddr := Examples.WBNB;
               rq_fromDecimals := 18; rq_toDecimals := 18;
               rq_amountInRaw := 1000 |} in
  resolveRequest w params = Ok rq
  /\ sameAddress (rq_fromAddr rq) (rq_toAddr rq) = true
  /\ jsBoolean (allowMultiHop params) = false
  /\ (forall q : LiveQuote, quoteOnDex w d params <> Ok q)
  /\ (forall evals : list Candidate,
        evaluations w d params = Some evals ->
        evals = [] /\ quoteOnDex w d params = Err (noRouteError d)).
Proof.
  intros w d params rq.
  assert (H1 : resolveRequest w params = Ok rq) by (vm_compute; reflexivity).
  assert (H2 : sameAddress (rq_fromAddr rq) (rq_toAddr rq) = true)
    by (vm_compute; reflexivity).
  assert (H3 : jsBoolean (allowMultiHop params) = false) by reflexivity.
  split; [exact H1|]. split; [exact H2|]. split; [exact H3|].
  exact (same_asset_without_multihop_has_no_route w d params rq H1 H2 H3).
Defined.

Lemma pancake_quote_hops_and_gas_witness :
  let w := Examples.twoVenueWorld 990 995 in
  let params := Examples.request "BUSD" "CAKE" true false in
  let q := Examples.quoteOf (quotePancakeBest w params) in
  quotePancakeBest w params = Ok q
  /\ jsBoolean (allowSplitRouting params) = false
  /\ (provider q = Some pcs_v2 \/ provider q = Some pcs_v3)
  /\ 0 < amountOutRaw q
  /\ isSplit q = false
  /\ exists p : list string,
       path q = Some p
       /\ (2 <= length p <= 4)%nat
       /\ quoteSwapHops q = Z.of_nat (length p) - 1
       /\ simulationHops q = Z.of_nat (length p) - 1
       /\ quoteSwapGasLimit q = estimateSwapGasLimitByHops (Z.of_nat (length p))
       /\ swapGasLimit q = estimateSwapGasLimitByHops (Z.of_nat (length p))
       /\ (provider q = Some pcs_v2 ->
           tradingFeeBpsApprox q = Some (simulationTradingFeeBps q)).
Proof.
  intros w params q.
  assert (H1 : quotePancakeBest w params = Ok q) by (vm_compute; reflexivity).
  assert (H2 : jsBoolean (allowSplitRouting params) = false) by reflexivity.
  split; [exact H1|]. split; [exact H2|].
  exact (pancake_quote_hops_and_gas w params q H1 H2).
Defined.

Lemma oneinch_quote_shape_witness :
  let w := Scenarios.oneInchWorld in
  let params := Examples.request "busd" "CAKE" true false in
  let slippagePercent := Some 1%float in
  let q := Examples.quoteOf (quoteWithOneInchExactIn w params slippagePercent) in
  quoteWithOneInchExactIn w params slippagePercent = Ok q
  /\ provider q = Some oneinch
  /\ 0 < amountOutRaw q
  /\ isSplit q = false /\ parts q = None /\ path q = None
  /\ (forall f : Z, tradingFeeBpsApprox q = Some f -> 25 <= f /\ (25 | f))
  /\ (forall ps : list string,
        pathSymbols q = Some ps ->
        head ps = Some (Js.toUpperCase (fromSymbol params)) /\ (2 <= length ps)%nat)
  /\ (forall g : Z, estimatedGasUnits q = Some g -> 0 < g)
  /\ swapGasLimit q = 180000.
Proof.
  intros w params slippagePercent q.
  assert (H1 : quoteWithOneInchExactIn w params slippagePercent = Ok q)
    by (vm_compute; reflexivity).
  split; [exact H1|].
  exact (oneinch_quote_shape w params slippagePercent q H1).
Defined.

Lemma simulation_gas_limit_witness :
  let w := Examples.cappedWorld in
  let params :=
    Scenarios.simulation (Examples.request "BUSD" "CAKE" true true) (Some engine_pcs) in
  let r := Scenarios.swapCostOf (simulateSwapCostNow w params) in
  simulateSwapCostNow w params = Ok r
  /\ gasLimit r = swapGasLimit (quote r)
  /\ match default engine_oneinch (engine params) with
     | engine_oneinch => provider (quote r) = Some oneinch /\ gasLimit r = 180000
     | engine_pcs =>
         (isSplit (quote r) = false ->
          exists p : list string,
            path (quote r) = Some p /\ (2 <= length p <= 4)%nat
            /\ gasLimit r = 140000 + 60000 * (Z.of_nat (length p) - 2))
         /\ (isSplit (quote r) = true ->
             exists partA partB : SplitQuotePart,
               parts (quote r) = Some [partA; partB]
               /\ gasLimit r
                  = estimateSwapGasLimitByHops (Z.of_nat (length (part_path partA)))
                    + estimateSwapGasLimitByHops (Z.of_nat (length (part_path partB)))
               /\ 280000 <= gasLimit r <= 520000)
     end.
Proof.
  intros w params r.
  assert (H1 : simulateSwapCostNow w params = Ok r) by (vm_compute; reflexivity).
  split; [exact H1|].
  exact (simulation_gas_limit w params r H1).
Defined.

Lemma no_minimum_without_positive_slippage_witness :
  let w := Scenarios.oneInchWorld in
  let params :=
    Scenarios.simulation (Examples.request "BUSD" "CAKE" true false) None in
  let r := Scenarios.swapCostOf (simulateSwapCostNow w params) in
  simulateSwapCostNow w params = Ok r
  /\ (isFinite (slippageOf w (slippagePercent params))
      && (0 <? slippageOf w (slippagePercent params))%float) = false
  /\ amountOutMin (quote r) = None.
Proof.
  intros w params r.
  assert (H1 : simulateSwapCostNow w params = Ok r) by (vm_compute; reflexivity).
  assert (H2 : (isFinite (slippageOf w (slippagePercent params))
                && (0 <? slippageOf w (slippagePercent params))%float) = false)
    by (vm_compute; reflexivity).
  split; [exact H1|]. split; [exact H2|].
  exact (no_minimum_without_positive_slippage w params r H1 H2).
Defined.


Lemma quoter_fails_only_at_setup_or_without_route_witness :
  let w := Scenarios.silentWorld in
  let d := dex_pcs_v3 in
  let params := Examples.request "BUSD" "CAKE" true true in
  let e := NoV3Route in
  quoteOnDex w d params = Err e
  /\ (e = noRouteError d \/ e = ProviderUnavailable \/ e = UnknownAddress
      \/ e = AmountRejected
      \/ (d = dex_pcs_v3 /\ e = QuoterUnavailable)
      \/ (d = dex_pcs_v2 /\ e = NullDereference
          /\ getKnownTokenAddress w "WBNB" = None)).
Proof.
  intros w d params e.
  assert (H1 : quoteOnDex w d params = Err e) by (vm_compute; reflexivity).
  split; [exact H1|].
  exact (quoter_fails_only_at_setup_or_without_route w d params e H1).
Defined.

Lemma split_parts_report_their_own_quotes_witness :
  let w := Examples.cappedWorld in
  let params := Examples.request "BUSD" "CAKE" true true in
  let q2 := Examples.quoteOf (quoteOnDex w dex_pcs_v2 params) in
  let q3 := Examples.quoteOf (quoteOnDex w dex_pcs_v3 params) in
  let reported (d : DexVersion) (q : LiveQuote) : Prop :=
    exists (r1 r2 : Candidate) (rest : list Candidate) (partA partB : SplitQuotePart),
      rankedRoutes w d params = Some (r1 :: r2 :: rest)
      /\ parts q = Some [partA; partB]
      /\ part_path partA = c_tokens r1 /\ part_path partB = c_tokens r2
      /\ (let quoted (r : Candidate) (part : SplitQuotePart) : Prop :=
            match d with
            | dex_pcs_v2 =>
                part_amountOutRaw part
                = evaluatePathOut w (c_tokens r) (part_amountInRaw part)
            | dex_pcs_v3 =>
                exists quoter : string,
                  getV3Quoter w (quoterAddress params) = Some quoter
                  /\ ((exists (tokenIn tokenOut : string) (fee : Z),
                         c_tokens r = [tokenIn; tokenOut] /\ c_fees r = [fee]
                         /\ part_amountOutRaw part
                            = quoteV3ExactInputSingle w quoter tokenIn tokenOut fee
                                (part_amountInRaw part))
                      \/ (length (c_tokens r) <> 2%nat
                          /\ exists pathBytes : string,
                               encodeV3Path (c_tokens r) (c_fees r) = Ok pathBytes
                               /\ part_amountOutRaw part
                                  = quoteV3ExactInput w quoter pathBytes
                                      (part_amountInRaw part)))
            end in
          quoted r1 partA /\ quoted r2 partB)
      /\ amountOutRaw q = part_amountOutRaw partA + part_amountOutRaw partB
      /\ path q = None /\ provider q = None in
  (quoteOnDex w dex_pcs_v2 params = Ok q2 /\ isSplit q2 = true
   /\ reported dex_pcs_v2 q2)
  /\ (quoteOnDex w dex_pcs_v3 params = Ok q3 /\ isSplit q3 = true
      /\ reported dex_pcs_v3 q3).
Proof.
  intros w params q2 q3 reported.
  assert (H2 : quoteOnDex w dex_pcs_v2 params = Ok q2) by (vm_compute; reflexivity).
  assert (S2 : isSplit q2 = true) by (vm_compute; reflexivity).
  assert (H3 : quoteOnDex w dex_pcs_v3 params = Ok q3) by (vm_compute; reflexivity).
  assert (S3 : isSplit q3 = true) by (vm_compute; reflexivity).
  split.
  - split; [exact H2|]. split; [exact S2|].
    exact (split_parts_report_their_own_quotes w dex_pcs_v2 params q2 H2 S2).
  - split; [exact H3|]. split; [exact S3|].
    exact (split_parts_report_their_own_quotes w dex_pcs_v3 params q3 H3 S3).
Defined.

